(** * Quote store, import and server synchronisation of the Dynamic Quote
    Generator (the script with local storage, category filter and mock
    server sync).

    The script keeps its state in module-level variables ([quotes],
    [lastQuoteIndex], [pendingConflicts]) and in [localStorage]; each source
    function is embedded as a pure function that takes that state, and the
    values the browser supplies (the response to [fetch], the clock, the
    answer to [confirm], the numbers drawn by [Math.random]), and returns
    the state it leaves behind.

    Conventions of the embedding:
    - a quote of the collection is an object whose [text] and [category] are
      strings (what the import filter lets through and what the fetch
      builds), and a server record has an integer [id], an integer [userId]
      and a string [title], as the endpoint delivers them;
    - [localStorage] is a finite map from keys to strings and a write to it
      succeeds;
    - [JSON.stringify] and [JSON.parse] are given on values whose numbers
      are decimals [m * 10^e], written as integers when [e = 0];
    - DOM rendering and console output are left out; the sync status line,
      the notifications, the alerts and the POST requests issued are kept in
      the state, so that what a run reports can be stated;
    - the functions of the page (the dropdown, the stats line, the quote
      shown, adding, exporting, the timer of the automatic sync) work on a
      record that holds the state above together with what they read and
      write: the elements are kept by the data their text is made from, not
      by their markup, and a listener runs from its call to its end. *)

From Stdlib Require Import ZArith List Ascii String Bool Lia.
From stdpp Require Import base option list gmap strings pretty sorting.

Local Open Scope Z_scope.

(** ** The platform: JSON values, [JSON.stringify] and [JSON.parse] *)

Module Json.

(** A number is kept as the decimal [m * 10^e] its literal denotes; the
    integers the script itself produces (ids, millisecond clocks, lengths)
    have [e = 0].  Strings are byte strings holding UTF-8 text. *)
#[local] Unset Elimination Schemes.
Inductive JSON : Type :=
| JNull
| JBool (b : bool)
| JNum (m e : Z)
| JStr (s : string)
| JArr (items : list JSON)
| JObj (members : list (string * JSON)).
#[local] Set Elimination Schemes.

Definition JInt (z : Z) : JSON := JNum z 0.

Definition code (c : ascii) : nat := nat_of_ascii c.
Definition chr (n : nat) : ascii := ascii_of_nat n.
Definition str1 (n : nat) : string := String (chr n) EmptyString.

Definition DQUOTE : nat := 34.
Definition BACKSLASH : nat := 92.

(** *** Serialisation *)

Definition hex_digit (n : nat) : ascii :=
  if (n <? 10)%nat then chr (48 + n) else chr (87 + n).

(** One character of a string literal, as [JSON.stringify] writes it. *)
Definition escape_char (c : ascii) : string :=
  let n := code c in
  if (n =? DQUOTE)%nat then String (chr BACKSLASH) (str1 DQUOTE)
  else if (n =? BACKSLASH)%nat then String (chr BACKSLASH) (str1 BACKSLASH)
  else if (n =? 8)%nat then String (chr BACKSLASH) "b"
  else if (n =? 12)%nat then String (chr BACKSLASH) "f"
  else if (n =? 10)%nat then String (chr BACKSLASH) "n"
  else if (n =? 13)%nat then String (chr BACKSLASH) "r"
  else if (n =? 9)%nat then String (chr BACKSLASH) "t"
  else if (n <? 32)%nat then
    String (chr BACKSLASH)
      ("u00" +:+ String (hex_digit (n / 16)) (String (hex_digit (n mod 16)) EmptyString))
  else String c EmptyString.

Fixpoint escape_string (s : string) : string :=
  match s with
  | EmptyString => EmptyString
  | String c r => escape_char c +:+ escape_string r
  end.

Definition quote_string (s : string) : string :=
  str1 DQUOTE +:+ escape_string s +:+ str1 DQUOTE.

Fixpoint join_comma (l : list string) : string :=
  match l with
  | [] => EmptyString
  | [x] => x
  | x :: r => x +:+ "," +:+ join_comma r
  end.

Definition number_to_string (m e : Z) : string :=
  if (e =? 0)%Z then pretty m else pretty m +:+ "e" +:+ pretty e.

Fixpoint JSON_stringify (v : JSON) : string :=
  match v with
  | JNull => "null"
  | JBool true => "true"
  | JBool false => "false"
  | JNum m e => number_to_string m e
  | JStr s => quote_string s
  | JArr items => "[" +:+ join_comma (map JSON_stringify items) +:+ "]"
  | JObj members =>
      "{" +:+ join_comma
                (map (fun kv => quote_string (fst kv) +:+ ":" +:+ JSON_stringify (snd kv))
                     members) +:+ "}"
  end.

(** *** Parsing *)

Definition is_ws (c : ascii) : bool :=
  let n := code c in
  (n =? 32)%nat || (n =? 9)%nat || (n =? 10)%nat || (n =? 13)%nat.

Fixpoint skip_ws (s : string) : string :=
  match s with
  | String c r => if is_ws c then skip_ws r else s
  | EmptyString => EmptyString
  end.

Definition digit_of (c : ascii) : option Z :=
  let n := code c in
  if ((48 <=? n) && (n <=? 57))%nat then Some (Z.of_nat (n - 48)) else None.

Definition hex_of (c : ascii) : option nat :=
  let n := code c in
  if ((48 <=? n) && (n <=? 57))%nat then Some (n - 48)%nat
  else if ((65 <=? n) && (n <=? 70))%nat then Some (n - 55)%nat
  else if ((97 <=? n) && (n <=? 102))%nat then Some (n - 87)%nat
  else None.

(** Reads the longest run of digits: the value accumulated, how many digits
    were read, and the rest of the text. *)
Fixpoint read_digits (acc : Z) (cnt : nat) (s : string) : Z * nat * string :=
  match s with
  | String c r =>
      match digit_of c with
      | Some d => read_digits (acc * 10 + d) (S cnt) r
      | None => (acc, cnt, s)
      end
  | EmptyString => (acc, cnt, s)
  end.

Definition parse_int_part (s : string) : option (Z * string) :=
  match s with
  | String c r =>
      match digit_of c with
      | Some 0 => Some (0, r)
      | Some d => let '(m, _, r') := read_digits d 1 r in Some (m, r')
      | None => None
      end
  | EmptyString => None
  end.

Definition parse_frac_part (m : Z) (s : string) : option (Z * Z * string) :=
  match s with
  | String c r =>
      if (c =? ".")%char then
        let '(m', k, r') := read_digits m 0 r in
        match k with
        | O => None
        | _ => Some (m', - Z.of_nat k, r')
        end
      else Some (m, 0, s)
  | EmptyString => Some (m, 0, s)
  end.

Definition parse_exp_part (s : string) : option (Z * string) :=
  match s with
  | String c r =>
      if ((c =? "e")%char || (c =? "E")%char)%bool then
        let '(neg, r1) :=
          match r with
          | String c1 r1 =>
              if (c1 =? "-")%char then (true, r1)
              else if (c1 =? "+")%char then (false, r1) else (false, r)
          | EmptyString => (false, r)
          end in
        let '(x, k, r2) := read_digits 0 0 r1 in
        match k with
        | O => None
        | _ => Some (if neg then - x else x, r2)
        end
      else Some (0, s)
  | EmptyString => Some (0, s)
  end.

Definition parse_number (s : string) : option (JSON * string) :=
  let '(neg, s1) :=
    match s with
    | String c r => if (c =? "-")%char then (true, r) else (false, s)
    | EmptyString => (false, s)
    end in
  '(m, s2) ← parse_int_part s1;
  '(m', e1, s3) ← parse_frac_part m s2;
  '(e2, s4) ← parse_exp_part s3;
  Some (JNum (if neg then - m' else m') (e1 + e2), s4).

(** The UTF-8 bytes of a code unit written as a [\uXXXX] escape. *)
Definition utf8_of_code_unit (n : nat) : string :=
  if (n <? 128)%nat then str1 n
  else if (n <? 2048)%nat then String (chr (192 + n / 64)) (str1 (128 + n mod 64))
  else String (chr (224 + n / 4096))
         (String (chr (128 + (n / 64) mod 64)) (str1 (128 + n mod 64))).

Definition simple_escape (c : ascii) : option string :=
  let n := code c in
  if (n =? DQUOTE)%nat then Some (str1 DQUOTE)
  else if (n =? BACKSLASH)%nat then Some (str1 BACKSLASH)
  else if (c =? "/")%char then Some "/"
  else if (c =? "b")%char then Some (str1 8)
  else if (c =? "f")%char then Some (str1 12)
  else if (c =? "n")%char then Some (str1 10)
  else if (c =? "r")%char then Some (str1 13)
  else if (c =? "t")%char then Some (str1 9)
  else None.

(** The text after an opening quote: the string it spells and what follows
    the closing quote. *)
Fixpoint parse_string_body (s : string) : option (string * string) :=
  match s with
  | EmptyString => None
  | String c r =>
      if (code c =? DQUOTE)%nat then Some (EmptyString, r)
      else if (code c =? BACKSLASH)%nat then
        match r with
        | String e r1 =>
            if (e =? "u")%char then
              match r1 with
              | String h1 (String h2 (String h3 (String h4 r2))) =>
                  a ← hex_of h1; b ← hex_of h2; c' ← hex_of h3; d ← hex_of h4;
                  '(t, rest) ← parse_string_body r2;
                  Some (utf8_of_code_unit (((a * 16 + b) * 16 + c') * 16 + d)%nat +:+ t, rest)
              | _ => None
              end
            else
              x ← simple_escape e;
              '(t, rest) ← parse_string_body r1;
              Some (x +:+ t, rest)
        | EmptyString => None
        end
      else if (code c <? 32)%nat then None
      else '(t, rest) ← parse_string_body r; Some (String c t, rest)
  end.

Fixpoint strip_prefix (p s : string) : option string :=
  match p, s with
  | EmptyString, _ => Some s
  | String a p', String b s' => if (a =? b)%char then strip_prefix p' s' else None
  | String _ _, EmptyString => None
  end.

(** A later member with the name of an earlier one replaces its value and
    keeps its place, as the properties of the object [JSON.parse] builds. *)
Fixpoint set_member (k : string) (v : JSON) (ms : list (string * JSON)) : list (string * JSON) :=
  match ms with
  | [] => [(k, v)]
  | (k', v') :: r => if String.eqb k k' then (k', v) :: r else (k', v') :: set_member k v r
  end.

Definition object_of (ms : list (string * JSON)) : JSON :=
  JObj (fold_left (fun acc kv => set_member (fst kv) (snd kv) acc) ms []).

Fixpoint parse_value (fuel : nat) (s : string) : option (JSON * string) :=
  match fuel with
  | O => None
  | S fuel =>
      match skip_ws s with
      | EmptyString => None
      | String c r =>
          if (c =? "n")%char then r' ← strip_prefix "ull" r; Some (JNull, r')
          else if (c =? "t")%char then r' ← strip_prefix "rue" r; Some (JBool true, r')
          else if (c =? "f")%char then r' ← strip_prefix "alse" r; Some (JBool false, r')
          else if (code c =? DQUOTE)%nat then
            '(t, r') ← parse_string_body r; Some (JStr t, r')
          else if (c =? "[")%char then
            match skip_ws r with
            | String c1 r1 =>
                if (c1 =? "]")%char then Some (JArr [], r1)
                else '(l, r') ← parse_elements fuel r; Some (JArr l, r')
            | EmptyString => None
            end
          else if (c =? "{")%char then
            match skip_ws r with
            | String c1 r1 =>
                if (c1 =? "}")%char then Some (JObj [], r1)
                else '(ms, r') ← parse_members fuel r; Some (object_of ms, r')
            | EmptyString => None
            end
          else parse_number (String c r)
      end
  end
with parse_elements (fuel : nat) (s : string) : option (list JSON * string) :=
  match fuel with
  | O => None
  | S fuel =>
      '(v, r) ← parse_value fuel s;
      match skip_ws r with
      | String c r1 =>
          if (c =? ",")%char then '(l, r') ← parse_elements fuel r1; Some (v :: l, r')
          else if (c =? "]")%char then Some ([v], r1)
          else None
      | EmptyString => None
      end
  end
with parse_members (fuel : nat) (s : string) : option (list (string * JSON) * string) :=
  match fuel with
  | O => None
  | S fuel =>
      match skip_ws s with
      | String q r =>
          if (code q =? DQUOTE)%nat then
            '(k, r1) ← parse_string_body r;
            match skip_ws r1 with
            | String c r2 =>
                if (c =? ":")%char then
                  '(v, r3) ← parse_value fuel r2;
                  match skip_ws r3 with
                  | String c' r4 =>
                      if (c' =? ",")%char then
                        '(ms, r') ← parse_members fuel r4; Some ((k, v) :: ms, r')
                      else if (c' =? "}")%char then Some ([(k, v)], r4)
                      else None
                  | EmptyString => None
                  end
                else None
            | EmptyString => None
            end
          else None
      | EmptyString => None
      end
  end.

(** [JSON.parse]: [None] stands for the [SyntaxError] it throws.  Every
    nesting level and every element consumes a character, so the fuel given
    is never the reason for a failure. *)
Definition JSON_parse (s : string) : option JSON :=
  '(v, r) ← parse_value (2 * String.length s + 2) s;
  match skip_ws r with
  | EmptyString => Some v
  | String _ _ => None
  end.

End Json.
Export Json.

(** ** JavaScript values behind the few operators the script applies to
    parsed data *)

Module Js.

Inductive Exn : Type :=
| SyntaxError                 (* thrown by [JSON.parse] *)
| TypeError                   (* a property read on [null] *)
| Error (message : string).   (* [throw new Error(message)] *)

(** A completion: a value, or an exception on its way to the nearest
    [catch]. *)
Inductive Result (A : Type) : Type :=
| Ok (a : A)
| Throw (e : Exn).
Arguments Ok {A} a.
Arguments Throw {A} e.

Definition try_catch {A} (body : Result A) (handler : Exn -> A) : A :=
  match body with
  | Ok a => a
  | Throw e => handler e
  end.

Definition parse_or_throw (s : string) : Result JSON :=
  match JSON_parse s with
  | Some v => Ok v
  | None => Throw SyntaxError
  end.

(** What [if (x)] sees in a value read with [getItem]: [null] and the empty
    string are falsy. *)
Definition truthy_item (o : option string) : bool :=
  match o with
  | Some (String _ _) => true
  | _ => false
  end.

(** Truthiness of a parsed value. *)
Definition truthy (v : JSON) : bool :=
  match v with
  | JNull => false
  | JBool b => b
  | JNum m _ => negb (m =? 0)
  | JStr s => negb (String.eqb s EmptyString)
  | JArr _ | JObj _ => true
  end.

(** [typeof]; [None] is [undefined]. *)
Definition typeof (v : option JSON) : string :=
  match v with
  | None => "undefined"
  | Some JNull => "object"
  | Some (JBool _) => "boolean"
  | Some (JNum _ _) => "number"
  | Some (JStr _) => "string"
  | Some (JArr _) | Some (JObj _) => "object"
  end.

Fixpoint assoc {A} (k : string) (ms : list (string * A)) : option A :=
  match ms with
  | [] => None
  | (k', v) :: r => if String.eqb k k' then Some v else assoc k r
  end.

(** [v.name] for a property name that no prototype defines ([text],
    [category]): only an object's own member answers. *)
Definition get (v : JSON) (name : string) : option JSON :=
  match v with
  | JObj ms => assoc name ms
  | _ => None
  end.

(** Number of UTF-16 code units of UTF-8 text: one per character, two for
    a character outside the basic plane (a four-byte sequence). *)
Fixpoint utf16_length (s : string) : nat :=
  match s with
  | EmptyString => O
  | String c r =>
      let n := code c in
      ((if ((n <? 128) || (192 <=? n))%nat then 1 else 0)
       + (if (240 <=? n)%nat then 1 else 0) + utf16_length r)%nat
  end.

(** [v.length]: [null] has no properties, arrays and strings have a length,
    an object answers with its own member of that name if it has one. *)
Definition get_length (v : JSON) : Result (option JSON) :=
  match v with
  | JNull => Throw TypeError
  | JArr items => Ok (Some (JInt (Z.of_nat (length items))))
  | JStr s => Ok (Some (JInt (Z.of_nat (utf16_length s))))
  | JObj ms => Ok (assoc "length" ms)
  | JBool _ | JNum _ _ => Ok None
  end.

(** [n !== v] for an array length [n]: only a number of the same value is
    strictly equal to it. *)
Definition length_strict_neq (n : nat) (v : option JSON) : bool :=
  match v with
  | Some (JNum m e) =>
      negb (if (0 <=? e) then (Z.of_nat n =? m * 10 ^ e) else (Z.of_nat n * 10 ^ (- e) =? m))
  | _ => true
  end.

(** *** [String.prototype.trim] on UTF-8 text *)

Definition ws1 (a : ascii) : bool :=
  let n := code a in
  ((n =? 9) || (n =? 10) || (n =? 11) || (n =? 12) || (n =? 13) || (n =? 32))%nat.

(** U+00A0 *)
Definition ws2 (a b : ascii) : bool :=
  ((code a =? 194) && (code b =? 160))%nat.

(** U+1680, U+2000..U+200A, U+2028, U+2029, U+202F, U+205F, U+3000, U+FEFF *)
Definition ws3 (a b c : ascii) : bool :=
  let x := code a in let y := code b in let z := code c in
  (((x =? 225) && (y =? 154) && (z =? 128))
   || ((x =? 226) && (y =? 128) && (((128 <=? z) && (z <=? 138)) || (z =? 168) || (z =? 169) || (z =? 175)))
   || ((x =? 226) && (y =? 129) && (z =? 159))
   || ((x =? 227) && (y =? 128) && (z =? 128))
   || ((x =? 239) && (y =? 187) && (z =? 191)))%nat.

Fixpoint trimStart (s : string) : string :=
  match s with
  | EmptyString => s
  | String a r =>
      if ws1 a then trimStart r
      else
        match r with
        | String b r2 =>
            if ws2 a b then trimStart r2
            else
              match r2 with
              | String c r3 => if ws3 a b c then trimStart r3 else s
              | EmptyString => s
              end
        | EmptyString => s
        end
  end.

Fixpoint trimEnd (s : string) : string :=
  match s with
  | EmptyString => s
  | String a r =>
      match trimStart s with
      | EmptyString => EmptyString
      | String _ _ => String a (trimEnd r)
      end
  end.

Definition trim (s : string) : string := trimEnd (trimStart s).

End Js.
Export Js.

(** ** Data model *)

(** A quote object: its [text] and [category], and the other members it
    carries in order ([serverId] and [serverTimestamp] for a quote made from
    a server record). *)
Record Quote : Type := mkQuote {
  text : string;
  category : string;
  extra : list (string * JSON)
}.

Definition serverId (q : Quote) : option JSON := assoc "serverId" (extra q).
Definition serverTimestamp (q : Quote) : option JSON := assoc "serverTimestamp" (extra q).

(** The object as [JSON.stringify] walks it. *)
Definition quote_json (q : Quote) : JSON :=
  JObj (("text", JStr (text q)) :: ("category", JStr (category q)) :: extra q).

Definition quotes_json (qs : list Quote) : JSON := JArr (map quote_json qs).

(** The template literal [`${q.text}|${q.category}`]. *)
Definition quoteKey (q : Quote) : string := text q +:+ "|" +:+ category q.

(** The identity the data model gives a quote. *)
Definition quotePair (q : Quote) : string * string := (text q, category q).

(** A record of the remote endpoint. *)
Record Post : Type := mkPost {
  id : Z;
  userId : Z;
  title : string
}.

(** What [detectConflicts] returns when both sides were modified. *)
Record ConflictInfo : Type := mkConflictInfo {
  localCount : nat;
  serverCount : nat;
  prevServerCount : option JSON;
  localQuotes : list Quote;
  serverQuotes : list Quote
}.

Inductive Conflicts : Type :=
| NoConflicts                          (* { hasConflicts: false } *)
| FoundConflicts (info : ConflictInfo).

Definition hasConflicts (c : Conflicts) : bool :=
  match c with
  | NoConflicts => false
  | FoundConflicts _ => true
  end.

Inductive Alert : Type :=
| PleaseSelectJson
| ErrorImporting (error : Exn)
| ErrorReadingFile.

(** The module-level variables, [localStorage], and what the script has
    shown or sent so far. *)
Record State : Type := mkState {
  quotes : list Quote;
  pendingConflicts : option ConflictInfo;
  localStorage : gmap string string;
  syncStatus : string * string;            (* last [updateSyncStatus(message, type)] *)
  notifications : list string;             (* [showNotification] messages, oldest first *)
  alerts : list Alert;                     (* [alert] dialogs, oldest first *)
  posted : list (list Quote * Z)           (* bodies of the POST requests issued *)
}.

Definition QUOTES_STORAGE_KEY : string := "dynamicQuotesApp".
Definition SERVER_QUOTES_KEY : string := "serverQuotes".
Definition LAST_SYNC_TIME_KEY : string := "lastSyncTime".

Definition set_quotes (qs : list Quote) (st : State) : State :=
  mkState qs (pendingConflicts st) (localStorage st) (syncStatus st)
          (notifications st) (alerts st) (posted st).

Definition set_pendingConflicts (pc : option ConflictInfo) (st : State) : State :=
  mkState (quotes st) pc (localStorage st) (syncStatus st)
          (notifications st) (alerts st) (posted st).

Definition set_localStorage (ls : gmap string string) (st : State) : State :=
  mkState (quotes st) (pendingConflicts st) ls (syncStatus st)
          (notifications st) (alerts st) (posted st).

Definition setItem (k v : string) (st : State) : State :=
  set_localStorage (<[k := v]> (localStorage st)) st.

Definition getItem (k : string) (st : State) : option string :=
  localStorage st !! k.

Definition updateSyncStatus (message type : string) (st : State) : State :=
  mkState (quotes st) (pendingConflicts st) (localStorage st) (message, type)
          (notifications st) (alerts st) (posted st).

Definition showNotification (message : string) (st : State) : State :=
  mkState (quotes st) (pendingConflicts st) (localStorage st) (syncStatus st)
          (notifications st ++ [message]) (alerts st) (posted st).

Definition alert (a : Alert) (st : State) : State :=
  mkState (quotes st) (pendingConflicts st) (localStorage st) (syncStatus st)
          (notifications st) (alerts st ++ [a]) (posted st).

Definition record_post (body : list Quote * Z) (st : State) : State :=
  mkState (quotes st) (pendingConflicts st) (localStorage st) (syncStatus st)
          (notifications st) (alerts st) (posted st ++ [body]).

(** ** Loading and saving the collection *)

Definition plain (t c : string) : Quote := mkQuote t c [].

Definition defaultQuotes : list Quote :=
  [ plain "The only way to do great work is to love what you do." "Motivation";
    plain "Innovation distinguishes between a leader and a follower." "Leadership";
    plain "Life is what happens when you're busy making other plans." "Life";
    plain "The future belongs to those who believe in the beauty of their dreams." "Motivation";
    plain "It is during our darkest moments that we must focus to see the light." "Inspiration";
    plain "The only impossible journey is the one you never begin." "Motivation";
    plain "In the middle of difficulty lies opportunity." "Inspiration";
    plain "Leadership is not about being in charge. It's about taking care of those in your charge." "Leadership";
    plain "Life is 10% what happens to you and 90% how you react to it." "Life";
    plain "The best time to plant a tree was 20 years ago. The second best time is now." "Wisdom" ].

(** [saveQuotes] for the value [quotes] holds.  Its [catch] is for a write
    that fails, which the store of this embedding does not do. *)
Definition save (quotes : JSON) (ls : gmap string string) : gmap string string :=
  <[QUOTES_STORAGE_KEY := JSON_stringify quotes]> ls.

Definition saveQuotes (st : State) : State :=
  set_localStorage (save (quotes_json (quotes st)) (localStorage st)) st.

(** Start-up runs before anything else has touched the state, and [quotes]
    then holds whatever [JSON.parse] returned: [loadQuotes] and
    [initializeDefaultQuotes] are given on the stored text and return the
    value of [quotes] together with the store. *)
Definition initializeDefaultQuotes (ls : gmap string string) : JSON * gmap string string :=
  let quotes := quotes_json defaultQuotes in
  (quotes, save quotes ls).

(** The body of the [try] block: the assignment, then the [quotes.length]
    handed to [console.log]. *)
Definition loadQuotes_try (storedQuotes : string) : Result JSON :=
  match parse_or_throw storedQuotes with
  | Throw e => Throw e
  | Ok quotes =>
      match get_length quotes with
      | Throw e => Throw e
      | Ok _ => Ok quotes
      end
  end.

(** The completion of [loadQuotes]: a [Throw] would be an exception that
    reaches the caller. *)
Definition loadQuotes (ls : gmap string string) : Result (JSON * gmap string string) :=
  let storedQuotes := ls !! QUOTES_STORAGE_KEY in
  if truthy_item storedQuotes then
    match loadQuotes_try (default EmptyString storedQuotes) with
    | Ok quotes => Ok (quotes, ls)
    | Throw error => Ok (initializeDefaultQuotes ls)
    end
  else Ok (initializeDefaultQuotes ls).

(** ** Merging *)

(** [mergeQuotes(serverQuotes, replaceAll)].  The key set is built once,
    from the collection as it is before the loop; [forEach] then pushes the
    server quotes whose key it does not hold. *)
Definition mergeQuotes (serverQuotes : list Quote) (replaceAll : bool) (st : State) : State :=
  let quotes' :=
    if replaceAll then serverQuotes
    else
      let localQuoteKeys : gset string := list_to_set (map quoteKey (quotes st)) in
      fold_left
        (fun quotes serverQuote =>
           let key := quoteKey serverQuote in
           if bool_decide (key ∈ localQuoteKeys) then quotes else quotes ++ [serverQuote])
        serverQuotes (quotes st)
  in
  saveQuotes (set_quotes quotes' st).

(** ** Import *)

(** The predicate given to [importedQuotes.filter]. *)
Definition isValidQuote (quote : JSON) : bool :=
  truthy quote
  && String.eqb (typeof (Some quote)) "object"
  && String.eqb (typeof (get quote "text")) "string"
  && String.eqb (typeof (get quote "category")) "string"
  && match get quote "text", get quote "category" with
     | Some (JStr t), Some (JStr c) =>
         negb (String.eqb (trim t) EmptyString) && negb (String.eqb (trim c) EmptyString)
     | _, _ => false
     end.

(** A parsed object as a quote of the collection; its members keep their
    values and, apart from [text] and [category], their order. *)
Definition quote_of_json (v : JSON) : option Quote :=
  match v with
  | JObj ms =>
      match assoc "text" ms, assoc "category" ms with
      | Some (JStr t), Some (JStr c) =>
          Some (mkQuote t c
                  (List.filter
                     (fun kv => negb (String.eqb (fst kv) "text" || String.eqb (fst kv) "category"))
                     ms))
      | _, _ => None
      end
  | _ => None
  end.

(** The merge branch of the import, with its counter. *)
Definition import_merge (validQuotes : list Quote) (quotes : list Quote) : list Quote * nat :=
  let existingQuotesSet : gset string := list_to_set (map quoteKey quotes) in
  fold_left
    (fun '(quotes, addedCount) quote =>
       let key := quoteKey quote in
       if bool_decide (key ∈ existingQuotesSet) then (quotes, addedCount)
       else (quotes ++ [quote], S addedCount))
    validQuotes (quotes, O).

(** The body of the [try] block of [fileReader.onload]; [shouldReplace] is
    the answer to [confirm]. *)
Definition import_try (contents : string) (shouldReplace : bool) (st : State) : Result State :=
  match parse_or_throw contents with
  | Throw e => Throw e
  | Ok importedQuotes =>
      match importedQuotes with
      | JArr items =>
          let validQuotes := omap quote_of_json (List.filter isValidQuote items) in
          if (length validQuotes =? 0)%nat then
            Throw (Error "No valid quotes found in the file")
          else
            let st1 :=
              if shouldReplace then
                showNotification
                  ("Replaced with " +:+ pretty (length validQuotes) +:+ " imported quotes!")
                  (set_quotes validQuotes st)
              else
                let '(quotes', addedCount) := import_merge validQuotes (quotes st) in
                showNotification
                  ("Added " +:+ pretty addedCount +:+ " new quotes! ("
                   +:+ pretty (length validQuotes - addedCount)%nat +:+ " duplicates skipped)")
                  (set_quotes quotes' st)
            in
            Ok (saveQuotes st1)
      | _ => Throw (Error "Invalid format: Expected an array of quotes")
      end
  end.

Definition import_onload (contents : string) (shouldReplace : bool) (st : State) : State :=
  try_catch (import_try contents shouldReplace st) (fun error => alert (ErrorImporting error) st).

Record File : Type := mkFile {
  name : string;
  contents : option string     (* [None]: the reader fires [onerror] *)
}.

Fixpoint endsWith (s suffix : string) : bool :=
  String.eqb s suffix
  || match s with
     | EmptyString => false
     | String _ r => endsWith r suffix
     end.

Definition importFromJsonFile (file : option File) (shouldReplace : bool) (st : State) : State :=
  match file with
  | None => st
  | Some file =>
      if negb (endsWith (name file) ".json") then alert PleaseSelectJson st
      else
        match contents file with
        | Some result => import_onload result shouldReplace st
        | None => alert ErrorReadingFile st
        end
  end.

(** ** Server synchronisation *)

Record Response : Type := mkResponse {
  ok : bool;
  status : Z;
  json : string + list Post    (* [response.json()]: rejected with a message, or the records *)
}.

Inductive FetchResult : Type :=
| Rejected (message : string)  (* the request itself failed *)
| Resolved (response : Response).

(** The object built for the record at position [i]; [now i] is what
    [Date.now()] answers when it is built. *)
Definition quote_of_post (now : nat -> Z) (i : nat) (post : Post) : Quote :=
  mkQuote (title post)
          (if Z.rem (userId post) 2 =? 0 then "Server" else "Remote")
          [("serverId", JInt (id post)); ("serverTimestamp", JInt (now i))].

(** [fetchQuotesFromServer]: the quotes, or [None] for the [null] returned
    from the [catch] block. *)
Definition fetchQuotesFromServer (fetched : FetchResult) (now : nat -> Z) (st : State)
  : option (list Quote) * State :=
  let st := updateSyncStatus "Fetching from server..." "info" st in
  let failed (message : string) :=
    (None,
     showNotification ("Failed to sync with server: " +:+ message)
       (updateSyncStatus "Failed to fetch from server" "error" st)) in
  match fetched with
  | Rejected message => failed message
  | Resolved response =>
      if negb (ok response) then
        failed ("Server responded with status: " +:+ pretty (status response))
      else
        match json response with
        | inl message => failed message
        | inr serverData => (Some (imap (quote_of_post now) (take 10 serverData)), st)
        end
  end.

(** [postQuotesToServer]: the request is issued; its outcome only decides
    the boolean returned, which no caller reads. *)
Definition postQuotesToServer (quotesToPost : list Quote) (timestamp : Z) (st : State) : State :=
  record_post (quotesToPost, timestamp) (updateSyncStatus "Posting to server..." "info" st).

(** [detectConflicts], reading the two keys from the store it is run in. *)
Definition detectConflicts (localQuotes serverQuotes : list Quote) (st : State) : Result Conflicts :=
  let lastSyncTime := getItem LAST_SYNC_TIME_KEY st in
  let previousServerQuotes := getItem SERVER_QUOTES_KEY st in
  if negb (truthy_item lastSyncTime) || negb (truthy_item previousServerQuotes) then
    Ok NoConflicts
  else
    match parse_or_throw (default EmptyString previousServerQuotes) with
    | Throw e => Throw e
    | Ok prevServerQuotes =>
        match get_length prevServerQuotes with
        | Throw e => Throw e
        | Ok prevLength =>
            let localModified := length_strict_neq (length localQuotes) prevLength in
            let serverModified :=
              negb (String.eqb (JSON_stringify (quotes_json serverQuotes))
                               (JSON_stringify prevServerQuotes)) in
            if localModified && serverModified then
              Ok (FoundConflicts
                    (mkConflictInfo (length localQuotes) (length serverQuotes) prevLength
                       localQuotes serverQuotes))
            else Ok NoConflicts
        end
    end.

Definition showConflictNotification (conflicts : ConflictInfo) (st : State) : State :=
  set_pendingConflicts (Some conflicts) st.

(** What the browser hands to one run of [syncWithServer]. *)
Record SyncIO : Type := mkSyncIO {
  fetched : FetchResult;       (* outcome of the GET *)
  fetchClock : nat -> Z;       (* [Date.now()] while the records are mapped *)
  postClock : Z;               (* [Date.now()] for the POST body *)
  syncClock : string           (* [new Date().toISOString()] *)
}.

(** [syncWithServer]: how the run completes, and the state it leaves; an
    exception leaves the state as it was when it was thrown. *)
Definition syncWithServer (io : SyncIO) (st : State) : Result unit * State :=
  let st := updateSyncStatus "Syncing..." "info" st in
  let '(fetchedQuotes, st) := fetchQuotesFromServer (fetched io) (fetchClock io) st in
  match fetchedQuotes with
  | None => (Ok tt, st)
  | Some serverQuotes =>
      let localQuotes := quotes st in
      let st := setItem SERVER_QUOTES_KEY (JSON_stringify (quotes_json serverQuotes)) st in
      match detectConflicts localQuotes serverQuotes st with
      | Throw e => (Throw e, st)
      | Ok (FoundConflicts conflicts) =>
          let st := showConflictNotification conflicts st in
          let st := updateSyncStatus "Conflicts detected" "warning" st in
          (Ok tt, st)
      | Ok NoConflicts =>
          let st := mergeQuotes serverQuotes false st in
          let st := postQuotesToServer (quotes st) (postClock io) st in
          let st := setItem LAST_SYNC_TIME_KEY (syncClock io) st in
          let st := updateSyncStatus "Synced successfully" "success" st in
          let st := showNotification "Successfully synced with server!" st in
          (Ok tt, st)
      end
  end.

(** [resolveConflict(useServerVersion)]; [now] is
    [new Date().toISOString()]. *)
Definition resolveConflict (useServerVersion : bool) (now : string) (st : State) : State :=
  match pendingConflicts st with
  | None => st
  | Some pending =>
      let st :=
        if useServerVersion then
          showNotification "Accepted server version. Local changes overwritten."
            (mergeQuotes (serverQuotes pending) true st)
        else
          showNotification "Kept local version. Server not updated." st in
      let st := setItem LAST_SYNC_TIME_KEY now st in
      let st := setItem SERVER_QUOTES_KEY (JSON_stringify (quotes_json (serverQuotes pending))) st in
      let st := set_pendingConflicts None st in
      updateSyncStatus "Conflict resolved" "success" st
  end.

(** ** Picking the quote to show *)

Module Picker.

(** The comparison in the loop is between object references: an element of
    the array is an object, with the identity [ref] it got when it was
    created and the members it holds. *)
Record Obj : Type := mkObj {
  ref : nat;
  members : Quote
}.

Record PickState : Type := mkPickState {
  quotes : list Obj;
  lastQuoteIndex : Z
}.

(** [a === b] for two array reads; [None] is [undefined]. *)
Definition strict_eq (a b : option Obj) : bool :=
  match a, b with
  | Some x, Some y => (ref x =? ref y)%nat
  | None, None => true
  | _, _ => false
  end.

(** [arr[i]] for an integer [i]. *)
Definition at_index (arr : list Obj) (i : Z) : option Obj :=
  if i <? 0 then None else arr !! Z.to_nat i.

(** [arr.indexOf(x)] *)
Fixpoint indexOf (arr : list Obj) (x : Obj) : Z :=
  match arr with
  | [] => -1
  | y :: r =>
      if (ref y =? ref x)%nat then 0
      else let i := indexOf r x in if i <? 0 then -1 else i + 1
  end.

(** A value of [Math.random()]: the fraction [num / (num + gap + 1)], which
    lies in the interval from 0 (included) to 1 (excluded). *)
Record Draw : Type := mkDraw {
  num : nat;
  gap : nat
}.

(** [Math.floor(d * n)] *)
Definition floor_times (d : Draw) (n : nat) : nat :=
  (num d * n / (num d + gap d + 1))%nat.

(** The [do ... while] loop over the values [Math.random] returns, in
    order; [None] when the values given run out with the loop still
    turning. *)
Fixpoint draw_index (draws : list Draw) (filteredQuotes : list Obj) (last : option Obj)
  : option nat :=
  match draws with
  | [] => None
  | d :: rest =>
      let randomIndex := floor_times d (length filteredQuotes) in
      if strict_eq (filteredQuotes !! randomIndex) last && (1 <? length filteredQuotes)%nat
      then draw_index rest filteredQuotes last
      else Some randomIndex
  end.

Definition filterBy (selectedCategory : string) (quotes : list Obj) : list Obj :=
  if String.eqb selectedCategory "all" then quotes
  else List.filter (fun q => String.eqb (category (members q)) selectedCategory) quotes.

Inductive Shown : Type :=
| NoQuotesAvailable                   (* the empty-category message *)
| Displayed (quote : option Obj).     (* the argument of [displayQuote] *)

Definition indexOf_read (arr : list Obj) (x : option Obj) : Z :=
  match x with
  | Some x => indexOf arr x
  | None => -1
  end.

(** [showRandomQuote]: what is shown and the state left; [None] is a loop
    that has not ended within [draws]. *)
Definition showRandomQuote (selectedCategory : string) (draws : list Draw) (st : PickState)
  : option (Shown * PickState) :=
  let filteredQuotes := filterBy selectedCategory (quotes st) in
  if (length filteredQuotes =? 0)%nat then Some (NoQuotesAvailable, st)
  else
    randomIndex ←
      (if (length filteredQuotes =? 1)%nat then Some O
       else draw_index draws filteredQuotes (at_index (quotes st) (lastQuoteIndex st)));
    let quote := filteredQuotes !! randomIndex in
    Some (Displayed quote, mkPickState (quotes st) (indexOf_read (quotes st) quote)).

(** Two objects with the same members, and a third one. *)
Definition twinA : Obj := mkObj 1 (plain "Know thyself." "Wisdom").
Definition twinB : Obj := mkObj 2 (plain "Know thyself." "Wisdom").
Definition other : Obj := mkObj 3 (plain "Less is more." "Design").

(** [twinA] was shown last. *)
Definition twinState : PickState := mkPickState [twinA; twinB; other] 0.

(** Draws 0.1, 0.2 and 0.5. *)
Definition sampleDraws : list Draw := [mkDraw 1 8; mkDraw 1 3; mkDraw 1 0].

End Picker.

(** ** Vocabulary of the statements *)

(** The keys of a collection, and the test the merge loops make against
    them. *)
Definition keysOf (Q : list Quote) : gset string := list_to_set (map quoteKey Q).

Definition absent (keys : gset string) (q : Quote) : bool :=
  negb (bool_decide (quoteKey q ∈ keys)).

(** What the filter of the import lets through. *)
Definition ValidElement (v : JSON) : Prop :=
  ∃ ms t c, v = JObj ms
            ∧ assoc "text" ms = Some (JStr t) ∧ assoc "category" ms = Some (JStr c)
            ∧ trim t ≠ EmptyString ∧ trim c ≠ EmptyString.

(** The quote kept for a valid element. *)
Definition KeptAs (v : JSON) (q : Quote) : Prop :=
  ∃ ms, v = JObj ms
        ∧ assoc "text" ms = Some (JStr (text q)) ∧ assoc "category" ms = Some (JStr (category q))
        ∧ trim (text q) ≠ EmptyString ∧ trim (category q) ≠ EmptyString.

(** The texts that can follow a serialised value: nothing, a comma, or a
    closing bracket or brace. *)
Definition delim (s : string) : bool :=
  match s with
  | EmptyString => true
  | String c _ => ((c =? ",")%char || (c =? "]")%char || (c =? "}")%char)%bool
  end.

Definition no_digit (s : string) : Prop :=
  match s with
  | EmptyString => True
  | String c _ => digit_of c = None
  end.

(** A bound on the fuel a value needs: one unit for the value and one for
    each element or member on the way to it. *)
Fixpoint weight (v : JSON) : nat :=
  match v with
  | JArr items => S (list_sum (map (fun x => S (weight x)) items))
  | JObj ms => S (list_sum (map (fun kv => S (weight (snd kv))) ms))
  | _ => 1
  end.

Definition elements_weight (items : list JSON) : nat :=
  list_sum (map (fun x => S (weight x)) items).

Definition members_weight (ms : list (string * JSON)) : nat :=
  list_sum (map (fun kv => S (weight (snd kv))) ms).

(** No object, at any depth, names a member twice. *)
Fixpoint wf (v : JSON) : Prop :=
  match v with
  | JArr items => fold_right (fun x P => wf x ∧ P) True items
  | JObj ms => NoDup (map fst ms) ∧ fold_right (fun kv P => wf (snd kv) ∧ P) True ms
  | _ => True
  end.

(** A quote whose object names no member twice. *)
Definition wf_quote (q : Quote) : Prop := wf (quote_json q).

Definition member_text (kv : string * JSON) : string :=
  quote_string (fst kv) +:+ ":" +:+ JSON_stringify (snd kv).

(** The first character of a serialised value starts a value. *)
Definition value_head (s : string) : Prop :=
  ∃ c r, s = String c r ∧ is_ws c = false
         ∧ (c =? "]")%char = false ∧ (c =? "}")%char = false.

(** ** Sample data *)

Definition emptyState : State :=
  mkState [] None ∅ (EmptyString, EmptyString) [] [] [].

(** Six records of the endpoint; a first sync saw five of them. *)
Definition samplePosts : list Post :=
  [ mkPost 1 1 "sunt aut facere repellat";
    mkPost 2 1 "qui est esse";
    mkPost 3 2 "ea molestias quasi";
    mkPost 4 2 "eum et est occaecati";
    mkPost 5 3 "nesciunt quas odio";
    mkPost 6 4 "dolorem eum magni eos" ].

(** The snapshot of the first sync (five quotes) and the one a later fetch
    returns (six quotes, built at a later time). *)
Definition R0 : list Quote :=
  imap (quote_of_post (fun _ => 1700000000000)) (take 5 samplePosts).
Definition R1 : list Quote :=
  imap (quote_of_post (fun _ => 1700000030000)) samplePosts.

(** The collection after the first sync and two quotes added by the user:
    seven quotes. *)
Definition local7 : list Quote :=
  R0 ++ [plain "Stay hungry." "Own"; plain "Stay foolish." "Own"].

Definition baselineState : State :=
  mkState local7 None
    (<[LAST_SYNC_TIME_KEY := "2023-11-14T22:13:20.000Z"]>
       (<[SERVER_QUOTES_KEY := JSON_stringify (quotes_json R0)]>
          (<[QUOTES_STORAGE_KEY := JSON_stringify (quotes_json local7)]> ∅)))
    ("Synced successfully", "success") [] [] [].

Definition secondSync : SyncIO :=
  mkSyncIO (Resolved (mkResponse true 200 (inr samplePosts)))
           (fun _ => 1700000030000) 1700000030500 "2023-11-14T22:13:50.000Z".

Definition failedSync : SyncIO :=
  mkSyncIO (Resolved (mkResponse false 503 (inr [])))
           (fun _ => 1700000030000) 1700000030500 "2023-11-14T22:13:50.000Z".

Definition sampleConflict : ConflictInfo :=
  mkConflictInfo 7 6 (Some (JInt 5)) local7 R1.

Definition conflictState : State := set_pendingConflicts (Some sampleConflict) baselineState.

(** The array of the import example: a valid quote, one with an empty text,
    and a string. *)
Definition sampleImport : JSON :=
  JArr [ JObj [("text", JStr "a"); ("category", JStr "b")];
         JObj [("text", JStr EmptyString); ("category", JStr "c")];
         JStr "not-an-object" ].

(** ** More of the platform *)

Definition LF : nat := 10.

(** The values of [new Set(items)] in the order [[...set]] lists them: each
    one once, at the place of its first occurrence. *)
Definition set_add (seen : list string) (x : string) : list string :=
  if bool_decide (x ∈ seen) then seen else seen ++ [x].

Definition set_of (items : list string) : list string := fold_left set_add items [].

(** The UTF-16 code units of UTF-8 text: one unit for a sequence of one,
    two or three bytes, and the two surrogates for a sequence of four (a
    character outside the basic plane).  A byte that starts no complete
    sequence, which UTF-8 text does not hold, stands for itself. *)
Definition low6 (c : ascii) : N := N.land (N_of_ascii c) 63.

Fixpoint code_units (s : string) : list N :=
  match s with
  | EmptyString => []
  | String a r =>
      let b := N_of_ascii a in
      if (b <? 192)%N then b :: code_units r
      else if (b <? 224)%N then
        match r with
        | String c1 r1 => ((b - 192) * 64 + low6 c1)%N :: code_units r1
        | _ => b :: code_units r
        end
      else if (b <? 240)%N then
        match r with
        | String c1 (String c2 r2) =>
            ((b - 224) * 4096 + low6 c1 * 64 + low6 c2)%N :: code_units r2
        | _ => b :: code_units r
        end
      else
        match r with
        | String c1 (String c2 (String c3 r3)) =>
            let point := ((b - 240) * 262144 + low6 c1 * 4096 + low6 c2 * 64 + low6 c3)%N in
            (55296 + (point - 65536) / 1024)%N :: (56320 + (point - 65536) mod 1024)%N
            :: code_units r3
        | _ => b :: code_units r
        end
  end.

(** [!(y < x)] for two strings: the comparison of [Array.prototype.sort]
    without a comparator, which goes through the code units from the left
    and lets a prefix come first. *)
Fixpoint units_le (x y : list N) : bool :=
  match x, y with
  | [], _ => true
  | _ :: _, [] => false
  | a :: x, b :: y => if (a <? b)%N then true else if (b <? a)%N then false else units_le x y
  end.

Definition sort_le (a b : string) : Prop := units_le (code_units a) (code_units b) = true.

#[export] Instance sort_le_dec : RelDecision sort_le.
Proof. intros a b. unfold sort_le. apply _. Defined.

(** [arr.sort()] on strings: ascending by code units.  Strings that are
    pairwise different have one such arrangement, whatever algorithm the
    engine runs. *)
Definition sort (arr : list string) : list string := merge_sort sort_le arr.

(** [s.split(c)[0]] *)
Fixpoint before (c : ascii) (s : string) : string :=
  match s with
  | EmptyString => EmptyString
  | String a r => if (a =? c)%char then EmptyString else String a (before c r)
  end.

Fixpoint spaces (n : nat) : string :=
  match n with
  | O => EmptyString
  | S k => String " " (spaces k)
  end.

Fixpoint join_lines (l : list string) : string :=
  match l with
  | [] => EmptyString
  | [x] => x
  | x :: r => x +:+ "," +:+ str1 LF +:+ join_lines r
  end.

(** [JSON.stringify(v, null, 2)] for a value printed at depth [indent / 2]:
    every element and member on a line of its own, two more spaces in. *)
Fixpoint JSON_stringify_indent (indent : nat) (v : JSON) : string :=
  match v with
  | JArr items =>
      match items with
      | [] => "[]"
      | _ =>
          "[" +:+ str1 LF
          +:+ join_lines
                (map (fun x => spaces (indent + 2) +:+ JSON_stringify_indent (indent + 2) x)
                     items)
          +:+ str1 LF +:+ spaces indent +:+ "]"
      end
  | JObj members =>
      match members with
      | [] => "{}"
      | _ =>
          "{" +:+ str1 LF
          +:+ join_lines
                (map (fun kv => spaces (indent + 2) +:+ quote_string (fst kv) +:+ ": "
                                +:+ JSON_stringify_indent (indent + 2) (snd kv))
                     members)
          +:+ str1 LF +:+ spaces indent +:+ "}"
      end
  | _ => JSON_stringify v
  end.

(** [String(v)], as a template literal applies it to a parsed value, throws
    for an object that has a member named [toString] (the member hides the
    method of the prototype and is not callable, and [valueOf] returns the
    object itself), and for an array one of whose elements, [null] apart,
    it throws for ([join] converts each element). *)
Fixpoint toString_throws (v : JSON) : bool :=
  match v with
  | JObj members => existsb (fun kv => String.eqb (fst kv) "toString") members
  | JArr items =>
      existsb (fun x => match x with JNull => false | _ => toString_throws x end) items
  | _ => false
  end.

(** [`${x}`] for a property read [x]; [None] is [undefined]. *)
Definition template_throws (x : option JSON) : bool :=
  match x with
  | Some v => toString_throws v
  | None => false
  end.

(** ** The page around the collection *)

Module Page.

Definition LAST_CATEGORY_KEY : string := "lastSelectedCategory".
Definition AUTO_SYNC_ENABLED_KEY : string := "autoSyncEnabled".
Definition LAST_QUOTE_KEY : string := "lastViewedQuote".

(** The [<select id="categoryFilter">]: the values of its options, in
    order, and the value it reads as. *)
Record Select : Type := mkSelect {
  value : string;
  options : list string
}.

(** [select.value = v] selects the first option of that value; with no such
    option nothing is selected and the element reads as the empty string. *)
Definition setValue (v : string) (select : Select) : Select :=
  mkSelect (if bool_decide (v ∈ options select) then v else EmptyString) (options select).

(** What [quoteDisplay] holds. *)
Inductive QuoteDisplay : Type :=
| EmptyCategory                (* 'No quotes available in this category. Add some!' *)
| Cleared                      (* [innerHTML = ''] and nothing appended *)
| QuoteShown (quote : JSON).   (* the two paragraphs made from [quote.text] and [quote.category] *)

(** The numbers and the category the stats line is written from. *)
Inductive StatsLine : Type :=
| Totals (total categoryCount : nat)
| Showing (filteredCount total : nat) (selectedCategory : string) (categoryCount : nat).

Inductive LastSync : Type :=
| Never
| LocaleOf (iso : string).     (* [new Date(iso).toLocaleString()] *)

Inductive ServerCount : Type :=
| Zero                                (* the text '0' *)
| LengthRead (count : option JSON).   (* [textContent = count] *)

(** The state of the page: the state of the store and sync functions
    ([core]), the other module-level variables, [sessionStorage], the
    elements the functions below write to, the dialogs and downloads they
    caused, the interval timers that are running and the number of calls of
    [syncWithServer] that have run up to their first [await]. *)
Record App : Type := mkApp {
  core : State;
  lastQuoteIndex : Z;
  autoSyncInterval : option positive;
  sessionStorage : gmap string string;
  categoryFilter : Select;
  quoteDisplay : QuoteDisplay;
  stats : StatsLine;
  lastSyncElement : LastSync;
  serverCountElement : ServerCount;
  toggleLabel : string;
  dialogs : list string;
  downloads : list (string * string);
  liveTimers : list positive;
  syncsBegun : nat
}.

Definition set_core (x : State) (app : App) : App :=
  mkApp x (lastQuoteIndex app) (autoSyncInterval app) (sessionStorage app)
        (categoryFilter app) (quoteDisplay app) (stats app)
        (lastSyncElement app) (serverCountElement app) (toggleLabel app)
        (dialogs app) (downloads app) (liveTimers app) (syncsBegun app).

Definition set_lastQuoteIndex (x : Z) (app : App) : App :=
  mkApp (core app) x (autoSyncInterval app) (sessionStorage app)
        (categoryFilter app) (quoteDisplay app) (stats app)
        (lastSyncElement app) (serverCountElement app) (toggleLabel app)
        (dialogs app) (downloads app) (liveTimers app) (syncsBegun app).

Definition set_autoSyncInterval (x : option positive) (app : App) : App :=
  mkApp (core app) (lastQuoteIndex app) x (sessionStorage app)
        (categoryFilter app) (quoteDisplay app) (stats app)
        (lastSyncElement app) (serverCountElement app) (toggleLabel app)
        (dialogs app) (downloads app) (liveTimers app) (syncsBegun app).

Definition set_sessionStorage (x : gmap string string) (app : App) : App :=
  mkApp (core app) (lastQuoteIndex app) (autoSyncInterval app) x
        (categoryFilter app) (quoteDisplay app) (stats app)
        (lastSyncElement app) (serverCountElement app) (toggleLabel app)
        (dialogs app) (downloads app) (liveTimers app) (syncsBegun app).

Definition set_categoryFilter (x : Select) (app : App) : App :=
  mkApp (core app) (lastQuoteIndex app) (autoSyncInterval app)
        (sessionStorage app) x (quoteDisplay app) (stats app)
        (lastSyncElement app) (serverCountElement app) (toggleLabel app)
        (dialogs app) (downloads app) (liveTimers app) (syncsBegun app).

Definition set_quoteDisplay (x : QuoteDisplay) (app : App) : App :=
  mkApp (core app) (lastQuoteIndex app) (autoSyncInterval app)
        (sessionStorage app) (categoryFilter app) x (stats app)
        (lastSyncElement app) (serverCountElement app) (toggleLabel app)
        (dialogs app) (downloads app) (liveTimers app) (syncsBegun app).

Definition set_stats (x : StatsLine) (app : App) : App :=
  mkApp (core app) (lastQuoteIndex app) (autoSyncInterval app)
        (sessionStorage app) (categoryFilter app) (quoteDisplay app) x
        (lastSyncElement app) (serverCountElement app) (toggleLabel app)
        (dialogs app) (downloads app) (liveTimers app) (syncsBegun app).

Definition set_lastSyncElement (x : LastSync) (app : App) : App :=
  mkApp (core app) (lastQuoteIndex app) (autoSyncInterval app)
        (sessionStorage app) (categoryFilter app) (quoteDisplay app)
        (stats app) x (serverCountElement app) (toggleLabel app) (dialogs app)
        (downloads app) (liveTimers app) (syncsBegun app).

Definition set_serverCountElement (x : ServerCount) (app : App) : App :=
  mkApp (core app) (lastQuoteIndex app) (autoSyncInterval app)
        (sessionStorage app) (categoryFilter app) (quoteDisplay app)
        (stats app) (lastSyncElement app) x (toggleLabel app) (dialogs app)
        (downloads app) (liveTimers app) (syncsBegun app).

Definition set_toggleLabel (x : string) (app : App) : App :=
  mkApp (core app) (lastQuoteIndex app) (autoSyncInterval app)
        (sessionStorage app) (categoryFilter app) (quoteDisplay app)
        (stats app) (lastSyncElement app) (serverCountElement app) x
        (dialogs app) (downloads app) (liveTimers app) (syncsBegun app).

Definition set_dialogs (x : list string) (app : App) : App :=
  mkApp (core app) (lastQuoteIndex app) (autoSyncInterval app)
        (sessionStorage app) (categoryFilter app) (quoteDisplay app)
        (stats app) (lastSyncElement app) (serverCountElement app)
        (toggleLabel app) x (downloads app) (liveTimers app) (syncsBegun app).

Definition set_downloads (x : list (string * string)) (app : App) : App :=
  mkApp (core app) (lastQuoteIndex app) (autoSyncInterval app)
        (sessionStorage app) (categoryFilter app) (quoteDisplay app)
        (stats app) (lastSyncElement app) (serverCountElement app)
        (toggleLabel app) (dialogs app) x (liveTimers app) (syncsBegun app).

Definition set_liveTimers (x : list positive) (app : App) : App :=
  mkApp (core app) (lastQuoteIndex app) (autoSyncInterval app)
        (sessionStorage app) (categoryFilter app) (quoteDisplay app)
        (stats app) (lastSyncElement app) (serverCountElement app)
        (toggleLabel app) (dialogs app) (downloads app) x (syncsBegun app).

Definition set_syncsBegun (x : nat) (app : App) : App :=
  mkApp (core app) (lastQuoteIndex app) (autoSyncInterval app)
        (sessionStorage app) (categoryFilter app) (quoteDisplay app)
        (stats app) (lastSyncElement app) (serverCountElement app)
        (toggleLabel app) (dialogs app) (downloads app) (liveTimers app) x.

Definition onCore (f : State -> State) (app : App) : App := set_core (f (core app)) app.

(** How a function of the page ends: it returns, an exception leaves it
    (with the state as it is then), or the loop of [showRandomQuote] has not
    ended within the draws given. *)
Inductive Run (A : Type) : Type :=
| Done (a : A)
| Raised (e : Exn) (app : App)
| Spinning.
Arguments Done {A} a.
Arguments Raised {A} e app.
Arguments Spinning {A}.

#[export] Instance Run_bind : MBind Run := fun A B f r =>
  match r with
  | Done a => f a
  | Raised e app => Raised e app
  | Spinning => Spinning
  end.

(** *** Categories and statistics *)

Definition categoriesOf (quotes : list Quote) : list string := set_of (map category quotes).

Definition populateCategories (app : App) : App :=
  let currentValue := value (categoryFilter app) in
  let categories := sort (categoriesOf (quotes (core app))) in
  let rebuilt := mkSelect "all" ("all" :: categories) in
  set_categoryFilter
    (if bool_decide (currentValue ∈ options rebuilt) then setValue currentValue rebuilt
     else setValue "all" rebuilt)
    app.

Definition updateStats (app : App) : App :=
  let categoryCount := length (categoriesOf (quotes (core app))) in
  set_stats (Totals (length (quotes (core app))) categoryCount) app.

Definition updateFilteredStats (selectedCategory : string) (app : App) : App :=
  let categoryCount := length (categoriesOf (quotes (core app))) in
  if String.eqb selectedCategory "all" then
    set_stats (Totals (length (quotes (core app))) categoryCount) app
  else
    let filteredCount :=
      length (List.filter (fun q => String.eqb (category q) selectedCategory) (quotes (core app))) in
    set_stats (Showing filteredCount (length (quotes (core app))) selectedCategory categoryCount) app.

Definition saveLastSelectedCategory (category : string) (app : App) : App :=
  onCore (setItem LAST_CATEGORY_KEY category) app.


(** *** Showing a quote *)

(** The objects of [quotes]: each element was created on its own (by an
    object literal, by [JSON.parse] or by the mapping of the fetch) and
    pushed once, so the position of an element is its identity. *)
Definition objects (quotes : list Quote) : list Picker.Obj := imap Picker.mkObj quotes.

(** [displayQuote(quote)]: the display is cleared, then [quote.text] and
    [quote.category] are read and put into template literals, and the two
    paragraphs are appended.  The read throws on [undefined] and [null], the
    template literal on a value whose conversion to a string throws. *)
Definition displayQuote (quote : option JSON) (app : App) : Result unit * App :=
  match quote with
  | None | Some JNull => (Throw TypeError, set_quoteDisplay Cleared app)
  | Some quote =>
      if template_throws (get quote "text") || template_throws (get quote "category")
      then (Throw TypeError, set_quoteDisplay Cleared app)
      else (Ok tt, set_quoteDisplay (QuoteShown quote) app)
  end.

Definition saveLastQuote (quote : option Picker.Obj) (app : App) : App :=
  match quote with
  | None => app
  | Some quote =>
      set_sessionStorage
        (<[LAST_QUOTE_KEY := JSON_stringify (quote_json (Picker.members quote))]>
           (sessionStorage app))
        app
  end.

Definition showRandomQuote (draws : list Picker.Draw) (app : App) : Run App :=
  let selectedCategory := value (categoryFilter app) in
  match Picker.showRandomQuote selectedCategory draws
          (Picker.mkPickState (objects (quotes (core app))) (lastQuoteIndex app)) with
  | None => Spinning
  | Some (Picker.NoQuotesAvailable, _) => Done (set_quoteDisplay EmptyCategory app)
  | Some (Picker.Displayed quote, picked) =>
      let app := set_lastQuoteIndex (Picker.lastQuoteIndex picked) app in
      match displayQuote (quote_json ∘ Picker.members <$> quote) app with
      | (Throw error, app) => Raised error app
      | (Ok _, app) => Done (saveLastQuote quote app)
      end
  end.

(** [restoreLastQuote]: what it returns, and the page it leaves. *)
Definition restoreLastQuote (app : App) : bool * App :=
  let lastQuoteData := sessionStorage app !! LAST_QUOTE_KEY in
  if truthy_item lastQuoteData then
    match parse_or_throw (default EmptyString lastQuoteData) with
    | Throw error => (false, app)
    | Ok quote =>
        match displayQuote (Some quote) app with
        | (Throw error, app) => (false, app)
        | (Ok _, app) => (true, app)
        end
    end
  else (false, app).

Definition filterQuotes (draws : list Picker.Draw) (app : App) : Run App :=
  let selectedCategory := value (categoryFilter app) in
  let app := saveLastSelectedCategory selectedCategory app in
  app ← showRandomQuote draws app;
  Done (updateFilteredStats selectedCategory app).

(** *** The sync status display *)

Definition updateSyncStatusDisplay (app : App) : Run App :=
  let lastSyncTime := getItem LAST_SYNC_TIME_KEY (core app) in
  let serverQuotes := getItem SERVER_QUOTES_KEY (core app) in
  let app :=
    set_lastSyncElement
      (if truthy_item lastSyncTime then LocaleOf (default EmptyString lastSyncTime) else Never)
      app in
  if truthy_item serverQuotes then
    match parse_or_throw (default EmptyString serverQuotes) with
    | Throw e => Raised e app
    | Ok parsed =>
        match get_length parsed with
        | Throw e => Raised e app
        | Ok count => Done (set_serverCountElement (LengthRead count) app)
        end
    end
  else Done (set_serverCountElement Zero app).

(** *** Import, sync and conflict resolution with the refresh of the page
    that ends them *)

(** [importFromJsonFile]: the refresh is inside the [try] block. *)
Definition importFromJsonFile (file : option File) (shouldReplace : bool)
    (draws : list Picker.Draw) (app : App) : Run App :=
  match file with
  | None => Done app
  | Some file =>
      if negb (endsWith (name file) ".json") then Done (onCore (alert PleaseSelectJson) app)
      else
        match contents file with
        | None => Done (onCore (alert ErrorReadingFile) app)
        | Some result =>
            match import_try result shouldReplace (core app) with
            | Throw error => Done (onCore (alert (ErrorImporting error)) app)
            | Ok st =>
                match showRandomQuote draws (updateStats (populateCategories (set_core st app))) with
                | Done app => Done app
                | Raised error app => Done (onCore (alert (ErrorImporting error)) app)
                | Spinning => Spinning
                end
            end
        end
  end.

Definition syncWithServer (io : SyncIO) (draws : list Picker.Draw) (app : App) : Run App :=
  let st := updateSyncStatus "Syncing..." "info" (core app) in
  let '(fetchedQuotes, st) := fetchQuotesFromServer (fetched io) (fetchClock io) st in
  match fetchedQuotes with
  | None => Done (set_core st app)
  | Some serverQuotes =>
      let localQuotes := quotes st in
      let st := setItem SERVER_QUOTES_KEY (JSON_stringify (quotes_json serverQuotes)) st in
      match detectConflicts localQuotes serverQuotes st with
      | Throw e => Raised e (set_core st app)
      | Ok (FoundConflicts conflicts) =>
          let st := showConflictNotification conflicts st in
          let st := updateSyncStatus "Conflicts detected" "warning" st in
          Done (set_core st app)
      | Ok NoConflicts =>
          let st := mergeQuotes serverQuotes false st in
          let st := postQuotesToServer (quotes st) (postClock io) st in
          let st := setItem LAST_SYNC_TIME_KEY (syncClock io) st in
          let st := updateSyncStatus "Synced successfully" "success" st in
          app ← updateSyncStatusDisplay (set_core st app);
          let app := onCore (showNotification "Successfully synced with server!") app in
          showRandomQuote draws (updateStats (populateCategories app))
      end
  end.

Definition resolveConflict (useServerVersion : bool) (now : string)
    (draws : list Picker.Draw) (app : App) : Run App :=
  match pendingConflicts (core app) with
  | None => Done app
  | Some _ =>
      app ← updateSyncStatusDisplay (onCore (resolveConflict useServerVersion now) app);
      showRandomQuote draws (updateStats (populateCategories app))
  end.

(** *** Adding and exporting *)

Definition alert (message : string) (app : App) : App :=
  set_dialogs (dialogs app ++ [message]) app.

Definition addQuote (quoteText quoteCategory : string) (draws : list Picker.Draw) (app : App)
  : Run App :=
  let newText := trim quoteText in
  let newCategory := trim quoteCategory in
  if String.eqb newText EmptyString || String.eqb newCategory EmptyString then
    Done (alert "Please fill in both the quote text and category!" app)
  else
    let existingCategories := categoriesOf (quotes (core app)) in
    let isNewCategory := negb (bool_decide (newCategory ∈ existingCategories)) in
    let newQuote := plain newText newCategory in
    let app := onCore (fun st => saveQuotes (set_quotes (quotes st ++ [newQuote]) st)) app in
    let app := populateCategories app in
    let app := updateStats app in
    let app :=
      onCore
        (showNotification
           (if isNewCategory
            then "Quote added with new category " +:+ str1 DQUOTE +:+ newCategory
                 +:+ str1 DQUOTE +:+ "!"
            else "Quote added successfully!"))
        app in
    let app := set_lastQuoteIndex (-1) app in
    let app := set_categoryFilter (setValue newCategory (categoryFilter app)) app in
    let app := saveLastSelectedCategory newCategory app in
    app ← showRandomQuote draws app;
    Done (updateFilteredStats newCategory app).

(** [exportToJsonFile]; [now] is [new Date().toISOString()]. *)
Definition exportToJsonFile (now : string) (app : App) : App :=
  if (length (quotes (core app)) =? 0)%nat then alert "No quotes to export!" app
  else
    let jsonString := JSON_stringify_indent 0 (quotes_json (quotes (core app))) in
    let fileName := "quotes-backup-" +:+ before "T" now +:+ ".json" in
    onCore (showNotification "Quotes exported successfully!")
      (set_downloads (downloads app ++ [(fileName, jsonString)]) app).

(** *** Automatic sync *)

(** A call of [syncWithServer] that nothing awaits: the statements up to
    the first [await] (in [fetchQuotesFromServer]) run, and the GET request
    is on its way when the caller goes on. *)
Definition syncWithServer_begin (app : App) : App :=
  set_syncsBegun (S (syncsBegun app))
    (onCore (fun st => updateSyncStatus "Fetching from server..." "info"
                         (updateSyncStatus "Syncing..." "info" st)) app).

(** [timer] is the identifier [setInterval] returns. *)
Definition startAutoSync (timer : positive) (app : App) : App :=
  match autoSyncInterval app with
  | Some _ => app
  | None =>
      let app := syncWithServer_begin app in
      let app := set_liveTimers (liveTimers app ++ [timer]) app in
      let app := set_autoSyncInterval (Some timer) app in
      onCore (setItem AUTO_SYNC_ENABLED_KEY "true") app
  end.

Definition stopAutoSync (app : App) : App :=
  match autoSyncInterval app with
  | Some timer =>
      let app := set_liveTimers (List.filter (fun t => negb (Pos.eqb t timer)) (liveTimers app)) app in
      let app := set_autoSyncInterval None app in
      onCore (setItem AUTO_SYNC_ENABLED_KEY "false") app
  | None => app
  end.

Definition toggleAutoSync (timer : positive) (app : App) : App :=
  let isEnabled := bool_decide (autoSyncInterval app ≠ None) in
  if isEnabled then
    onCore (showNotification "Auto-sync disabled")
      (set_toggleLabel "Enable Auto-Sync" (stopAutoSync app))
  else
    onCore (showNotification "Auto-sync enabled (every 30 seconds)")
      (set_toggleLabel "Disable Auto-Sync" (startAutoSync timer app)).

(** The callback given to [setInterval], when the timer [timer] fires. *)
Definition intervalFires (timer : positive) (app : App) : App :=
  if bool_decide (timer ∈ liveTimers app) then syncWithServer_begin app else app.

Definition initializeSyncSystem (timer : positive) (app : App) : Run App :=
  let autoSyncEnabled := bool_decide (getItem AUTO_SYNC_ENABLED_KEY (core app) = Some "true") in
  let app :=
    if autoSyncEnabled then set_toggleLabel "Disable Auto-Sync" (startAutoSync timer app)
    else app in
  updateSyncStatusDisplay app.

(** *** The listeners of the page *)

(** What [init] and [createAddQuoteForm] register, with what the browser
    supplies to each run.  A run of [syncWithServer], started by the button
    or by the timer, is taken from its call to its end, with no other
    listener in between. *)
Inductive Event : Type :=
| ClickNewQuote (draws : list Picker.Draw)
| ChangeCategory (chosen : string) (draws : list Picker.Draw)
| ClickAddQuote (quoteText quoteCategory : string) (draws : list Picker.Draw)
| ClickExport (now : string)
| ChooseFile (file : option File) (shouldReplace : bool) (draws : list Picker.Draw)
| SyncCycle (io : SyncIO) (draws : list Picker.Draw)
| ClickToggleAutoSync (timer : positive)
| ClickResolve (useServerVersion : bool) (now : string) (draws : list Picker.Draw).

Definition handle (event : Event) (app : App) : Run App :=
  match event with
  | ClickNewQuote draws => showRandomQuote draws app
  | ChangeCategory chosen draws =>
      (* the browser selects the option picked, then calls the listener *)
      if bool_decide (chosen ∈ options (categoryFilter app)) then
        filterQuotes draws (set_categoryFilter (setValue chosen (categoryFilter app)) app)
      else Done app
  | ClickAddQuote quoteText quoteCategory draws => addQuote quoteText quoteCategory draws app
  | ClickExport now => Done (exportToJsonFile now app)
  | ChooseFile file shouldReplace draws => importFromJsonFile file shouldReplace draws app
  | SyncCycle io draws => syncWithServer io draws app
  | ClickToggleAutoSync timer => Done (toggleAutoSync timer app)
  | ClickResolve useServerVersion now draws => resolveConflict useServerVersion now draws app
  end.

Fixpoint handleAll (events : list Event) (app : App) : Run App :=
  match events with
  | [] => Done app
  | event :: rest => app ← handle event app; handleAll rest app
  end.

End Page.

(** ** Vocabulary of the statements on the page *)

(** The line of an element and of a member in the indented text. *)
Definition element_line (indent : nat) (x : JSON) : string :=
  spaces (indent + 2) +:+ JSON_stringify_indent (indent + 2) x.

Definition member_line (indent : nat) (kv : string * JSON) : string :=
  spaces (indent + 2) +:+ quote_string (fst kv) +:+ ": "
  +:+ JSON_stringify_indent (indent + 2) (snd kv).

(** What can follow a value in the indented text: nothing, a comma, a
    closing bracket or brace, or a line feed. *)
Definition sep (s : string) : bool :=
  match s with
  | EmptyString => true
  | String c _ =>
      ((c =? ",")%char || (c =? "]")%char || (c =? "}")%char || (code c =? LF)%nat)%bool
  end.

(** A quote the import filter lets through: neither its text nor its
    category is blank. *)
Definition filled (q : Quote) : Prop :=
  trim (text q) ≠ EmptyString ∧ trim (category q) ≠ EmptyString.

#[export] Instance filled_dec (q : Quote) : Decision (filled q).
Proof. unfold filled. apply _. Defined.

(** A value whose numbers are all integers of magnitude at most [2^53]:
    the numbers this embedding keeps as the script does.  The script holds
    a number as a double, which has every such integer exactly and which
    [JSON.stringify] writes in plain digits; a literal with a fraction or
    an exponent, or a longer integer, can come back from the script as
    another text, or as [null]. *)
Fixpoint exact (v : JSON) : bool :=
  match v with
  | JNum m e => (e =? 0) && (Z.abs m <=? 2 ^ 53)
  | JArr items => forallb exact items
  | JObj members => forallb (fun kv => exact (snd kv)) members
  | _ => true
  end.

Definition exact_quote (q : Quote) : Prop := exact (quote_json q) = true.

(** The stored copy is the collection. *)
Definition stored (st : State) : Prop :=
  localStorage st !! QUOTES_STORAGE_KEY = Some (JSON_stringify (quotes_json (quotes st))).

(** A state whose collection is stored, and whose quotes (those of a
    pending conflict included) name no member twice. *)
Definition sound (st : State) : Prop :=
  Forall wf_quote (quotes st)
  ∧ stored st
  ∧ ∀ pending, pendingConflicts st = Some pending → Forall wf_quote (serverQuotes pending).

(** The numbers of the collection, and of a pending conflict, are exact. *)
Definition exact_state (st : State) : Prop :=
  Forall exact_quote (quotes st)
  ∧ ∀ pending, pendingConflicts st = Some pending → Forall exact_quote (serverQuotes pending).

(** What the browser hands to a listener holds exact numbers only: the
    value a chosen file parses to, and the ids of the records and the
    clock readings of a sync cycle. *)
Definition exact_event (event : Page.Event) : Prop :=
  match event with
  | Page.ChooseFile (Some file) _ _ =>
      ∀ result parsed,
        contents file = Some result → JSON_parse result = Some parsed → exact parsed = true
  | Page.SyncCycle io _ =>
      (∀ i, Z.abs (fetchClock io i) ≤ 2 ^ 53)
      ∧ ∀ response serverData,
          fetched io = Resolved response → json response = inr serverData →
          Forall (fun post => Z.abs (id post) ≤ 2 ^ 53) serverData
  | _ => True
  end.

(** ** Sample pages *)

(** A page just loaded around the state [st]: nothing selected but [all],
    nothing shown, no timer. *)
Definition pageOf (st : State) : Page.App :=
  Page.mkApp st (-1) None ∅ (Page.mkSelect "all" ["all"]) Page.Cleared (Page.Totals 0 0)
    Page.Never Page.Zero "Enable Auto-Sync" [] [] [] 0.

(** Three quotes in two categories, stored. *)
Definition threeQuotes : list Quote :=
  [plain "Know thyself." "Wisdom"; plain "Less is more." "Design";
   plain "Festina lente." "Wisdom"].

Definition threeState : State := saveQuotes (set_quotes threeQuotes emptyState).

(** The number of quotes a stats line announces. *)
Definition announced (line : Page.StatsLine) : nat :=
  match line with
  | Page.Totals total _ => total
  | Page.Showing filteredCount _ _ _ => filteredCount
  end.

(** The timer, the variable that holds it and the stored preference agree:
    one live timer, held in [autoSyncInterval], with the preference [true];
    or no timer at all, with a preference other than [true]. *)
Definition scheduled (app : Page.App) : Prop :=
  match Page.autoSyncInterval app with
  | Some timer =>
      Page.liveTimers app = [timer]
      ∧ getItem Page.AUTO_SYNC_ENABLED_KEY (Page.core app) = Some "true"
  | None =>
      Page.liveTimers app = []
      ∧ getItem Page.AUTO_SYNC_ENABLED_KEY (Page.core app) ≠ Some "true"
  end.

(** The page a run has left, when it has ended. *)
Definition outcome (run : Page.Run Page.App) (otherwise : Page.App) : Page.App :=
  match run with
  | Page.Done app => app
  | _ => otherwise
  end.

(** The page of the three quotes after a click on the button, with 0 drawn,
    and after a second click, with 0 and then 1/3 drawn. *)
Definition firstShown : Page.App :=
  outcome (Page.showRandomQuote [Picker.mkDraw 0 0] (pageOf threeState)) (pageOf threeState).

Definition secondShown : Page.App :=
  outcome (Page.showRandomQuote [Picker.mkDraw 0 0; Picker.mkDraw 1 1] firstShown) firstShown.

(** The same page after a click with 1/2 drawn. *)
Definition middleShown : Page.App :=
  outcome (Page.showRandomQuote [Picker.mkDraw 1 0] (pageOf threeState)) (pageOf threeState).

(** The same page after a sync cycle that fetched the six sample records. *)
Definition syncedPage : Page.App :=
  outcome (Page.syncWithServer secondSync [Picker.mkDraw 1 0] (pageOf threeState))
    (pageOf threeState).

(** The page of the sample conflict after the server version was accepted. *)
Definition resolvedPage : Page.App :=
  outcome (Page.resolveConflict true "2023-11-14T22:14:00.000Z" [Picker.mkDraw 1 0]
             (pageOf conflictState))
    (pageOf conflictState).

(** A file to import: one quote, which carries a number. *)
Definition sampleFile : File :=
  mkFile "more.json"
    (Some (JSON_stringify
             (JArr [JObj [("text", JStr "Dum spiro spero."); ("category", JStr "Motto");
                          ("year", JInt 1776)]]))).

(** A visit: a quote is added, a sync cycle runs, a file is imported with
    "merge", a category is chosen and the automatic sync is switched on. *)
Definition sampleVisit : list Page.Event :=
  [ Page.ClickAddQuote " Carpe diem. " "Motto" [Picker.mkDraw 1 0];
    Page.SyncCycle secondSync [Picker.mkDraw 1 0];
    Page.ChooseFile (Some sampleFile) false [Picker.mkDraw 1 0];
    Page.ChangeCategory "Wisdom" [Picker.mkDraw 1 0];
    Page.ClickToggleAutoSync 7 ].

Definition visitedPage : Page.App :=
  outcome (Page.handleAll sampleVisit (pageOf threeState)) (pageOf threeState).

(** * Properties *)

(** ** [JSON.parse] after [JSON.stringify] *)

Module JsonFacts.

Lemma sapp_cons (x : ascii) (a b : string) : String x a +:+ b = String x (a +:+ b).
Proof. reflexivity. Qed.

Lemma sapp_assoc (a b c : string) : (a +:+ b) +:+ c = a +:+ (b +:+ c).
Proof. induction a as [|x a IH]; [done|]. rewrite !sapp_cons. by f_equal. Qed.

Lemma slength_app (a b : string) : String.length (a +:+ b) = (String.length a + String.length b)%nat.
Proof. induction a as [|x a IH]; [done|]. rewrite sapp_cons. simpl. by f_equal. Qed.

(** *** Strings *)

Lemma parse_escape_char (c : ascii) (tail : string) :
  parse_string_body (escape_char c +:+ tail)
  = ('(t, rest) ← parse_string_body tail; Some (String c t, rest)).
Proof.
  destruct c as [[] [] [] [] [] [] [] []]; reflexivity.
Qed.

Lemma parse_escape_string (s rest : string) :
  parse_string_body (escape_string s +:+ String (chr DQUOTE) rest) = Some (s, rest).
Proof.
  induction s as [|c s IH]; [reflexivity|].
  simpl escape_string. rewrite sapp_assoc, parse_escape_char, IH. reflexivity.
Qed.

Lemma quote_string_app (s rest : string) :
  quote_string s +:+ rest = String (chr DQUOTE) (escape_string s +:+ String (chr DQUOTE) rest).
Proof.
  unfold quote_string. rewrite !sapp_assoc. reflexivity.
Qed.

(** *** Numbers *)

Lemma delim_cases (s : string) :
  delim s = true →
  s = EmptyString ∨ ∃ r, s = String "," r ∨ s = String "]" r ∨ s = String "}" r.
Proof.
  destruct s as [|c r]; [by left|]. simpl. intros H. right. exists r.
  apply orb_prop in H as [H|H]; [apply orb_prop in H as [H|H]|];
    apply Ascii.eqb_eq in H; subst; auto.
Qed.

Ltac delim_split H :=
  apply delim_cases in H as [->|[? [->|[->| ->]]]].

Lemma digit_of_pretty_char (d : N) :
  (d < 10)%N → digit_of (pretty_N_char d) = Some (Z.of_N d).
Proof.
  intros H. destruct d as [|p]; [reflexivity|].
  do 4 (try destruct p as [p|p|]; try (exfalso; lia); try reflexivity).
Qed.

Lemma read_pretty_go (x : N) :
  (0 < x)%N → ∀ s acc cnt,
  ∃ k, read_digits acc cnt (pretty_N_go x s)
       = read_digits (acc * 10 ^ Z.of_nat (S k) + Z.of_N x) (cnt + S k) s.
Proof.
  induction (N.lt_wf_0 x) as [x _ IH]. intros Hx s acc cnt.
  rewrite pretty_N_go_step by done.
  assert (Hd : (x `mod` 10 < 10)%N) by (apply N.mod_lt; lia).
  destruct (decide (x `div` 10 = 0)%N) as [E|E].
  - rewrite E, pretty_N_go_0. exists O. simpl read_digits.
    rewrite digit_of_pretty_char by done.
    assert (x = x `mod` 10)%N as <-.
    { rewrite (N.div_mod x 10) at 1 by lia. rewrite E. lia. }
    change (10 ^ Z.of_nat 1) with 10. f_equal. clear. lia.
  - destruct (IH (x `div` 10)%N) with (s := String (pretty_N_char (x `mod` 10)) s)
      (acc := acc) (cnt := cnt) as [k Hk].
    { apply N.div_lt; lia. } { by apply N.neq_0_lt_0. }
    exists (S k). rewrite Hk. simpl read_digits.
    rewrite digit_of_pretty_char by done.
    f_equal; [|clear; lia].
    rewrite (N.div_mod x 10) at 3 by lia.
    rewrite (Nat2Z.inj_succ (S k)), Z.pow_succ_r by lia.
    generalize (10 ^ Z.of_nat (S k)). intros p.
    rewrite N2Z.inj_add, N2Z.inj_mul. generalize (Z.of_N (x `div` 10)) (Z.of_N (x `mod` 10)).
    clear. intros. change (Z.of_N 10) with 10. lia.
Qed.

Lemma pretty_go_head (x : N) :
  (0 < x)%N → ∀ s, ∃ d r, pretty_N_go x s = String (pretty_N_char d) r ∧ (0 < d < 10)%N.
Proof.
  induction (N.lt_wf_0 x) as [x _ IH]. intros Hx s.
  rewrite pretty_N_go_step by done.
  destruct (decide (x `div` 10 = 0)%N) as [E|E].
  - rewrite E, pretty_N_go_0. eexists _, _. split; [reflexivity|].
    assert (x = x `mod` 10)%N as <-.
    { rewrite (N.div_mod x 10) at 1 by lia. rewrite E. lia. }
    split; [done|]. apply N.div_small_iff in E; lia.
  - apply IH; [apply N.div_lt; lia|by apply N.neq_0_lt_0].
Qed.

Lemma pretty_go_app (x : N) (s t : string) :
  pretty_N_go x s +:+ t = pretty_N_go x (s +:+ t).
Proof.
  revert s. induction (N.lt_wf_0 x) as [x _ IH]. intros s.
  destruct (decide (x = 0)%N) as [->|E]; [by rewrite !pretty_N_go_0|].
  rewrite (pretty_N_go_step x s), (pretty_N_go_step x (s +:+ t)) by lia.
  rewrite IH by (apply N.div_lt; lia). reflexivity.
Qed.

(** The decimal text of a natural number, followed by [rest]. *)
Lemma pretty_N_app (x : N) (rest : string) :
  pretty x +:+ rest = if decide (x = 0)%N then String "0" rest else pretty_N_go x rest.
Proof.
  unfold pretty, pretty_N. destruct (decide (x = 0)%N); [reflexivity|].
  rewrite pretty_go_app. reflexivity.
Qed.

(** A digit from 0 to 9. *)
Ltac digit_cases d :=
  destruct d as [|d]; [|do 4 (try destruct d as [d|d|]; try (exfalso; lia))].

(** The text of a natural number starts with a digit and is read back by
    [read_digits]. *)
Lemma pretty_N_digits (x : N) (rest : string) :
  ∃ d r, pretty x +:+ rest = String (pretty_N_char d) r
         ∧ (d < 10)%N ∧ (d = 0%N → x = 0%N ∧ r = rest)
         ∧ ∀ acc cnt, ∃ k, read_digits acc cnt (pretty x +:+ rest)
              = read_digits (acc * 10 ^ Z.of_nat (S k) + Z.of_N x) (cnt + S k) rest.
Proof.
  rewrite pretty_N_app. destruct (decide (x = 0)%N) as [->|E].
  - exists 0%N, rest. split; [reflexivity|]. split; [lia|]. split; [done|].
    intros acc cnt. exists O. simpl read_digits. change (10 ^ Z.of_nat 1) with 10.
    f_equal; clear; lia.
  - destruct (pretty_go_head x) with (s := rest) as (d & r & Hr & Hd); [lia|].
    exists d, r. split; [done|]. split; [lia|]. split; [lia|].
    intros acc cnt. apply read_pretty_go. lia.
Qed.

Lemma read_digits_no_digit (acc : Z) (cnt : nat) (s : string) :
  no_digit s → read_digits acc cnt s = (acc, cnt, s).
Proof. destruct s as [|c r]; [done|]. simpl. by intros ->. Qed.

Lemma parse_int_pretty (x : N) (rest : string) :
  no_digit rest → parse_int_part (pretty x +:+ rest) = Some (Z.of_N x, rest).
Proof.
  intros Hrest.
  destruct (pretty_N_digits x rest) as (d & r & Hr & Hd & H0 & Hread).
  destruct (Hread 0 O) as [k Hk]. rewrite Hr in *.
  simpl read_digits in Hk. rewrite digit_of_pretty_char in Hk by done.
  rewrite (read_digits_no_digit _ _ rest) in Hk by done.
  unfold parse_int_part. rewrite digit_of_pretty_char by done.
  destruct d as [|p].
  - destruct H0 as [-> ->]; done.
  - change (Z.of_N (N.pos p)) with (Z.pos p) in *. cbv iota.
    change (0 * 10 + Z.pos p) with (Z.pos p) in Hk. rewrite Hk.
    replace (0 * 10 ^ Z.of_nat (S k) + Z.of_N x) with (Z.of_N x) by (clear; lia).
    reflexivity.
Qed.

Lemma read_exp_pretty (x : N) (rest : string) :
  no_digit rest → ∃ k, read_digits 0 0 (pretty x +:+ rest) = (Z.of_N x, S k, rest).
Proof.
  intros Hrest. destruct (pretty_N_digits x rest) as (d & r & Hr & Hd & H0 & Hread).
  destruct (Hread 0 O) as [k Hk]. exists k. rewrite Hk.
  rewrite read_digits_no_digit by done.
  replace (0 * 10 ^ Z.of_nat (S k) + Z.of_N x) with (Z.of_N x) by (clear; lia).
  reflexivity.
Qed.

Lemma pretty_N_head_plain (x : N) (tail : string) :
  ∃ c r, pretty x +:+ tail = String c r
         ∧ (c =? "-")%char = false ∧ (c =? "+")%char = false.
Proof.
  destruct (pretty_N_digits x tail) as (d & r & Hr & Hd & _).
  exists (pretty_N_char d), r. split; [done|].
  clear Hr. digit_cases d; split; reflexivity.
Qed.

Lemma sign_pretty (m : Z) (tail : string) :
  match pretty m +:+ tail with
  | String c r => if (c =? "-")%char then (true, r) else (false, pretty m +:+ tail)
  | EmptyString => (false, pretty m +:+ tail)
  end = (m <? 0, pretty (Z.abs_N m) +:+ tail).
Proof.
  destruct m as [|p|p]; [reflexivity| |reflexivity].
  change (pretty (Z.pos p)) with (pretty (N.pos p)).
  change (Z.abs_N (Z.pos p)) with (N.pos p).
  destruct (pretty_N_head_plain (N.pos p) tail) as (c & r & Hr & Hm & _).
  rewrite Hr, Hm. reflexivity.
Qed.

Lemma exp_sign_pretty (e : Z) (rest : string) :
  match pretty e +:+ rest with
  | String c1 r1 =>
      if (c1 =? "-")%char then (true, r1)
      else if (c1 =? "+")%char then (false, r1) else (false, pretty e +:+ rest)
  | EmptyString => (false, pretty e +:+ rest)
  end = (e <? 0, pretty (Z.abs_N e) +:+ rest).
Proof.
  destruct e as [|p|p]; [reflexivity| |reflexivity].
  change (pretty (Z.pos p)) with (pretty (N.pos p)).
  change (Z.abs_N (Z.pos p)) with (N.pos p).
  destruct (pretty_N_head_plain (N.pos p) rest) as (c & r & Hr & Hm & Hp).
  rewrite Hr, Hm, Hp. reflexivity.
Qed.

Lemma delim_no_digit (s : string) : delim s = true → no_digit s.
Proof. intros H. delim_split H; done. Qed.

Lemma signed_abs (m : Z) : (if m <? 0 then - Z.of_N (Z.abs_N m) else Z.of_N (Z.abs_N m)) = m.
Proof. destruct m; reflexivity. Qed.

Lemma parse_frac_delim (m : Z) (s : string) :
  delim s = true → parse_frac_part m s = Some (m, 0, s).
Proof. intros H. delim_split H; reflexivity. Qed.

Lemma parse_exp_delim (s : string) :
  delim s = true → parse_exp_part s = Some (0, s).
Proof. intros H. delim_split H; reflexivity. Qed.

Lemma parse_number_roundtrip (m e : Z) (rest : string) :
  delim rest = true →
  parse_number (number_to_string m e +:+ rest) = Some (JNum m e, rest).
Proof.
  intros Hrest. unfold number_to_string, parse_number.
  destruct (Z.eqb_spec e 0) as [->|He].
  - rewrite sign_pretty, parse_int_pretty by by apply delim_no_digit.
    simpl. rewrite parse_frac_delim by done. simpl.
    rewrite parse_exp_delim by done. simpl. by rewrite signed_abs.
  - rewrite !sapp_assoc. rewrite sign_pretty.
    change ("e" +:+ pretty e +:+ rest) with (String "e" (pretty e +:+ rest)).
    rewrite parse_int_pretty by done.
    simpl. rewrite signed_abs.
    unfold parse_exp_part. simpl. rewrite exp_sign_pretty.
    destruct (read_exp_pretty (Z.abs_N e) rest) as [k Hk]; [by apply delim_no_digit|].
    rewrite Hk. simpl. by rewrite signed_abs.
Qed.

(** *** Values *)

Lemma weight_pos (v : JSON) : (1 ≤ weight v)%nat.
Proof. destruct v; simpl; lia. Qed.

Lemma parse_value_string_eq (fuel : nat) (X : string) :
  parse_value (S fuel) (String (chr DQUOTE) X)
  = ('(t, r') ← parse_string_body X; Some (JStr t, r')).
Proof. reflexivity. Qed.

Lemma parse_value_array_eq (fuel : nat) (X : string) :
  parse_value (S fuel) (String "[" X)
  = match skip_ws X with
    | String c1 r1 =>
        if (c1 =? "]")%char then Some (JArr [], r1)
        else '(l, r') ← parse_elements fuel X; Some (JArr l, r')
    | EmptyString => None
    end.
Proof. reflexivity. Qed.

Lemma parse_value_object_eq (fuel : nat) (X : string) :
  parse_value (S fuel) (String "{" X)
  = match skip_ws X with
    | String c1 r1 =>
        if (c1 =? "}")%char then Some (JObj [], r1)
        else '(ms, r') ← parse_members fuel X; Some (object_of ms, r')
    | EmptyString => None
    end.
Proof. reflexivity. Qed.

Lemma parse_elements_eq (fuel : nat) (s : string) :
  parse_elements (S fuel) s
  = ('(v, r) ← parse_value fuel s;
     match skip_ws r with
     | String c r1 =>
         if (c =? ",")%char then '(l, r') ← parse_elements fuel r1; Some (v :: l, r')
         else if (c =? "]")%char then Some ([v], r1)
         else None
     | EmptyString => None
     end).
Proof. reflexivity. Qed.

Lemma parse_members_eq (fuel : nat) (X : string) :
  parse_members (S fuel) (String (chr DQUOTE) X)
  = ('(k, r1) ← parse_string_body X;
     match skip_ws r1 with
     | String c r2 =>
         if (c =? ":")%char then
           '(v, r3) ← parse_value fuel r2;
           match skip_ws r3 with
           | String c' r4 =>
               if (c' =? ",")%char then
                 '(ms, r') ← parse_members fuel r4; Some ((k, v) :: ms, r')
               else if (c' =? "}")%char then Some ([(k, v)], r4)
               else None
           | EmptyString => None
           end
         else None
     | EmptyString => None
     end).
Proof. reflexivity. Qed.

Lemma skip_ws_value_head (s : string) : value_head s → skip_ws s = s.
Proof. intros (c & r & -> & Hws & _). simpl. by rewrite Hws. Qed.

Lemma number_head (m e : Z) (rest : string) :
  ∃ c r, number_to_string m e +:+ rest = String c r
         ∧ ((c = "-"%char) ∨ ∃ d, (d < 10)%N ∧ c = pretty_N_char d).
Proof.
  assert (H : ∀ tail, ∃ c r, pretty m +:+ tail = String c r
            ∧ ((c = "-"%char) ∨ ∃ d, (d < 10)%N ∧ c = pretty_N_char d)).
  { intros tail. destruct m as [|p|p].
    - eexists _, _. split; [reflexivity|]. right. by exists 0%N.
    - change (pretty (Z.pos p)) with (pretty (N.pos p)).
      destruct (pretty_N_digits (N.pos p) tail) as (d & r & Hr & Hd & _).
      eexists _, _. split; [exact Hr|]. right. by exists d.
    - eexists _, _. split; [reflexivity|]. by left. }
  unfold number_to_string. destruct (e =? 0); [apply H|].
  rewrite sapp_assoc. apply H.
Qed.

Lemma parse_value_number (fuel : nat) (m e : Z) (rest : string) :
  parse_value (S fuel) (number_to_string m e +:+ rest)
  = parse_number (number_to_string m e +:+ rest).
Proof.
  destruct (number_head m e rest) as (c & r & -> & [->|(d & Hd & ->)]); [reflexivity|].
  digit_cases d; reflexivity.
Qed.

Lemma stringify_head (v : JSON) (rest : string) : value_head (JSON_stringify v +:+ rest).
Proof.
  destruct v as [|[]|m e|s|items|ms]; simpl JSON_stringify.
  - by eexists _, _.
  - by eexists _, _.
  - by eexists _, _.
  - destruct (number_head m e rest) as (c & r & -> & [->|(d & Hd & ->)]).
    + by eexists _, _.
    + eexists _, _. split; [reflexivity|]. digit_cases d; done.
  - rewrite quote_string_app. by eexists _, _.
  - rewrite !sapp_assoc. by eexists _, _.
  - rewrite !sapp_assoc. by eexists _, _.
Qed.

Lemma join_comma_cons (x : string) (l : list string) (tail : string) :
  join_comma (x :: l) +:+ tail
  = x +:+ match l with
          | [] => tail
          | _ :: _ => String "," (join_comma l +:+ tail)
          end.
Proof. destruct l; [reflexivity|]. simpl join_comma. by rewrite !sapp_assoc. Qed.

Lemma elements_bound (items : list JSON) (n : nat) :
  (elements_weight items ≤ n)%nat →
  fold_right (fun x P => wf x ∧ P) True items →
  Forall (fun x => (weight x ≤ n)%nat ∧ wf x) items.
Proof.
  unfold elements_weight. induction items as [|x items IH]; simpl; [constructor|].
  intros Hn [Hx Hr]. constructor; [split; [lia|done]|]. apply IH; [lia|done].
Qed.

Lemma members_bound (ms : list (string * JSON)) (n : nat) :
  (members_weight ms ≤ n)%nat →
  fold_right (fun kv P => wf (snd kv) ∧ P) True ms →
  Forall (fun kv => (weight (snd kv) ≤ n)%nat ∧ wf (snd kv)) ms.
Proof.
  unfold members_weight. induction ms as [|x ms IH]; simpl; [constructor|].
  intros Hn [Hx Hr]. constructor; [split; [lia|done]|]. apply IH; [lia|done].
Qed.

(** Parsing members in order is transparent when no name repeats. *)
Lemma object_of_NoDup (ms : list (string * JSON)) :
  NoDup (map fst ms) → object_of ms = JObj ms.
Proof.
  unfold object_of. intros Hnd. f_equal.
  assert (H : ∀ acc, NoDup (map fst (acc ++ ms)) →
            fold_left (fun acc kv => set_member (fst kv) (snd kv) acc) ms acc = acc ++ ms).
  { clear Hnd. induction ms as [|[k v] ms IH]; intros acc Hnd; simpl.
    - by rewrite app_nil_r.
    - assert (Hset : set_member k v acc = acc ++ [(k, v)]).
      { assert (Hk : k ∉ map fst acc).
        { rewrite map_app in Hnd. apply NoDup_app in Hnd as (_ & Hd & _).
          intros Hin. apply (Hd k Hin). simpl. apply list_elem_of_here. }
        clear -Hk. induction acc as [|[k' v'] acc IH]; simpl; [done|].
        simpl in Hk. apply not_elem_of_cons in Hk as [Hne Hk].
        destruct (String.eqb_spec k k') as [->|_]; [done|]. by rewrite IH. }
      rewrite Hset, IH; rewrite <- app_assoc; done. }
  by apply (H []).
Qed.

Section Values.

Variable n : nat.
Hypothesis IHn : ∀ v, (weight v ≤ n)%nat → ∀ fuel rest,
  wf v → (weight v ≤ fuel)%nat → delim rest = true →
  parse_value fuel (JSON_stringify v +:+ rest) = Some (v, rest).

Lemma parse_elements_roundtrip (items : list JSON) :
  items ≠ [] →
  Forall (fun x => (weight x ≤ n)%nat ∧ wf x) items →
  ∀ fuel rest, (elements_weight items ≤ fuel)%nat →
  parse_elements fuel (join_comma (map JSON_stringify items) +:+ String "]" rest)
  = Some (items, rest).
Proof.
  unfold elements_weight.
  induction items as [|x items IH]; [done|]. intros _ Hall fuel rest Hfuel.
  apply Forall_cons in Hall as [[Hx Hwf] Hall]. simpl in Hfuel.
  destruct fuel as [|fuel]; [lia|].
  rewrite parse_elements_eq. simpl map. rewrite join_comma_cons.
  destruct items as [|y items].
  - rewrite IHn by (done || lia). reflexivity.
  - rewrite IHn by (done || lia). simpl.
    change (JSON_stringify y :: map JSON_stringify items)
      with (map JSON_stringify (y :: items)).
    rewrite IH; [done|done|done|]. simpl in *. lia.
Qed.

Lemma parse_members_roundtrip (ms : list (string * JSON)) :
  ms ≠ [] →
  Forall (fun kv => (weight (snd kv) ≤ n)%nat ∧ wf (snd kv)) ms →
  ∀ fuel rest, (members_weight ms ≤ fuel)%nat →
  parse_members fuel (join_comma (map member_text ms) +:+ String "}" rest)
  = Some (ms, rest).
Proof.
  unfold members_weight.
  induction ms as [|[k v] ms IH]; [done|]. intros _ Hall fuel rest Hfuel.
  apply Forall_cons in Hall as [[Hx Hwf] Hall]. simpl in Hfuel, Hx, Hwf.
  destruct fuel as [|fuel]; [lia|].
  simpl map. rewrite join_comma_cons. unfold member_text at 1. simpl fst. simpl snd.
  rewrite !sapp_assoc, quote_string_app, parse_members_eq, parse_escape_string.
  change (":" +:+ ?x) with (String ":" x).
  destruct ms as [|y ms].
  - simpl. rewrite IHn by (done || lia). reflexivity.
  - simpl. rewrite IHn by (done || lia). simpl.
    change (member_text y :: map member_text ms) with (map member_text (y :: ms)).
    rewrite IH; [done|done|done|]. simpl in *. lia.
Qed.

End Values.

Lemma parse_value_roundtrip (n : nat) :
  ∀ v, (weight v ≤ n)%nat → ∀ fuel rest,
  wf v → (weight v ≤ fuel)%nat → delim rest = true →
  parse_value fuel (JSON_stringify v +:+ rest) = Some (v, rest).
Proof.
  induction n as [|n IH]; intros v Hn fuel rest Hwf Hfuel Hrest.
  { pose proof (weight_pos v). lia. }
  destruct fuel as [|fuel]; [pose proof (weight_pos v); lia|].
  destruct v as [|[]|m e|s|items|ms]; simpl JSON_stringify.
  - reflexivity.
  - reflexivity.
  - reflexivity.
  - rewrite parse_value_number. by apply parse_number_roundtrip.
  - rewrite quote_string_app, parse_value_string_eq, parse_escape_string. reflexivity.
  - rewrite !sapp_assoc. change ("[" +:+ ?x) with (String "[" x).
    change ("]" +:+ rest) with (String "]" rest).
    rewrite parse_value_array_eq.
    destruct items as [|x items]; [reflexivity|].
    simpl in Hn, Hfuel, Hwf.
    assert (Hh : value_head (join_comma (map JSON_stringify (x :: items)) +:+ String "]" rest)).
    { simpl map. rewrite join_comma_cons. apply stringify_head. }
    rewrite (skip_ws_value_head _ Hh).
    destruct Hh as (c & r & Hr & _ & Hc & _). rewrite Hr at 1. rewrite Hc.
    rewrite (parse_elements_roundtrip n IH); [reflexivity|done| |unfold elements_weight; simpl; lia].
    apply elements_bound; [unfold elements_weight; simpl; lia|done].
  - rewrite !sapp_assoc. change ("{" +:+ ?x) with (String "{" x).
    change ("}" +:+ rest) with (String "}" rest).
    rewrite parse_value_object_eq.
    change (map (λ kv, quote_string kv.1 +:+ ":" +:+ JSON_stringify kv.2) ms)
      with (map member_text ms).
    destruct ms as [|x ms]; [reflexivity|].
    destruct Hwf as [Hnd Hwf]. simpl in Hn, Hfuel.
    assert (Hh : value_head (join_comma (map member_text (x :: ms)) +:+ String "}" rest)).
    { simpl map. rewrite join_comma_cons. unfold member_text at 1.
      rewrite !sapp_assoc, quote_string_app. by eexists _, _. }
    rewrite (skip_ws_value_head _ Hh).
    destruct Hh as (c & r & Hr & _ & _ & Hc). rewrite Hr at 1. rewrite Hc.
    rewrite (parse_members_roundtrip n IH); [|done| |unfold members_weight; simpl; lia].
    + simpl. by rewrite object_of_NoDup.
    + apply members_bound; [unfold members_weight; simpl; lia|done].
Qed.

Lemma sapp_nil_r (s : string) : s +:+ EmptyString = s.
Proof. induction s as [|c s IH]; [done|]. rewrite sapp_cons. by f_equal. Qed.

Lemma pretty_Z_length (m : Z) : (1 ≤ String.length (pretty m))%nat.
Proof.
  destruct m as [|p|p]; [simpl; lia| |simpl; lia].
  change (pretty (Z.pos p)) with (pretty (N.pos p)).
  destruct (pretty_N_digits (N.pos p) EmptyString) as (d & r & Hr & _).
  rewrite sapp_nil_r in Hr. rewrite Hr. simpl. lia.
Qed.

Lemma join_comma_length (l : list string) :
  (list_sum (map (fun x => S (String.length x)) l) ≤ S (String.length (join_comma l)))%nat.
Proof.
  induction l as [|x l IH]; [simpl; lia|].
  destruct l as [|y l]; [simpl; lia|].
  change (join_comma (x :: y :: l)) with (x +:+ "," +:+ join_comma (y :: l)).
  rewrite !slength_app. change (String.length ",") with 1%nat.
  remember (y :: l) as L. simpl. lia.
Qed.

Lemma weight_le_length (n : nat) :
  ∀ v, (weight v ≤ n)%nat → (weight v ≤ String.length (JSON_stringify v))%nat.
Proof.
  induction n as [|n IH]; intros v Hn.
  { pose proof (weight_pos v). lia. }
  destruct v as [|[]|m e|s|items|ms]; simpl JSON_stringify; simpl weight.
  - simpl. lia.
  - simpl. lia.
  - simpl. lia.
  - unfold number_to_string. destruct (e =? 0); rewrite ?slength_app;
      pose proof (pretty_Z_length m); lia.
  - unfold quote_string. rewrite !slength_app. simpl. lia.
  - rewrite !slength_app. simpl String.length.
    pose proof (join_comma_length (map JSON_stringify items)) as Hj.
    assert (Hs : (list_sum (map (fun x => S (weight x)) items)
                  ≤ list_sum (map (fun x => S (String.length x)) (map JSON_stringify items)))%nat).
    { simpl in Hn. assert (Hb : (list_sum (map (fun x => S (weight x)) items) ≤ n)%nat) by lia.
      clear -IH Hb. induction items as [|x items IHi]; simpl in *; [lia|].
      pose proof (IH x ltac:(lia)). specialize (IHi ltac:(lia)). lia. }
    lia.
  - rewrite !slength_app. simpl String.length.
    pose proof (join_comma_length
                  (map (λ kv, quote_string kv.1 +:+ ":" +:+ JSON_stringify kv.2) ms)) as Hj.
    assert (Hs : (list_sum (map (fun kv => S (weight (snd kv))) ms)
                  ≤ list_sum (map (fun x => S (String.length x))
                       (map (λ kv, quote_string kv.1 +:+ ":" +:+ JSON_stringify kv.2) ms)))%nat).
    { simpl in Hn. assert (Hb : (list_sum (map (fun kv => S (weight (snd kv))) ms) ≤ n)%nat) by lia.
      clear -IH Hb. induction ms as [|x ms IHi]; simpl in *; [lia|].
      pose proof (IH (snd x) ltac:(lia)). specialize (IHi ltac:(lia)).
      rewrite !slength_app. lia. }
    lia.
Qed.

(** [JSON.parse] reads back what [JSON.stringify] wrote, for every value in
    which no object names a member twice. *)
Theorem JSON_parse_stringify (v : JSON) : wf v → JSON_parse (JSON_stringify v) = Some v.
Proof.
  intros Hwf. unfold JSON_parse.
  rewrite <- (sapp_nil_r (JSON_stringify v)) at 2.
  rewrite (parse_value_roundtrip (weight v)); [reflexivity|done|done| |done].
  pose proof (weight_le_length (weight v) v ltac:(done)). lia.
Qed.

End JsonFacts.

(** ** Merging *)

Section Merge.

Implicit Types (st : State) (q : Quote) (S Q : list Quote) (keys : gset string).

(** The loop appends, in order, the input quotes whose key the set built
    before the loop does not hold. *)
Lemma merge_loop keys S Q :
  fold_left
    (fun quotes serverQuote =>
       let key := quoteKey serverQuote in
       if bool_decide (key ∈ keys) then quotes else quotes ++ [serverQuote]) S Q
  = Q ++ List.filter (absent keys) S.
Proof.
  revert Q. induction S as [|q S IH]; intros Q; simpl.
  - by rewrite app_nil_r.
  - rewrite IH.
    assert (Ha : absent keys q = negb (bool_decide (quoteKey q ∈ keys))) by done.
    rewrite Ha. destruct (bool_decide _); simpl; [done|].
    by rewrite <- app_assoc.
Qed.

Lemma import_loop keys S Q n :
  fold_left
    (fun '(quotes, addedCount) quote =>
       let key := quoteKey quote in
       if bool_decide (key ∈ keys) then (quotes, addedCount)
       else (quotes ++ [quote], Datatypes.S addedCount)) S (Q, n)
  = (Q ++ List.filter (absent keys) S, (n + length (List.filter (absent keys) S))%nat).
Proof.
  revert Q n. induction S as [|q S IH]; intros Q n; simpl.
  - by rewrite app_nil_r, Nat.add_0_r.
  - assert (Ha : absent keys q = negb (bool_decide (quoteKey q ∈ keys))) by done.
    rewrite Ha. destruct (bool_decide _); simpl; rewrite IH; [done|].
    rewrite <- app_assoc. simpl. f_equal. lia.
Qed.

Lemma mergeQuotes_quotes S st :
  quotes (mergeQuotes S false st) = quotes st ++ List.filter (absent (keysOf (quotes st))) S.
Proof. unfold mergeQuotes. simpl. apply merge_loop. Qed.

Lemma mergeQuotes_unfold S st :
  mergeQuotes S false st
  = saveQuotes (set_quotes (quotes st ++ List.filter (absent (keysOf (quotes st))) S) st).
Proof. unfold mergeQuotes. cbv zeta. by rewrite merge_loop. Qed.

Lemma import_merge_quotes S Q :
  import_merge S Q
  = (Q ++ List.filter (absent (keysOf Q)) S, length (List.filter (absent (keysOf Q)) S)).
Proof. unfold import_merge. by rewrite import_loop. Qed.

(** The import's merge and the sync's merge build the same collection. *)
Lemma import_merge_mergeQuotes S st :
  fst (import_merge S (quotes st)) = quotes (mergeQuotes S false st).
Proof. by rewrite import_merge_quotes, mergeQuotes_quotes. Qed.

Lemma elem_of_keysOf k Q : k ∈ keysOf Q ↔ ∃ q, q ∈ Q ∧ quoteKey q = k.
Proof.
  unfold keysOf. rewrite elem_of_list_to_set, list_elem_of_fmap.
  split; intros (q & H1 & H2); exists q; auto.
Qed.

Lemma absent_false_of_elem q Q : q ∈ Q → absent (keysOf Q) q = false.
Proof.
  intros Hq. unfold absent. rewrite bool_decide_eq_true_2; [done|].
  apply elem_of_keysOf. eauto.
Qed.

Lemma quotePair_quoteKey q1 q2 : quotePair q1 = quotePair q2 → quoteKey q1 = quoteKey q2.
Proof. unfold quotePair, quoteKey. by intros [= -> ->]. Qed.

Lemma NoDup_map_filter {A B} (f : A → B) (p : A → bool) (l : list A) :
  NoDup (map f l) → NoDup (map f (List.filter p l)).
Proof.
  induction l as [|a l IH]; simpl; [done|].
  rewrite NoDup_cons. intros [Hnotin Hnd].
  destruct (p a); simpl; [|by apply IH].
  apply NoDup_cons. split; [|by apply IH].
  rewrite list_elem_of_fmap. intros (b & Hb & Hin). apply Hnotin.
  rewrite list_elem_of_fmap. exists b. split; [done|].
  apply list_elem_of_In, filter_In in Hin. apply list_elem_of_In. tauto.
Qed.

(** Appending the quotes whose key is absent keeps the pairs of the
    collection distinct, as long as the appended quotes do not repeat a pair
    among themselves. *)
Lemma merged_pairs_NoDup S Q :
  NoDup (map quotePair Q) → NoDup (map quotePair S) →
  NoDup (map quotePair (Q ++ List.filter (absent (keysOf Q)) S)).
Proof.
  intros HQ HS. rewrite map_app. apply NoDup_app. split; [done|]. split.
  - intros pr. rewrite !list_elem_of_fmap. intros (q & Hq & Hin) (q' & Hq' & Hin').
    apply list_elem_of_In, filter_In in Hin'. destruct Hin' as [_ Habs].
    unfold absent in Habs. apply negb_true_iff, bool_decide_eq_false in Habs.
    apply Habs, elem_of_keysOf. exists q. split; [done|].
    apply quotePair_quoteKey. congruence.
  - by apply NoDup_map_filter.
Qed.

(** Once merged, every quote of the input has its key in the collection. *)
Lemma merged_absent_nil S Q :
  List.filter (absent (keysOf (Q ++ List.filter (absent (keysOf Q)) S))) S = [].
Proof.
  set (Q' := Q ++ _).
  assert (H : ∀ q, q ∈ S → absent (keysOf Q') q = false).
  { intros q Hq. destruct (absent (keysOf Q) q) eqn:E.
    - apply absent_false_of_elem. unfold Q'. apply elem_of_app. right.
      apply list_elem_of_In, filter_In. split; [by apply list_elem_of_In|done].
    - unfold absent in *. apply negb_false_iff, bool_decide_eq_true in E.
      apply negb_false_iff, bool_decide_eq_true.
      apply elem_of_keysOf in E as (q0 & Hq0 & Hk). apply elem_of_keysOf.
      exists q0. split; [|done]. unfold Q'. apply elem_of_app. by left. }
  clearbody Q'. induction S as [|q S IH]; simpl; [done|].
  rewrite (H q) by apply list_elem_of_here.
  apply IH. intros q' Hq'. apply H. by apply list_elem_of_further.
Qed.

End Merge.

(** C3 at the input on which the code breaks it: the key set is built
    before the loop and is not extended by it, so an input that holds the
    same quote twice, new to the collection, is appended twice, by the
    sync's merge and by the import's, although both set out to skip
    duplicates. *)
Lemma merge_keeps_repeated_input :
  NoDup (map quotePair (quotes emptyState))
  ∧ ¬ NoDup (map quotePair (quotes (mergeQuotes [plain "a" "b"; plain "a" "b"] false emptyState)))
  ∧ ¬ NoDup (map quotePair (fst (import_merge [plain "a" "b"; plain "a" "b"] (quotes emptyState)))).
Proof.
  split; [constructor|].
  rewrite import_merge_mergeQuotes, mergeQuotes_quotes.
  assert (H : ¬ NoDup (map quotePair
                (quotes emptyState
                 ++ List.filter (absent (keysOf (quotes emptyState))) [plain "a" "b"; plain "a" "b"]))).
  { vm_compute. intros Hm. apply NoDup_cons in Hm as [Hm _]. apply Hm. constructor. }
  by split.
Qed.

(** When the invariant of C3 does hold: from a collection with
    pairwise-distinct (text, category) pairs, both merges give such a
    collection exactly when the input quotes that are new to the collection
    are pairwise distinct; a quote the collection already holds may occur
    in the input any number of times. *)
Lemma merge_pairs_distinct_iff (st : State) (S : list Quote) :
  NoDup (map quotePair (quotes st)) →
  (NoDup (map quotePair (quotes (mergeQuotes S false st)))
   ↔ NoDup (map quotePair (List.filter (absent (keysOf (quotes st))) S)))
  ∧ (NoDup (map quotePair (fst (import_merge S (quotes st))))
     ↔ NoDup (map quotePair (List.filter (absent (keysOf (quotes st))) S))).
Proof.
  intros HQ. rewrite import_merge_mergeQuotes, mergeQuotes_quotes.
  assert (H : NoDup (map quotePair (quotes st ++ List.filter (absent (keysOf (quotes st))) S))
              ↔ NoDup (map quotePair (List.filter (absent (keysOf (quotes st))) S))).
  { rewrite map_app, NoDup_app. split; [tauto|]. intros Hnew.
    split; [done|]. split; [|done].
    intros pr. rewrite !list_elem_of_fmap. intros (q & Hq & Hin) (q' & Hq' & Hin').
    apply list_elem_of_In, filter_In in Hin'. destruct Hin' as [_ Habs].
    unfold absent in Habs. apply negb_true_iff, bool_decide_eq_false in Habs.
    apply Habs, elem_of_keysOf. exists q. split; [done|].
    apply quotePair_quoteKey. congruence. }
  by split.
Qed.

(** C4: merging the same snapshot a second time changes nothing, neither in
    the collection nor in what is stored. *)
Theorem mergeQuotes_idempotent (st : State) (S : list Quote) :
  mergeQuotes S false (mergeQuotes S false st) = mergeQuotes S false st.
Proof.
  rewrite (mergeQuotes_unfold S (mergeQuotes S false st)).
  rewrite mergeQuotes_quotes, merged_absent_nil, app_nil_r.
  rewrite mergeQuotes_unfold.
  unfold saveQuotes, set_quotes, set_localStorage, save. simpl.
  f_equal. apply insert_insert_eq.
Qed.

(** C10: the merges compare keys, not pairs.  A quote whose key equals the
    key of a quote of the collection is taken for a duplicate and is not
    appended, by either merge, and two quotes with different
    (text, category) pairs can have the same key: [a|b] / [c] and
    [a] / [b|c] both have the key [a|b|c]. *)
Theorem merge_key_collision (st : State) (q1 q2 : Quote) :
  q1 ∈ quotes st →
  quoteKey q1 = quoteKey q2 →
  (quotes (mergeQuotes [q2] false st) = quotes st
   ∧ import_merge [q2] (quotes st) = (quotes st, O))
  ∧ quotePair (plain "a|b" "c") ≠ quotePair (plain "a" "b|c")
  ∧ quoteKey (plain "a|b" "c") = quoteKey (plain "a" "b|c").
Proof.
  intros Hin Hkey.
  assert (Ha : absent (keysOf (quotes st)) q2 = false).
  { unfold absent. rewrite bool_decide_eq_true_2; [done|].
    apply elem_of_keysOf. by exists q1. }
  split; [|split; [vm_compute; congruence|vm_compute; reflexivity]].
  rewrite import_merge_quotes, mergeQuotes_quotes. simpl. rewrite Ha. simpl.
  by rewrite app_nil_r.
Qed.

(** C10 at the sample pair: with [a|b] / [c] in the collection, [a] / [b|c]
    is not appended. *)
Lemma merge_key_collision_witness :
  (plain "a|b" "c" ∈ quotes (set_quotes [plain "a|b" "c"] emptyState)
   ∧ quoteKey (plain "a|b" "c") = quoteKey (plain "a" "b|c"))
  ∧ quotes (mergeQuotes [plain "a" "b|c"] false (set_quotes [plain "a|b" "c"] emptyState))
    = [plain "a|b" "c"]
  ∧ import_merge [plain "a" "b|c"] [plain "a|b" "c"] = ([plain "a|b" "c"], O).
Proof.
  assert (H1 : plain "a|b" "c" ∈ quotes (set_quotes [plain "a|b" "c"] emptyState))
    by (simpl; apply list_elem_of_here).
  assert (H2 : quoteKey (plain "a|b" "c") = quoteKey (plain "a" "b|c"))
    by (vm_compute; reflexivity).
  split; [by split|].
  exact (proj1 (merge_key_collision _ _ _ H1 H2)).
Defined.

(** ** Conflict resolution *)

(** C2: with a conflict pending, accepting the server version makes the
    pending server snapshot the collection; keeping the local version leaves
    the collection, its stored copy and the list of requests sent as they
    were; either way the stored server snapshot becomes the pending one, the
    last-sync time becomes the current time and no conflict is pending any
    more. *)
Theorem resolveConflict_spec (useServerVersion : bool) (now : string) (st : State)
    (pending : ConflictInfo) :
  pendingConflicts st = Some pending →
  let st' := resolveConflict useServerVersion now st in
  (useServerVersion = true →
     quotes st' = serverQuotes pending
     ∧ localStorage st' !! QUOTES_STORAGE_KEY
       = Some (JSON_stringify (quotes_json (serverQuotes pending))))
  ∧ (useServerVersion = false →
     quotes st' = quotes st
     ∧ localStorage st' !! QUOTES_STORAGE_KEY = localStorage st !! QUOTES_STORAGE_KEY
     ∧ posted st' = posted st)
  ∧ localStorage st' !! SERVER_QUOTES_KEY
    = Some (JSON_stringify (quotes_json (serverQuotes pending)))
  ∧ localStorage st' !! LAST_SYNC_TIME_KEY = Some now
  ∧ pendingConflicts st' = None.
Proof.
  intros Hp st'. subst st'. unfold resolveConflict. rewrite Hp.
  destruct useServerVersion; simpl; unfold save;
    (split; [intros Hu|split; [intros Hu|]]); try discriminate Hu;
    repeat split; by simplify_map_eq.
Qed.

(** C2 at the sample conflict, for both choices. *)
Lemma resolveConflict_spec_witness :
  pendingConflicts conflictState = Some sampleConflict
  ∧ quotes (resolveConflict false "2023-11-14T22:14:00.000Z" conflictState) = local7
  ∧ quotes (resolveConflict true "2023-11-14T22:14:00.000Z" conflictState) = R1
  ∧ pendingConflicts (resolveConflict true "2023-11-14T22:14:00.000Z" conflictState) = None.
Proof.
  assert (Hp : pendingConflicts conflictState = Some sampleConflict) by reflexivity.
  split; [exact Hp|].
  destruct (resolveConflict_spec false "2023-11-14T22:14:00.000Z" conflictState _ Hp)
    as (_ & Hlocal & _).
  destruct (resolveConflict_spec true "2023-11-14T22:14:00.000Z" conflictState _ Hp)
    as (Hserver & _ & _ & _ & Hnone).
  destruct (Hlocal eq_refl) as (Hq & _). destruct (Hserver eq_refl) as (Hq' & _).
  split; [exact Hq|]. split; [exact Hq'|exact Hnone].
Defined.

(** ** Fetching *)

(** The test [post.userId % 2 === 0] singles out the even numbers, negative
    ones included. *)
Lemma rem2_even (z : Z) : (Z.rem z 2 =? 0) = Z.even z.
Proof.
  destruct (Z.eqb_spec (Z.rem z 2) 0) as [H|H].
  - symmetry. apply Z.even_spec. apply Z.rem_divide in H; [|lia].
    destruct H as [k ->]. exists k. lia.
  - symmetry. apply not_true_is_false. intros He. apply H.
    apply Z.even_spec in He as [k ->]. rewrite Z.mul_comm. apply Z.rem_mul. lia.
Qed.

(** C8: from a successful response the fetch returns one quote for each of
    the first ten records, in order: at most ten quotes, the quote at
    position [i] having the title of record [i] as text, the category
    [Server] when the record's [userId] is even and [Remote] otherwise, the
    record's [id] as [serverId] and the clock as [serverTimestamp]. *)
Theorem fetch_maps_first_ten (serverData : list Post) (status : Z) (now : nat → Z) (st : State) :
  ∃ fetchedQuotes st',
    fetchQuotesFromServer (Resolved (mkResponse true status (inr serverData))) now st
    = (Some fetchedQuotes, st')
    ∧ length fetchedQuotes = Nat.min 10 (length serverData)
    ∧ (length fetchedQuotes ≤ 10)%nat
    ∧ quotes st' = quotes st
    ∧ ∀ (i : nat) (q : Quote), fetchedQuotes !! i = Some q →
        (i < 10)%nat
        ∧ ∃ post, serverData !! i = Some post
          ∧ text q = title post
          ∧ category q = (if Z.even (userId post) then "Server" else "Remote")
          ∧ serverId q = Some (JInt (id post))
          ∧ serverTimestamp q = Some (JInt (now i)).
Proof.
  eexists _, _. split; [reflexivity|].
  assert (Hlen : length (imap (quote_of_post now) (take 10 serverData))
                 = Nat.min 10 (length serverData)).
  { by rewrite length_imap, length_take. }
  split; [done|]. split; [lia|]. split; [done|].
  intros i q Hi. rewrite list_lookup_imap in Hi.
  destruct (take 10 serverData !! i) as [post|] eqn:Ht; [|done].
  simpl in Hi. injection Hi as <-.
  apply lookup_take_Some in Ht as [Ht Hlt].
  split; [done|]. exists post. split; [done|].
  unfold quote_of_post. simpl. rewrite rem2_even. by repeat split.
Qed.

(** C6: when the request fails, or the response does not have a success
    status (or its body cannot be read), the run ends after reporting the
    failure in the status line and in a notification: the collection, every
    stored key (the server snapshot and the last-sync time among them), the
    pending conflict and the requests sent are as before. *)
Theorem sync_aborts_on_fetch_failure (io : SyncIO) (st : State) :
  (∃ message, fetched io = Rejected message)
  ∨ (∃ response, fetched io = Resolved response ∧ ok response = false)
  ∨ (∃ response message, fetched io = Resolved response ∧ json response = inl message) →
  ∃ st',
    syncWithServer io st = (Ok tt, st')
    ∧ quotes st' = quotes st
    ∧ localStorage st' = localStorage st
    ∧ pendingConflicts st' = pendingConflicts st
    ∧ posted st' = posted st
    ∧ syncStatus st' = ("Failed to fetch from server", "error")
    ∧ ∃ message, notifications st' = notifications st ++ ["Failed to sync with server: " +:+ message].
Proof.
  intros [[message H]|[(response & H & Hok)|(response & message & H & Hj)]];
    unfold syncWithServer, fetchQuotesFromServer; rewrite H;
    [|rewrite Hok|rewrite Hj; destruct (ok response)]; simpl;
    eexists; repeat split; eexists; reflexivity.
Qed.

(** C6 at a response with status 503. *)
Lemma sync_aborts_on_fetch_failure_witness :
  ok (mkResponse false 503 (inr [])) = false
  ∧ ∃ st', syncWithServer failedSync baselineState = (Ok tt, st')
           ∧ quotes st' = quotes baselineState
           ∧ localStorage st' = localStorage baselineState.
Proof.
  split; [reflexivity|].
  destruct (sync_aborts_on_fetch_failure failedSync baselineState) as (st' & Hs & Hq & Hl & _).
  { right. left. eexists. split; reflexivity. }
  exists st'. by repeat split.
Defined.

(** ** Loading *)




(** ** Import *)

Lemma isValidQuote_spec (v : JSON) : isValidQuote v = true ↔ ValidElement v.
Proof.
  unfold isValidQuote, ValidElement. split.
  - intros H. apply andb_prop in H as [H He]. clear H.
    destruct v as [| | | |items|ms]; simpl in *; try discriminate.
    destruct (assoc "text" ms) as [[| | |t| |]|] eqn:Et; try discriminate.
    destruct (assoc "category" ms) as [[| | |c| |]|] eqn:Ec; try discriminate.
    apply andb_prop in He as [Ht Hc].
    apply negb_true_iff, String.eqb_neq in Ht.
    apply negb_true_iff, String.eqb_neq in Hc.
    by exists ms, t, c.
  - intros (ms & t & c & -> & Ht & Hc & Hnt & Hnc). simpl. rewrite Ht, Hc. simpl.
    apply andb_true_intro. split; apply negb_true_iff, String.eqb_neq; done.
Qed.

Lemma quote_of_json_valid (v : JSON) :
  isValidQuote v = true → ∃ q, quote_of_json v = Some q ∧ KeptAs v q.
Proof.
  intros H. apply isValidQuote_spec in H as (ms & t & c & -> & Ht & Hc & Hnt & Hnc).
  simpl. rewrite Ht, Hc. eexists. split; [reflexivity|].
  exists ms. by repeat split.
Qed.

Lemma kept_valid (items : list JSON) :
  Forall2 KeptAs (List.filter isValidQuote items)
                 (omap quote_of_json (List.filter isValidQuote items)).
Proof.
  induction items as [|v items IH]; simpl; [constructor|].
  destruct (isValidQuote v) eqn:E; [|done].
  destruct (quote_of_json_valid v E) as (q & Hq & Hk).
  simpl. rewrite Hq. by constructor.
Qed.

(** A file named [*.json] that can be read goes through [onload]. *)
Lemma importFromJsonFile_onload (name contents : string) (shouldReplace : bool) (st : State) :
  endsWith name ".json" = true →
  importFromJsonFile (Some (mkFile name (Some contents))) shouldReplace st
  = import_onload contents shouldReplace st.
Proof. intros H. unfold importFromJsonFile. simpl. by rewrite H. Qed.

(** C7: for a file whose text parses, the import fails (an alert, the
    collection and the store untouched) when the value is not an array or
    when no element passes the filter; otherwise it succeeds, and the quotes
    it works with are, in order, exactly the elements of the array that are
    objects whose [text] and [category] are strings not blank after [trim]:
    they replace the collection or are merged into it, and the result is
    stored. *)
Theorem import_keeps_valid_elements (contents : string) (importedQuotes : JSON)
    (shouldReplace : bool) (st : State) :
  JSON_parse contents = Some importedQuotes →
  let st' := import_onload contents shouldReplace st in
  ((∀ items, importedQuotes ≠ JArr items)
   ∨ (∃ items, importedQuotes = JArr items ∧ List.filter isValidQuote items = []) →
   quotes st' = quotes st ∧ localStorage st' = localStorage st
   ∧ ∃ message, alerts st' = alerts st ++ [ErrorImporting (Error message)])
  ∧ (∀ items, importedQuotes = JArr items → List.filter isValidQuote items ≠ [] →
     ∃ validQuotes,
       Forall2 KeptAs (List.filter isValidQuote items) validQuotes
       ∧ quotes st' = (if shouldReplace then validQuotes
                       else fst (import_merge validQuotes (quotes st)))
       ∧ localStorage st' !! QUOTES_STORAGE_KEY = Some (JSON_stringify (quotes_json (quotes st')))
       ∧ alerts st' = alerts st)
  ∧ (∀ v, isValidQuote v = true ↔ ValidElement v).
Proof.
  intros Hparse st'. subst st'. unfold import_onload, import_try, parse_or_throw.
  rewrite Hparse. split; [|split; [|apply isValidQuote_spec]].
  - intros [Hna|(items & -> & Hnil)].
    + destruct importedQuotes as [| | | |items|]; simpl;
        try (repeat split; eexists; reflexivity).
      by destruct (Hna items).
    + rewrite Hnil. simpl. repeat split. eexists; reflexivity.
  - intros items -> Hne.
    pose proof (kept_valid items) as Hk.
    set (validQuotes := omap quote_of_json (List.filter isValidQuote items)) in *.
    assert (Hlen : (length validQuotes =? 0)%nat = false).
    { apply Nat.eqb_neq. rewrite <- (Forall2_length _ _ _ Hk).
      destruct (List.filter isValidQuote items); [done|simpl; lia]. }
    rewrite Hlen. exists validQuotes. split; [done|].
    destruct shouldReplace; simpl.
    + unfold save. by rewrite lookup_insert_eq.
    + destruct (import_merge validQuotes (quotes st)) as [quotes' addedCount]. simpl.
      unfold save. by rewrite lookup_insert_eq.
Qed.

(** C7 at the sample array: the text parses to it, one element passes the
    filter, and the import, replacing, leaves exactly the quote [a] / [b]. *)
Lemma import_keeps_valid_elements_witness :
  JSON_parse (JSON_stringify sampleImport) = Some sampleImport
  ∧ List.filter isValidQuote [ JObj [("text", JStr "a"); ("category", JStr "b")];
                               JObj [("text", JStr EmptyString); ("category", JStr "c")];
                               JStr "not-an-object" ]
    = [ JObj [("text", JStr "a"); ("category", JStr "b")] ]
  ∧ quotes (import_onload (JSON_stringify sampleImport) true baselineState) = [plain "a" "b"]
  ∧ alerts (import_onload (JSON_stringify sampleImport) true baselineState) = [].
Proof.
  assert (Hp : JSON_parse (JSON_stringify sampleImport) = Some sampleImport)
    by (vm_compute; reflexivity).
  split; [exact Hp|]. split; [vm_compute; reflexivity|].
  destruct (import_keeps_valid_elements _ _ true baselineState Hp) as (_ & Hkeep & _).
  destruct (Hkeep _ eq_refl) as (validQuotes & _ & _ & _ & Ha).
  { vm_compute. discriminate. }
  split; [vm_compute; reflexivity|exact Ha].
Defined.

(** ** The sync cycle *)

Lemma stringify_array_nonempty (items : list JSON) :
  truthy_item (Some (JSON_stringify (JArr items))) = true.
Proof. reflexivity. Qed.

#[local] Arguments JSON_stringify : simpl never.
#[local] Arguments JSON_parse : simpl never.

Lemma wf_quotes_json (qs : list Quote) : Forall wf_quote qs → wf (quotes_json qs).
Proof.
  unfold quotes_json. induction 1 as [|q qs Hq _ IH]; simpl; [done|].
  split; [exact Hq|exact IH].
Qed.

(** The quotes made from server records are well formed. *)
Lemma wf_quote_of_post (now : nat → Z) (i : nat) (post : Post) :
  wf_quote (quote_of_post now i post).
Proof.
  unfold wf_quote, quote_of_post, quote_json. simpl. split; [|done].
  apply (bool_decide_unpack _). by vm_compute.
Qed.

Lemma length_strict_neq_length (n : nat) (items : list JSON) :
  length_strict_neq n (Some (JInt (Z.of_nat (length items)))) = negb (n =? length items)%nat.
Proof.
  unfold length_strict_neq, JInt. simpl. f_equal.
  rewrite Z.mul_1_r. destruct (Nat.eqb_spec n (length items)) as [->|Hne].
  - apply Z.eqb_refl.
  - apply Z.eqb_neq. lia.
Qed.

(** Read against a stored baseline [R0], [detectConflicts] does what C1
    asks of it: a conflict, with the three counts, exactly when the local
    length differs from the baseline's and the new snapshot serialises
    differently from the baseline. *)
Lemma detectConflicts_against_baseline (localQuotes R0 R1 : list Quote) (st : State) :
  truthy_item (getItem LAST_SYNC_TIME_KEY st) = true →
  getItem SERVER_QUOTES_KEY st = Some (JSON_stringify (quotes_json R0)) →
  Forall wf_quote R0 →
  detectConflicts localQuotes R1 st
  = Ok (if negb (length localQuotes =? length R0)%nat
           && negb (String.eqb (JSON_stringify (quotes_json R1))
                               (JSON_stringify (quotes_json R0)))
        then FoundConflicts
               (mkConflictInfo (length localQuotes) (length R1)
                  (Some (JInt (Z.of_nat (length R0)))) localQuotes R1)
        else NoConflicts).
Proof.
  intros Ht Hg Hwf. unfold detectConflicts. rewrite Ht, Hg.
  unfold quotes_json at 1. rewrite stringify_array_nonempty.
  fold (quotes_json R0).
  change (negb true || negb true) with false. cbv iota.
  unfold parse_or_throw.
  change (default EmptyString (Some (JSON_stringify (quotes_json R0))))
    with (JSON_stringify (quotes_json R0)).
  rewrite JsonFacts.JSON_parse_stringify by by apply wf_quotes_json.
  change (get_length (quotes_json R0))
    with (@Ok (option JSON) (Some (JInt (Z.of_nat (length (map quote_json R0)))))).
  cbv iota. rewrite length_strict_neq_length, length_map.
  by destruct (_ && _).
Qed.

Lemma detectConflicts_hasConflicts (localQuotes R0 R1 : list Quote) (st : State) :
  truthy_item (getItem LAST_SYNC_TIME_KEY st) = true →
  getItem SERVER_QUOTES_KEY st = Some (JSON_stringify (quotes_json R0)) →
  Forall wf_quote R0 →
  ∃ conflicts,
    detectConflicts localQuotes R1 st = Ok conflicts
    ∧ (hasConflicts conflicts = true
       ↔ length localQuotes ≠ length R0
         ∧ JSON_stringify (quotes_json R1) ≠ JSON_stringify (quotes_json R0)).
Proof.
  intros Ht Hg Hwf. eexists. split; [by apply detectConflicts_against_baseline|].
  destruct (Nat.eqb_spec (length localQuotes) (length R0)) as [Hl|Hl];
    destruct (String.eqb_spec (JSON_stringify (quotes_json R1))
                              (JSON_stringify (quotes_json R0))) as [Hs|Hs];
    simpl; split; try done; intros [H1 H2]; done.
Qed.

(** Run in a store that holds the new snapshot under the key of the
    baseline, [detectConflicts] compares that snapshot with itself. *)
Lemma detectConflicts_same (localQuotes serverQuotes : list Quote) (st : State) :
  getItem SERVER_QUOTES_KEY st = Some (JSON_stringify (quotes_json serverQuotes)) →
  Forall wf_quote serverQuotes →
  detectConflicts localQuotes serverQuotes st = Ok NoConflicts.
Proof.
  intros Hg Hwf.
  destruct (truthy_item (getItem LAST_SYNC_TIME_KEY st)) eqn:Ht.
  - rewrite (detectConflicts_against_baseline _ serverQuotes) by done.
    by rewrite String.eqb_refl, andb_false_r.
  - unfold detectConflicts. by rewrite Ht.
Qed.

(** Whatever the state and whatever records a successful fetch returns,
    the run finds no conflict: it leaves the pending conflict as it was and
    merges the new snapshot. *)
Lemma sync_never_finds_conflict (st : State) (status : Z) (serverData : list Post)
    (clock : nat → Z) (postTime : Z) (syncTime : string) :
  let io := mkSyncIO (Resolved (mkResponse true status (inr serverData)))
                     clock postTime syncTime in
  let fetchedQuotes := imap (quote_of_post clock) (take 10 serverData) in
  ∃ st',
    syncWithServer io st = (Ok tt, st')
    ∧ pendingConflicts st' = pendingConflicts st
    ∧ quotes st' = quotes st ++ List.filter (absent (keysOf (quotes st))) fetchedQuotes
    ∧ syncStatus st' = ("Synced successfully", "success").
Proof.
  intros io fetchedQuotes.
  unfold syncWithServer, fetchQuotesFromServer, io.
  cbn [fetched fetchClock ok negb json]. cbv iota. fold fetchedQuotes. cbv zeta.
  rewrite detectConflicts_same; [|apply lookup_insert_eq|].
  - eexists. split; [reflexivity|].
    split; [reflexivity|]. split; [|reflexivity].
    etransitivity; [|apply (mergeQuotes_quotes fetchedQuotes st)]. reflexivity.
  - apply Forall_lookup_2. intros i q Hq. unfold fetchedQuotes in Hq.
    rewrite list_lookup_imap in Hq. destruct (take 10 serverData !! i); [|done].
    injection Hq as <-. apply wf_quote_of_post.
Qed.

(** C1 fails on the code: [syncWithServer] stores the new snapshot under the
    key of the baseline before it calls [detectConflicts], which therefore
    compares the new snapshot with itself.  Whatever the state and whatever
    a successful fetch returns, the run leaves the pending conflict as it
    was and merges.  In the sample, the store holds a last-sync time and a
    baseline [R0] of five quotes, the collection has seven and the new
    snapshot [R1], of six, serialises differently from [R0]: read against
    that store [detectConflicts] reports the conflict with the counts 7, 6
    and 5, but the run reports none and merges: the sixth server quote is
    appended to the seven local ones. *)
Theorem sync_compares_snapshot_with_itself :
  (∀ (st : State) (status : Z) (serverData : list Post)
     (fetchClock : nat → Z) (postClock : Z) (syncClock : string),
     ∃ st',
       syncWithServer
         (mkSyncIO (Resolved (mkResponse true status (inr serverData)))
                   fetchClock postClock syncClock) st
       = (Ok tt, st')
       ∧ pendingConflicts st' = pendingConflicts st
       ∧ quotes st'
         = quotes st
           ++ List.filter (absent (keysOf (quotes st)))
                (imap (quote_of_post fetchClock) (take 10 serverData)))
  ∧ (truthy_item (getItem LAST_SYNC_TIME_KEY baselineState) = true
     ∧ getItem SERVER_QUOTES_KEY baselineState = Some (JSON_stringify (quotes_json R0))
     ∧ length (quotes baselineState) = 7%nat ∧ length R0 = 5%nat ∧ length R1 = 6%nat
     ∧ JSON_stringify (quotes_json R1) ≠ JSON_stringify (quotes_json R0))
  ∧ detectConflicts (quotes baselineState) R1 baselineState
    = Ok (FoundConflicts (mkConflictInfo 7 6 (Some (JInt 5)) (quotes baselineState) R1))
  ∧ ∃ st',
      syncWithServer secondSync baselineState = (Ok tt, st')
      ∧ pendingConflicts st' = None
      ∧ syncStatus st' = ("Synced successfully", "success")
      ∧ quotes st' = quotes baselineState
                     ++ [quote_of_post (fun _ => 1700000030000) 5
                           (mkPost 6 4 "dolorem eum magni eos")]
      ∧ length (quotes st') = 8%nat.
Proof.
  split; [|split; [|split]].
  - intros st status serverData fetchClock postClock syncClock.
    destruct (sync_never_finds_conflict st status serverData fetchClock postClock syncClock)
      as (st' & Hs & Hp & Hq & _).
    by exists st'.
  - repeat split; try reflexivity. vm_compute. discriminate.
  - vm_compute. reflexivity.
  - eexists. split; [vm_compute; reflexivity|]. by repeat split.
Qed.

(** ** Picking the quote to show *)

Module PickerFacts.
Import Picker.

(** [Math.floor(Math.random() * n)] is an index of an array of length
    [n]. *)
Lemma floor_times_lt (d : Draw) (n : nat) : (0 < n)%nat → (floor_times d n < n)%nat.
Proof.
  intros Hn. unfold floor_times. apply Nat.Div0.div_lt_upper_bound. nia.
Qed.

(** The loop ends on an index of the pool, and, in a pool of two or more,
    only on an element that is not the object shown last. *)
Lemma draw_index_sound (draws : list Draw) (pool : list Obj) (last : option Obj) (i : nat) :
  (0 < length pool)%nat →
  draw_index draws pool last = Some i →
  (i < length pool)%nat
  ∧ ((2 ≤ length pool)%nat → strict_eq (pool !! i) last = false).
Proof.
  intros Hn. induction draws as [|d draws IH]; simpl; [done|].
  destruct (strict_eq (pool !! floor_times d (length pool)) last) eqn:E; simpl.
  - destruct (1 <? length pool)%nat eqn:E1; [exact IH|].
    intros [= <-]. split; [by apply floor_times_lt|].
    apply Nat.ltb_ge in E1. lia.
  - intros [= <-]. split; [by apply floor_times_lt|done].
Qed.

(** The loop ends as soon as a draw falls on an element that is not the
    object shown last. *)
Lemma draw_index_total (draws : list Draw) (pool : list Obj) (last : option Obj) :
  (∃ d, d ∈ draws ∧ strict_eq (pool !! floor_times d (length pool)) last = false) →
  ∃ i, draw_index draws pool last = Some i.
Proof.
  intros (d & Hin & Hd). induction draws as [|d' draws IH]; simpl.
  - by apply elem_of_nil in Hin.
  - destruct (strict_eq (pool !! floor_times d' (length pool)) last) eqn:E; simpl; [|by eexists].
    destruct (1 <? length pool)%nat; [|by eexists].
    apply IH. apply elem_of_cons in Hin as [->|Hin]; [congruence|done].
Qed.

Lemma strict_eq_false_ref (q p : Obj) : strict_eq (Some q) (Some p) = false → ref q ≠ ref p.
Proof. simpl. by intros H%Nat.eqb_neq. Qed.

(** [indexOf] finds an object of the array, at a position that holds that
    same object. *)
Lemma indexOf_found (arr : list Obj) (x : Obj) :
  x ∈ arr → strict_eq (at_index arr (indexOf arr x)) (Some x) = true.
Proof.
  induction arr as [|y arr IH]; intros Hin; [by apply elem_of_nil in Hin|].
  simpl. destruct (ref y =? ref x)%nat eqn:E; [done|].
  assert (Hx : x ∈ arr).
  { apply elem_of_cons in Hin as [->|Hin]; [|done]. by rewrite Nat.eqb_refl in E. }
  specialize (IH Hx). unfold at_index in *.
  destruct (indexOf arr x <? 0) eqn:Hneg; [simpl in IH; discriminate|].
  apply Z.ltb_ge in Hneg.
  replace (indexOf arr x + 1 <? 0) with false by (symmetry; apply Z.ltb_ge; lia).
  replace (Z.to_nat (indexOf arr x + 1)) with (Datatypes.S (Z.to_nat (indexOf arr x))) by lia.
  exact IH.
Qed.

Lemma filterBy_subset (selectedCategory : string) (arr : list Obj) (q : Obj) :
  q ∈ filterBy selectedCategory arr → q ∈ arr.
Proof.
  unfold filterBy. destruct (String.eqb _ _); [done|].
  intros H%list_elem_of_In%filter_In. apply list_elem_of_In. tauto.
Qed.

(** Every index of the pool is the floor of some draw. *)
Lemma floor_times_hits (i n : nat) :
  (i < n)%nat → floor_times (mkDraw i (n - i - 1)) n = i.
Proof.
  intros Hi. unfold floor_times. simpl.
  replace (i + (n - i - 1) + 1)%nat with n by lia.
  apply Nat.div_mul. lia.
Qed.

(** After a quote is shown, [lastQuoteIndex] designates that object. *)
Lemma showRandomQuote_tracks (selectedCategory : string) (draws : list Draw) (st st' : PickState)
    (q : Obj) :
  showRandomQuote selectedCategory draws st = Some (Displayed (Some q), st') →
  quotes st' = quotes st
  ∧ strict_eq (at_index (quotes st') (lastQuoteIndex st')) (Some q) = true.
Proof.
  unfold showRandomQuote.
  destruct (length (filterBy selectedCategory (quotes st)) =? 0)%nat; [done|].
  destruct (if (length _ =? 1)%nat then _ else _) as [i|]; simpl; [|done].
  intros [= Hq <-]. simpl. split; [done|].
  rewrite Hq. simpl. apply indexOf_found.
  apply (filterBy_subset selectedCategory). by apply list_elem_of_lookup_2 in Hq.
Qed.

End PickerFacts.

(** C9: with the pool the category filter leaves and the object
    [quotes[lastQuoteIndex]] shown last: a pool of one element has that
    element shown, whatever was shown before and whatever [Math.random]
    returns; in a pool of two or more, a run that ends shows an element of
    the pool that is not the object shown last, and the run ends on any draw
    that falls on such an element (each index being the floor of some
    draw).  The comparison is between references: the element shown can have
    the same text and category as the one shown last, as the twin quotes of
    the sample do. *)
Theorem pick_differs_by_reference :
  (∀ (selectedCategory : string) (draws : list Picker.Draw) (st : Picker.PickState),
     let pool := Picker.filterBy selectedCategory (Picker.quotes st) in
     let previous := Picker.at_index (Picker.quotes st) (Picker.lastQuoteIndex st) in
     (∀ q, pool = [q] →
        ∃ st', Picker.showRandomQuote selectedCategory draws st
               = Some (Picker.Displayed (Some q), st'))
     ∧ (∀ shown st',
          (2 ≤ length pool)%nat →
          Picker.showRandomQuote selectedCategory draws st = Some (shown, st') →
          ∃ q, shown = Picker.Displayed (Some q)
               ∧ q ∈ pool
               ∧ Picker.strict_eq (Some q) previous = false
               ∧ ∀ p, previous = Some p → Picker.ref q ≠ Picker.ref p)
     ∧ (∀ (i : nat) q,
          (2 ≤ length pool)%nat →
          pool !! i = Some q →
          Picker.strict_eq (Some q) previous = false →
          ∃ st', Picker.showRandomQuote selectedCategory
                   [Picker.mkDraw i (length pool - i - 1)] st
                 = Some (Picker.Displayed (Some q), st')))
  ∧ (∃ st', Picker.showRandomQuote "all" Picker.sampleDraws Picker.twinState
            = Some (Picker.Displayed (Some Picker.twinB), st')
            ∧ Picker.at_index (Picker.quotes Picker.twinState)
                              (Picker.lastQuoteIndex Picker.twinState) = Some Picker.twinA
            ∧ Picker.members Picker.twinB = Picker.members Picker.twinA
            ∧ Picker.ref Picker.twinB ≠ Picker.ref Picker.twinA).
Proof.
  split.
  - intros selectedCategory draws st pool previous. split; [|split].
    + intros q Hq. unfold Picker.showRandomQuote. fold pool. rewrite Hq. simpl. by eexists.
    + intros shown st' Hlen. unfold Picker.showRandomQuote. fold pool. fold previous.
      destruct (length pool =? 0)%nat eqn:E0; [apply Nat.eqb_eq in E0; lia|].
      destruct (length pool =? 1)%nat eqn:E1; [apply Nat.eqb_eq in E1; lia|].
      destruct (Picker.draw_index draws pool previous) as [i|] eqn:Ei; simpl; [|done].
      intros [= <- <-].
      apply PickerFacts.draw_index_sound in Ei as [Hi Hne]; [|lia].
      destruct (pool !! i) as [q|] eqn:Hq; [|apply lookup_ge_None in Hq; lia].
      exists q. split; [done|]. split; [by apply list_elem_of_lookup_2 in Hq|].
      split; [by apply Hne|].
      intros p Hp. apply PickerFacts.strict_eq_false_ref. rewrite <- Hp. by apply Hne.
    + intros i q Hlen Hq Hne. unfold Picker.showRandomQuote. fold pool. fold previous.
      destruct (length pool =? 0)%nat eqn:E0; [apply Nat.eqb_eq in E0; lia|].
      destruct (length pool =? 1)%nat eqn:E1; [apply Nat.eqb_eq in E1; lia|].
      unfold Picker.draw_index.
      rewrite PickerFacts.floor_times_hits by (by apply lookup_lt_Some in Hq).
      rewrite Hq, Hne. simpl. rewrite Hq. by eexists.
  - eexists. split; [vm_compute; reflexivity|]. repeat split. vm_compute. lia.
Qed.

(** * The page: properties *)

#[local] Arguments JSON_stringify_indent : simpl never.

(** ** The dropdown *)

Module PageFacts.
Import Page.

Lemma set_add_spec (seen : list string) (x y : string) :
  y ∈ set_add seen x ↔ y ∈ seen ∨ y = x.
Proof.
  unfold set_add. case_bool_decide as H.
  - split; [auto|]. intros [?| ->]; done.
  - rewrite elem_of_app, list_elem_of_singleton. done.
Qed.

Lemma set_add_NoDup (seen : list string) (x : string) : NoDup seen → NoDup (set_add seen x).
Proof.
  unfold set_add. intros Hnd. case_bool_decide as H; [done|].
  apply NoDup_app. split; [done|]. split; [|apply NoDup_singleton].
  intros y Hy ->%list_elem_of_singleton. done.
Qed.

Lemma fold_set_add (items seen : list string) (y : string) :
  y ∈ fold_left set_add items seen ↔ y ∈ seen ∨ y ∈ items.
Proof.
  revert seen. induction items as [|x items IH]; intros seen; simpl.
  - rewrite elem_of_nil. tauto.
  - rewrite IH, set_add_spec, elem_of_cons. tauto.
Qed.

Lemma fold_set_add_NoDup (items seen : list string) :
  NoDup seen → NoDup (fold_left set_add items seen).
Proof.
  revert seen. induction items as [|x items IH]; intros seen Hnd; simpl; [done|].
  apply IH. by apply set_add_NoDup.
Qed.

Lemma elem_of_set_of (items : list string) (y : string) : y ∈ set_of items ↔ y ∈ items.
Proof. unfold set_of. rewrite fold_set_add, elem_of_nil. tauto. Qed.

Lemma set_of_NoDup (items : list string) : NoDup (set_of items).
Proof. apply fold_set_add_NoDup, NoDup_nil_2. Qed.

Lemma elem_of_categoriesOf (Q : list Quote) (c : string) :
  c ∈ categoriesOf Q ↔ ∃ q, q ∈ Q ∧ category q = c.
Proof.
  unfold categoriesOf. rewrite elem_of_set_of, list_elem_of_fmap.
  split; [intros (q & -> & Hq)|intros (q & Hq & <-)]; eauto.
Qed.

Lemma units_le_total (x y : list N) : units_le x y = true ∨ units_le y x = true.
Proof.
  revert y. induction x as [|a x IH]; intros [|b y]; simpl; auto.
  destruct (N.ltb_spec a b), (N.ltb_spec b a); auto; lia.
Qed.

Lemma units_le_trans (x y z : list N) :
  units_le x y = true → units_le y z = true → units_le x z = true.
Proof.
  revert y z. induction x as [|a x IH]; intros [|b y] [|c z]; simpl; try done.
  destruct (N.ltb_spec a b), (N.ltb_spec b a), (N.ltb_spec b c), (N.ltb_spec c b),
    (N.ltb_spec a c), (N.ltb_spec c a); try done; try lia.
  apply IH.
Qed.

#[global] Instance sort_le_total : Total sort_le.
Proof. intros a b. apply units_le_total. Qed.

#[global] Instance sort_le_trans : Transitive sort_le.
Proof. intros a b c. apply units_le_trans. Qed.

(** The order is that of the code units, not of the bytes: a character
    outside the basic plane (here U+1F600, the bytes F0 9F 98 80), whose
    units are surrogates, comes before U+FF5E (the bytes EF BD 9E). *)
Lemma sort_surrogates_first :
  sort [str1 239 +:+ str1 189 +:+ str1 158; str1 240 +:+ str1 159 +:+ str1 152 +:+ str1 128]
  = [str1 240 +:+ str1 159 +:+ str1 152 +:+ str1 128; str1 239 +:+ str1 189 +:+ str1 158]
  ∧ code_units (str1 240 +:+ str1 159 +:+ str1 152 +:+ str1 128) = [55357; 56832]%N
  ∧ code_units (str1 239 +:+ str1 189 +:+ str1 158) = [65374]%N.
Proof. repeat split; vm_compute; reflexivity. Qed.

Lemma elem_of_sort (l : list string) (x : string) : x ∈ sort l ↔ x ∈ l.
Proof. unfold sort. by rewrite merge_sort_Permutation. Qed.

Lemma sort_NoDup (l : list string) : NoDup l → NoDup (sort l).
Proof. unfold sort. by rewrite merge_sort_Permutation. Qed.

Lemma sort_length (l : list string) : length (sort l) = length l.
Proof. unfold sort. by rewrite merge_sort_Permutation. Qed.


Lemma setValue_elem (v : string) (select : Select) :
  v ∈ options select → setValue v select = mkSelect v (options select).
Proof. intros H. unfold setValue. by case_bool_decide. Qed.

End PageFacts.

(** X1: the dropdown after [populateCategories]: the option [all], then
    every category of the collection once, in ascending order of their
    UTF-16 code units; the selection is kept when its value is still an option and falls back to [all]
    otherwise.  A category spelled [all] gives a second option of that
    value. *)
Theorem populateCategories_lists_categories (app : Page.App) :
  ∃ categories,
    Page.options (Page.categoryFilter (Page.populateCategories app)) = "all" :: categories
    ∧ StronglySorted sort_le categories
    ∧ NoDup categories
    ∧ (∀ c, c ∈ categories ↔ ∃ q, q ∈ quotes (Page.core app) ∧ category q = c)
    ∧ (Page.value (Page.categoryFilter app) ∈ "all" :: categories →
       Page.value (Page.categoryFilter (Page.populateCategories app))
       = Page.value (Page.categoryFilter app))
    ∧ (Page.value (Page.categoryFilter app) ∉ "all" :: categories →
       Page.value (Page.categoryFilter (Page.populateCategories app)) = "all")
    ∧ Page.core (Page.populateCategories app) = Page.core app.
Proof.
  exists (sort (Page.categoriesOf (quotes (Page.core app)))).
  unfold Page.populateCategories. simpl.
  split; [|split; [|split; [|split; [|split; [|split]]]]].
  - case_bool_decide; reflexivity.
  - apply (StronglySorted_merge_sort _).
  - apply PageFacts.sort_NoDup, PageFacts.set_of_NoDup.
  - intros c. rewrite PageFacts.elem_of_sort. apply PageFacts.elem_of_categoriesOf.
  - intros Hin. case_bool_decide; [|done].
    unfold Page.setValue. simpl. by case_bool_decide.
  - intros Hin. case_bool_decide; [done|].
    reflexivity.
  - reflexivity.
Qed.

(** ** [JSON.parse] after [JSON.stringify(value, null, 2)] *)

Module IndentFacts.
Import JsonFacts.

Lemma skip_ws_spaces (n : nat) (s : string) : skip_ws (spaces n +:+ s) = skip_ws s.
Proof. induction n as [|n IH]; [done|]. exact IH. Qed.

Lemma parse_value_ws (fuel : nat) (c : ascii) (s : string) :
  is_ws c = true → parse_value fuel (String c s) = parse_value fuel s.
Proof. intros E. destruct fuel as [|fuel]; [done|]. simpl. by rewrite E. Qed.

Lemma parse_members_ws (fuel : nat) (c : ascii) (s : string) :
  is_ws c = true → parse_members fuel (String c s) = parse_members fuel s.
Proof. intros E. destruct fuel as [|fuel]; [done|]. simpl. by rewrite E. Qed.

Lemma parse_value_spaces (fuel n : nat) (s : string) :
  parse_value fuel (spaces n +:+ s) = parse_value fuel s.
Proof. induction n as [|n IH]; [done|]. simpl spaces. rewrite sapp_cons. by rewrite parse_value_ws. Qed.

Lemma parse_members_spaces (fuel n : nat) (s : string) :
  parse_members fuel (spaces n +:+ s) = parse_members fuel s.
Proof. induction n as [|n IH]; [done|]. simpl spaces. rewrite sapp_cons. by rewrite parse_members_ws. Qed.

Lemma sep_cases (s : string) :
  sep s = true →
  s = EmptyString
  ∨ ∃ r, s = String "," r ∨ s = String "]" r ∨ s = String "}" r ∨ s = String (chr LF) r.
Proof.
  destruct s as [|c r]; [by left|]. simpl. intros H. right. exists r.
  apply orb_prop in H as [H|H]; [apply orb_prop in H as [H|H]; [apply orb_prop in H as [H|H]|]|].
  - apply Ascii.eqb_eq in H. subst. auto.
  - apply Ascii.eqb_eq in H. subst. auto.
  - apply Ascii.eqb_eq in H. subst. auto.
  - apply Nat.eqb_eq in H. do 3 right. f_equal. unfold code in H.
    rewrite <- (ascii_nat_embedding c), H. reflexivity.
Qed.

Ltac sep_split H :=
  apply sep_cases in H as [->|[? [->|[->|[->| ->]]]]].

Lemma parse_number_sep (m e : Z) (rest : string) :
  sep rest = true →
  parse_number (number_to_string m e +:+ rest) = Some (JNum m e, rest).
Proof.
  intros Hrest.
  assert (Hd : no_digit rest) by (sep_split Hrest; done).
  assert (Hf : ∀ x, parse_frac_part x rest = Some (x, 0, rest)) by (intros x; sep_split Hrest; done).
  assert (He : parse_exp_part rest = Some (0, rest)) by (sep_split Hrest; done).
  clear Hrest. unfold number_to_string, parse_number.
  destruct (Z.eqb_spec e 0) as [->|Hne].
  - rewrite sign_pretty, parse_int_pretty by done.
    simpl. rewrite Hf. simpl. rewrite He. simpl. by rewrite signed_abs.
  - rewrite !sapp_assoc. rewrite sign_pretty.
    change ("e" +:+ pretty e +:+ rest) with (String "e" (pretty e +:+ rest)).
    rewrite parse_int_pretty by done.
    simpl. rewrite signed_abs.
    unfold parse_exp_part. simpl. rewrite exp_sign_pretty.
    destruct (read_exp_pretty (Z.abs_N e) rest) as [k Hk]; [done|].
    rewrite Hk. simpl. by rewrite signed_abs.
Qed.

Lemma join_lines_cons (x : string) (l : list string) (tail : string) :
  join_lines (x :: l) +:+ tail
  = x +:+ match l with
          | [] => tail
          | _ :: _ => String "," (String (chr LF) (join_lines l +:+ tail))
          end.
Proof. destruct l; [reflexivity|]. simpl join_lines. by rewrite !sapp_assoc. Qed.

Lemma indent_array_text (indent : nat) (x : JSON) (items : list JSON) (rest : string) :
  JSON_stringify_indent indent (JArr (x :: items)) +:+ rest
  = String "[" (String (chr LF)
      (join_lines (map (element_line indent) (x :: items))
       +:+ String (chr LF) (spaces indent +:+ String "]" rest))).
Proof.
  change (JSON_stringify_indent indent (JArr (x :: items)))
    with ("[" +:+ str1 LF +:+ join_lines (map (element_line indent) (x :: items))
          +:+ str1 LF +:+ spaces indent +:+ "]").
  by rewrite !sapp_assoc.
Qed.

Lemma indent_object_text (indent : nat) (x : string * JSON) (ms : list (string * JSON))
    (rest : string) :
  JSON_stringify_indent indent (JObj (x :: ms)) +:+ rest
  = String "{" (String (chr LF)
      (join_lines (map (member_line indent) (x :: ms))
       +:+ String (chr LF) (spaces indent +:+ String "}" rest))).
Proof.
  change (JSON_stringify_indent indent (JObj (x :: ms)))
    with ("{" +:+ str1 LF +:+ join_lines (map (member_line indent) (x :: ms))
          +:+ str1 LF +:+ spaces indent +:+ "}").
  by rewrite !sapp_assoc.
Qed.

Lemma indent_head (indent : nat) (v : JSON) (rest : string) :
  value_head (JSON_stringify_indent indent v +:+ rest).
Proof.
  destruct v as [| | | |items|ms];
    try (change (JSON_stringify_indent indent ?v) with (JSON_stringify v); apply stringify_head).
  - destruct items; [by eexists _, _|]. rewrite indent_array_text. by eexists _, _.
  - destruct ms; [by eexists _, _|]. rewrite indent_object_text. by eexists _, _.
Qed.

Section Values.

Variable n : nat.
Hypothesis IHn : ∀ v, (weight v ≤ n)%nat → ∀ indent fuel rest,
  wf v → (weight v ≤ fuel)%nat → sep rest = true →
  parse_value fuel (JSON_stringify_indent indent v +:+ rest) = Some (v, rest).

Lemma parse_elements_indent (indent : nat) (items : list JSON) :
  items ≠ [] →
  Forall (fun x => (weight x ≤ n)%nat ∧ wf x) items →
  ∀ fuel rest, (elements_weight items ≤ fuel)%nat →
  parse_elements fuel
    (String (chr LF)
       (join_lines (map (element_line indent) items)
        +:+ String (chr LF) (spaces indent +:+ String "]" rest)))
  = Some (items, rest).
Proof.
  unfold elements_weight.
  induction items as [|x items IH]; [done|]. intros _ Hall fuel rest Hfuel.
  apply Forall_cons in Hall as [[Hx Hwf] Hall]. simpl in Hfuel.
  destruct fuel as [|fuel]; [lia|].
  rewrite parse_elements_eq. rewrite parse_value_ws by done.
  simpl map. rewrite join_lines_cons. unfold element_line at 1.
  rewrite sapp_assoc, parse_value_spaces.
  destruct items as [|y items].
  - rewrite IHn by (done || lia). simpl.
    change (skip_ws (spaces indent +:+ String "]" rest))
      with (skip_ws (spaces indent +:+ String "]" rest)).
    rewrite skip_ws_spaces. reflexivity.
  - rewrite IHn by (done || lia). simpl.
    change (element_line indent y :: map (element_line indent) items)
      with (map (element_line indent) (y :: items)).
    rewrite IH; [done|done|done|]. simpl in *. lia.
Qed.

Lemma parse_members_indent (indent : nat) (ms : list (string * JSON)) :
  ms ≠ [] →
  Forall (fun kv => (weight (snd kv) ≤ n)%nat ∧ wf (snd kv)) ms →
  ∀ fuel rest, (members_weight ms ≤ fuel)%nat →
  parse_members fuel
    (String (chr LF)
       (join_lines (map (member_line indent) ms)
        +:+ String (chr LF) (spaces indent +:+ String "}" rest)))
  = Some (ms, rest).
Proof.
  unfold members_weight.
  induction ms as [|[k v] ms IH]; [done|]. intros _ Hall fuel rest Hfuel.
  apply Forall_cons in Hall as [[Hx Hwf] Hall]. simpl in Hfuel, Hx, Hwf.
  destruct fuel as [|fuel]; [lia|].
  rewrite parse_members_ws by done.
  simpl map. rewrite join_lines_cons. unfold member_line at 1. simpl fst. simpl snd.
  rewrite !sapp_assoc, parse_members_spaces, quote_string_app, parse_members_eq,
    parse_escape_string.
  change (": " +:+ ?x) with (String ":" (String " " x)).
  destruct ms as [|y ms].
  - simpl. rewrite parse_value_ws by done. rewrite IHn by (done || lia). simpl.
    rewrite skip_ws_spaces. reflexivity.
  - simpl. rewrite parse_value_ws by done. rewrite IHn by (done || lia). simpl.
    change (member_line indent y :: map (member_line indent) ms)
      with (map (member_line indent) (y :: ms)).
    rewrite IH; [done|done|done|]. simpl in *. lia.
Qed.

End Values.

Lemma parse_value_indent (n : nat) :
  ∀ v, (weight v ≤ n)%nat → ∀ indent fuel rest,
  wf v → (weight v ≤ fuel)%nat → sep rest = true →
  parse_value fuel (JSON_stringify_indent indent v +:+ rest) = Some (v, rest).
Proof.
  induction n as [|n IH]; intros v Hn indent fuel rest Hwf Hfuel Hrest.
  { pose proof (weight_pos v). lia. }
  destruct fuel as [|fuel]; [pose proof (weight_pos v); lia|].
  destruct v as [|[]|m e|s|items|ms].
  - reflexivity.
  - reflexivity.
  - reflexivity.
  - change (JSON_stringify_indent indent (JNum m e)) with (number_to_string m e).
    rewrite parse_value_number. by apply parse_number_sep.
  - change (JSON_stringify_indent indent (JStr s)) with (quote_string s).
    rewrite quote_string_app, parse_value_string_eq, parse_escape_string. reflexivity.
  - destruct items as [|x items]; [reflexivity|].
    rewrite indent_array_text, parse_value_array_eq.
    simpl in Hn, Hfuel, Hwf.
    assert (Hskip : ∀ tail, skip_ws (String (chr LF) (join_lines (map (element_line indent) (x :: items)) +:+ tail))
                    = JSON_stringify_indent (indent + 2) x
                      +:+ match items with
                          | [] => tail
                          | _ :: _ => String "," (String (chr LF) (join_lines (map (element_line indent) items) +:+ tail))
                          end).
    { intros tail. simpl map. rewrite join_lines_cons. unfold element_line at 1.
      change (skip_ws (String (chr LF) ?s)) with (skip_ws s).
      rewrite sapp_assoc, skip_ws_spaces. rewrite skip_ws_value_head by apply indent_head.
      by destruct items. }
    rewrite Hskip.
    destruct (indent_head (indent + 2) x
                match items with
                | [] => String (chr LF) (spaces indent +:+ String "]" rest)
                | _ :: _ => String "," (String (chr LF) (join_lines (map (element_line indent) items) +:+ String (chr LF) (spaces indent +:+ String "]" rest)))
                end) as (c & r & Hr & _ & Hc & _).
    rewrite Hr, Hc.
    rewrite (parse_elements_indent n IH); [reflexivity|done| |unfold elements_weight; simpl; lia].
    apply elements_bound; [unfold elements_weight; simpl; lia|done].
  - destruct ms as [|x ms]; [reflexivity|].
    rewrite indent_object_text, parse_value_object_eq.
    destruct Hwf as [Hnd Hwf]. simpl in Hn, Hfuel.
    assert (Hskip : ∀ tail, ∃ r, skip_ws (String (chr LF) (join_lines (map (member_line indent) (x :: ms)) +:+ tail))
                    = String (chr DQUOTE) r).
    { intros tail. simpl map. rewrite join_lines_cons. unfold member_line at 1.
      change (skip_ws (String (chr LF) ?s)) with (skip_ws s).
      rewrite !sapp_assoc, skip_ws_spaces, quote_string_app. by eexists. }
    destruct (Hskip (String (chr LF) (spaces indent +:+ String "}" rest))) as [r ->].
    change ((chr DQUOTE =? "}")%char) with false. cbv iota.
    rewrite (parse_members_indent n IH); [|done| |unfold members_weight; simpl; lia].
    + simpl. by rewrite object_of_NoDup.
    + apply members_bound; [unfold members_weight; simpl; lia|done].
Qed.


Lemma join_lines_length (l : list string) :
  (list_sum (map (fun x => S (String.length x)) l) ≤ S (String.length (join_lines l)))%nat.
Proof.
  induction l as [|x l IH]; [simpl; lia|].
  destruct l as [|y l]; [simpl; lia|].
  change (join_lines (x :: y :: l)) with (x +:+ "," +:+ str1 LF +:+ join_lines (y :: l)).
  rewrite !slength_app. change (String.length ",") with 1%nat.
  remember (y :: l) as L. simpl. lia.
Qed.

Lemma weight_le_indent_length (n : nat) :
  ∀ v indent, (weight v ≤ n)%nat →
  (weight v ≤ String.length (JSON_stringify_indent indent v))%nat.
Proof.
  induction n as [|n IH]; intros v indent Hn.
  { pose proof (weight_pos v). lia. }
  destruct v as [| | | |items|ms];
    try (change (JSON_stringify_indent indent ?v) with (JSON_stringify v);
         by apply (weight_le_length (S n))).
  - destruct items as [|x items]; [simpl; lia|].
    rewrite <- (sapp_nil_r (JSON_stringify_indent _ _)), indent_array_text.
    cbn [String.length]. rewrite slength_app.
    pose proof (join_lines_length (map (element_line indent) (x :: items))) as Hj.
    assert (Hs : (list_sum (map (fun x => S (weight x)) (x :: items))
                  ≤ list_sum (map (fun x => S (String.length x))
                       (map (element_line indent) (x :: items))))%nat).
    { simpl in Hn.
      assert (Hb : (list_sum (map (fun x => S (weight x)) (x :: items)) ≤ n)%nat) by (simpl; lia).
      clear -IH Hb. induction (x :: items) as [|y l IHl]; simpl in *; [lia|].
      pose proof (IH y (indent + 2)%nat ltac:(lia)). specialize (IHl ltac:(lia)).
      unfold element_line at 1. rewrite slength_app. lia. }
    change (weight (JArr (x :: items)))
      with (S (list_sum (map (fun x => S (weight x)) (x :: items)))).
    lia.
  - destruct ms as [|x ms]; [simpl; lia|].
    rewrite <- (sapp_nil_r (JSON_stringify_indent _ _)), indent_object_text.
    cbn [String.length]. rewrite slength_app.
    pose proof (join_lines_length (map (member_line indent) (x :: ms))) as Hj.
    assert (Hs : (list_sum (map (fun kv => S (weight (snd kv))) (x :: ms))
                  ≤ list_sum (map (fun x => S (String.length x))
                       (map (member_line indent) (x :: ms))))%nat).
    { simpl in Hn.
      assert (Hb : (list_sum (map (fun kv => S (weight (snd kv))) (x :: ms)) ≤ n)%nat)
        by (simpl; lia).
      clear -IH Hb. induction (x :: ms) as [|y l IHl]; simpl in *; [lia|].
      pose proof (IH (snd y) (indent + 2)%nat ltac:(lia)). specialize (IHl ltac:(lia)).
      unfold member_line at 1. rewrite !slength_app. lia. }
    change (weight (JObj (x :: ms)))
      with (S (list_sum (map (fun kv => S (weight (snd kv))) (x :: ms)))).
    lia.
Qed.

(** [JSON.parse] reads back the indented text. *)
Lemma JSON_parse_stringify_indent (v : JSON) :
  wf v → JSON_parse (JSON_stringify_indent 0 v) = Some v.
Proof.
  intros Hwf. unfold JSON_parse.
  rewrite <- (sapp_nil_r (JSON_stringify_indent 0 v)) at 2.
  rewrite (parse_value_indent (weight v)); [reflexivity|done|done| |done].
  pose proof (weight_le_indent_length (weight v) v 0%nat ltac:(done)). lia.
Qed.

End IndentFacts.

(** ** Export and import *)

Module ExportFacts.

Lemma endsWith_app (a b : string) : endsWith (a +:+ b) b = true.
Proof.
  induction a as [|c a IH].
  - destruct b; simpl; [done|]. by rewrite Ascii.eqb_refl, String.eqb_refl.
  - rewrite JsonFacts.sapp_cons. simpl. rewrite IH. apply orb_true_r.
Qed.

Lemma filter_all {A} (p : A → bool) (l : list A) :
  Forall (fun x => p x = true) l → List.filter p l = l.
Proof. induction 1 as [|x l Hx _ IH]; simpl; [done|]. by rewrite Hx, IH. Qed.

Lemma quote_of_json_quote_json (q : Quote) :
  wf_quote q → quote_of_json (quote_json q) = Some q.
Proof.
  destruct q as [t c ex]. unfold wf_quote, quote_json. simpl.
  intros [Hnd _]. apply NoDup_cons in Hnd as [Ht Hnd]. apply NoDup_cons in Hnd as [Hc _].
  f_equal. f_equal. apply filter_all. apply Forall_forall. intros [k v] Hin.
  simpl. apply negb_true_iff. apply orb_false_iff.
  split; apply String.eqb_neq; intros ->.
  - apply Ht. apply elem_of_cons. right. apply list_elem_of_fmap.
    by exists ("text", v).
  - apply Hc. apply list_elem_of_fmap.
    by exists ("category", v).
Qed.

Lemma isValidQuote_quote_json (q : Quote) : filled q → isValidQuote (quote_json q) = true.
Proof.
  intros [Ht Hc]. apply isValidQuote_spec. eexists _, _, _.
  split; [reflexivity|]. by repeat split.
Qed.


Lemma isValidQuote_filled (q : Quote) :
  isValidQuote (quote_json q) = bool_decide (filled q).
Proof.
  case_bool_decide as Hf; [by apply isValidQuote_quote_json|].
  apply not_true_is_false. intros Hv. apply Hf.
  apply isValidQuote_spec in Hv as (ms & t & c & Hms & Ht & Hc & Htrim).
  unfold quote_json in Hms. injection Hms as <-.
  vm_compute in Ht. vm_compute in Hc. injection Ht as <-. injection Hc as <-. exact Htrim.
Qed.

(** The import filter drops the blank quotes of an exported collection and
    keeps the others as they are. *)
Lemma valid_quotes_of_any_export (Q : list Quote) :
  Forall wf_quote Q →
  omap quote_of_json (List.filter isValidQuote (map quote_json Q))
  = List.filter (fun q => bool_decide (filled q)) Q.
Proof.
  induction 1 as [|q Q Hq _ IH]; [done|].
  cbn [map List.filter]. rewrite isValidQuote_filled.
  destruct (bool_decide (filled q)); [|exact IH].
  change (omap quote_of_json (quote_json q :: List.filter isValidQuote (map quote_json Q)))
    with (match quote_of_json (quote_json q) with
          | Some y => y :: omap quote_of_json (List.filter isValidQuote (map quote_json Q))
          | None => omap quote_of_json (List.filter isValidQuote (map quote_json Q))
          end).
  by rewrite quote_of_json_quote_json, IH.
Qed.


Lemma absent_part (Q S : list Quote) :
  (∀ q, q ∈ S → q ∈ Q) → List.filter (absent (keysOf Q)) S = [].
Proof.
  induction S as [|q S IH]; intros Hsub; simpl; [done|].
  rewrite absent_false_of_elem by apply Hsub, list_elem_of_here.
  apply IH. intros q' Hq'. by apply Hsub, list_elem_of_further.
Qed.

Lemma absent_own (Q : list Quote) : List.filter (absent (keysOf Q)) Q = [].
Proof. by apply absent_part. Qed.

Lemma wf_plain (t c : string) : wf_quote (plain t c).
Proof.
  unfold wf_quote, quote_json. simpl. split; [|done].
  apply (bool_decide_unpack _). by vm_compute.
Qed.

(** What [exportToJsonFile] hands to the browser, and what the import makes
    of it. *)
Lemma export_download (now : string) (app : Page.App) :
  quotes (Page.core app) ≠ [] →
  Page.downloads (Page.exportToJsonFile now app)
  = Page.downloads app
    ++ [("quotes-backup-" +:+ before "T" now +:+ ".json",
         JSON_stringify_indent 0 (quotes_json (quotes (Page.core app))))].
Proof.
  intros Hne. unfold Page.exportToJsonFile.
  destruct (quotes (Page.core app)); [done|]. reflexivity.
Qed.

Lemma export_name (now : string) :
  endsWith ("quotes-backup-" +:+ before "T" now +:+ ".json") ".json" = true.
Proof. rewrite <- JsonFacts.sapp_assoc. apply endsWith_app. Qed.


(** The import of an exported collection, blank quotes included: merged
    into a state that holds the collection, it adds nothing. *)
Lemma import_merge_any_export (Q : list Quote) (st : State) :
  Forall wf_quote Q → quotes st = Q →
  import_onload (JSON_stringify_indent 0 (quotes_json Q)) false st
  = if (length (List.filter (fun q => bool_decide (filled q)) Q) =? 0)%nat then
      alert (ErrorImporting (Error "No valid quotes found in the file")) st
    else
      saveQuotes
        (showNotification
           ("Added 0 new quotes! ("
            +:+ pretty (length (List.filter (fun q => bool_decide (filled q)) Q))
            +:+ " duplicates skipped)")
           (set_quotes Q st)).
Proof.
  intros Hwf Hst.
  unfold import_onload, import_try, parse_or_throw.
  rewrite IndentFacts.JSON_parse_stringify_indent by by apply wf_quotes_json.
  unfold quotes_json. rewrite valid_quotes_of_any_export by done.
  destruct (length _ =? 0)%nat; [reflexivity|].
  rewrite import_merge_quotes, Hst, absent_part.
  - simpl. by rewrite app_nil_r, Nat.sub_0_r.
  - intros q Hq. apply list_elem_of_In, filter_In in Hq. apply list_elem_of_In. tauto.
Qed.

End ExportFacts.




(** X3: importing the exported file back with "merge", into the state it
    was exported from, never changes the collection.  The import filter
    drops the quotes whose text or category is blank and takes every other
    quote for a duplicate: when the collection has a quote that is not
    blank, the notification reports 0 quotes added and their number
    skipped, and no alert is shown; when every quote is blank, the import
    ends with the alert for a file without valid quotes and shows no
    notification. *)
Theorem export_import_merge (now : string) (app : Page.App) :
  quotes (Page.core app) ≠ [] →
  Forall wf_quote (quotes (Page.core app)) →
  ∃ file,
    Page.downloads (Page.exportToJsonFile now app) = Page.downloads app ++ [file]
    ∧ let exported := Page.core (Page.exportToJsonFile now app) in
      let back := importFromJsonFile (Some (mkFile (fst file) (Some (snd file)))) false exported in
      quotes back = quotes (Page.core app)
      ∧ (Exists filled (quotes (Page.core app)) →
         alerts back = alerts (Page.core app)
         ∧ notifications back
           = notifications exported
             ++ ["Added 0 new quotes! ("
                 +:+ pretty (length (List.filter (fun q => bool_decide (filled q))
                                       (quotes (Page.core app))))
                 +:+ " duplicates skipped)"])
      ∧ (Forall (fun q => ¬ filled q) (quotes (Page.core app)) →
         alerts back
         = alerts (Page.core app)
           ++ [ErrorImporting (Error "No valid quotes found in the file")]
         ∧ notifications back = notifications exported).
Proof.
  intros Hne Hwf. eexists.
  split; [by apply ExportFacts.export_download|]. cbn [fst snd]. cbv zeta.
  rewrite importFromJsonFile_onload by apply ExportFacts.export_name.
  assert (Hx : Page.core (Page.exportToJsonFile now app)
               = showNotification "Quotes exported successfully!" (Page.core app)).
  { unfold Page.exportToJsonFile. destruct (quotes (Page.core app)); [done|reflexivity]. }
  rewrite Hx.
  rewrite ExportFacts.import_merge_any_export by done.
  set (kept := List.filter _ _).
  split; [|split].
  - by destruct (length kept =? 0)%nat.
  - intros Hex. destruct (length kept =? 0)%nat eqn:E; [|done].
    exfalso. apply Nat.eqb_eq, length_zero_iff_nil in E.
    apply Exists_exists in Hex as (q & Hq & Hf).
    assert (Hin : q ∈ kept).
    { apply list_elem_of_In, filter_In. split; [by apply list_elem_of_In|].
      by apply bool_decide_eq_true. }
    rewrite E in Hin. by apply elem_of_nil in Hin.
  - intros Hall. destruct (length kept =? 0)%nat eqn:E; [done|].
    exfalso. apply Nat.eqb_neq in E. apply E, length_zero_iff_nil.
    unfold kept. clear -Hall. induction Hall as [|q Q Hq _ IH]; [done|].
    simpl. by rewrite bool_decide_eq_false_2.
Qed.

Lemma export_import_merge_witness :
  (quotes (Page.core (pageOf threeState)) ≠ []
   ∧ Forall wf_quote (quotes (Page.core (pageOf threeState))))
  ∧ ∃ file,
      Page.downloads (Page.exportToJsonFile "2023-11-14T22:13:20.000Z" (pageOf threeState))
      = [file]
      ∧ quotes (importFromJsonFile (Some (mkFile (fst file) (Some (snd file)))) false
                  (Page.core (Page.exportToJsonFile "2023-11-14T22:13:20.000Z"
                                (pageOf threeState))))
        = threeQuotes.
Proof.
  assert (H1 : quotes (Page.core (pageOf threeState)) ≠ []) by done.
  assert (H2 : Forall wf_quote (quotes (Page.core (pageOf threeState)))).
  { repeat (apply Forall_cons_2; [apply ExportFacts.wf_plain|]). apply Forall_nil_2. }
  split; [split; [exact H1|exact H2]|].
  destruct (export_import_merge "2023-11-14T22:13:20.000Z" (pageOf threeState) H1 H2)
    as (file & Hd & Hq & _).
  exists file. split; [exact Hd|exact Hq].
Defined.

(** ** What [JSON.parse] returns *)

Module ParseFacts.

Lemma wf_elements (items : list JSON) :
  fold_right (fun x P => wf x ∧ P) True items ↔ Forall wf items.
Proof.
  induction items as [|x items IH]; simpl; [by split; [constructor|]|].
  rewrite Forall_cons. tauto.
Qed.

Lemma wf_members (ms : list (string * JSON)) :
  fold_right (fun kv P => wf (snd kv) ∧ P) True ms ↔ Forall (fun kv => wf (snd kv)) ms.
Proof.
  induction ms as [|x ms IH]; simpl; [by split; [constructor|]|].
  rewrite Forall_cons. tauto.
Qed.

Lemma set_member_keys (k : string) (v : JSON) (ms : list (string * JSON)) :
  map fst (set_member k v ms)
  = if bool_decide (k ∈ map fst ms) then map fst ms else map fst ms ++ [k].
Proof.
  induction ms as [|[k' v'] ms IH]; simpl; [done|].
  destruct (String.eqb_spec k k') as [->|Hne].
  - rewrite bool_decide_eq_true_2 by apply list_elem_of_here. done.
  - simpl. rewrite IH. case_bool_decide as H1; case_bool_decide as H2; try done.
    + destruct H2. by apply list_elem_of_further.
    + apply elem_of_cons in H2 as [?|?]; done.
Qed.

Lemma set_member_wf (k : string) (v : JSON) (ms : list (string * JSON)) :
  wf v → wf (JObj ms) → wf (JObj (set_member k v ms)).
Proof.
  intros Hv [Hnd Hms]. split.
  - rewrite set_member_keys. case_bool_decide as Hk; [done|].
    apply NoDup_app. split; [done|]. split; [|apply NoDup_singleton].
    intros x Hx ->%list_elem_of_singleton. done.
  - apply wf_members. apply wf_members in Hms. clear Hnd.
    induction ms as [|[k' v'] ms IH]; simpl.
    + by repeat constructor.
    + apply Forall_cons in Hms as [Hx Hms].
      destruct (String.eqb k k'); constructor; auto.
Qed.

Lemma object_of_wf (ms : list (string * JSON)) :
  Forall (fun kv => wf (snd kv)) ms → wf (object_of ms).
Proof.
  unfold object_of. intros Hms.
  assert (H : ∀ acc, wf (JObj acc) →
            wf (JObj (fold_left (fun acc kv => set_member (fst kv) (snd kv) acc) ms acc))).
  { induction Hms as [|kv ms Hkv _ IH]; intros acc Hacc; simpl; [done|].
    apply IH. by apply set_member_wf. }
  apply H. split; [constructor|done].
Qed.

Lemma parse_number_wf (s : string) (v : JSON) (r : string) :
  parse_number s = Some (v, r) → wf v.
Proof.
  unfold parse_number.
  destruct (match s with String c r0 => _ | EmptyString => _ end) as [neg s1].
  destruct (parse_int_part s1) as [[m s2]|]; simpl; [|done].
  destruct (parse_frac_part m s2) as [[[m' e1] s3]|]; simpl; [|done].
  destruct (parse_exp_part s3) as [[e2 s4]|]; simpl; [|done].
  by intros [= <- <-].
Qed.

Lemma parse_value_eq (fuel : nat) (s : string) :
  parse_value (S fuel) s
  = match skip_ws s with
    | EmptyString => None
    | String c r =>
        if (c =? "n")%char then r' ← strip_prefix "ull" r; Some (JNull, r')
        else if (c =? "t")%char then r' ← strip_prefix "rue" r; Some (JBool true, r')
        else if (c =? "f")%char then r' ← strip_prefix "alse" r; Some (JBool false, r')
        else if (code c =? DQUOTE)%nat then
          '(t, r') ← parse_string_body r; Some (JStr t, r')
        else if (c =? "[")%char then
          match skip_ws r with
          | String c1 r1 =>
              if (c1 =? "]")%char then Some (JArr [], r1)
              else '(l, r') ← parse_elements fuel r; Some (JArr l, r')
          | EmptyString => None
          end
        else if (c =? "{")%char then
          match skip_ws r with
          | String c1 r1 =>
              if (c1 =? "}")%char then Some (JObj [], r1)
              else '(ms, r') ← parse_members fuel r; Some (object_of ms, r')
          | EmptyString => None
          end
        else parse_number (String c r)
    end.
Proof. reflexivity. Qed.

Lemma parse_members_skip_eq (fuel : nat) (s : string) :
  parse_members (S fuel) s
  = match skip_ws s with
    | String q r => if (code q =? DQUOTE)%nat then parse_members (S fuel) (String q r) else None
    | EmptyString => None
    end.
Proof.
  induction s as [|c s IH]; [done|].
  destruct (is_ws c) eqn:E.
  - rewrite IndentFacts.parse_members_ws by done. rewrite IH. simpl skip_ws. by rewrite E.
  - simpl skip_ws. rewrite E. destruct (code c =? DQUOTE)%nat eqn:Eq; [done|].
    simpl. by rewrite E, Eq.
Qed.

Lemma parse_wf (fuel : nat) :
  (∀ s v r, parse_value fuel s = Some (v, r) → wf v)
  ∧ (∀ s l r, parse_elements fuel s = Some (l, r) → Forall wf l)
  ∧ (∀ s ms r, parse_members fuel s = Some (ms, r) → Forall (fun kv => wf (snd kv)) ms).
Proof.
  induction fuel as [|fuel (IHv & IHe & IHm)]; [by repeat split|].
  split; [|split].
  - intros s v r. rewrite parse_value_eq. destruct (skip_ws s) as [|c r0]; [done|].
    destruct (c =? "n")%char.
    { destruct (strip_prefix _ _); simpl; [|done]. by intros [= <- <-]. }
    destruct (c =? "t")%char.
    { destruct (strip_prefix _ _); simpl; [|done]. by intros [= <- <-]. }
    destruct (c =? "f")%char.
    { destruct (strip_prefix _ _); simpl; [|done]. by intros [= <- <-]. }
    destruct (code c =? DQUOTE)%nat.
    { destruct (parse_string_body _) as [[t r']|]; simpl; [|done]. by intros [= <- <-]. }
    destruct (c =? "[")%char.
    { destruct (skip_ws r0) as [|c1 r1]; [done|].
      destruct (c1 =? "]")%char; [by intros [= <- <-]|].
      destruct (parse_elements fuel r0) as [[l r']|] eqn:E; simpl; [|done].
      intros [= <- <-]. apply wf_elements. by apply IHe in E. }
    destruct (c =? "{")%char.
    { destruct (skip_ws r0) as [|c1 r1]; [done|].
      destruct (c1 =? "}")%char; [intros [= <- <-]; split; [constructor|done]|].
      destruct (parse_members fuel r0) as [[ms r']|] eqn:E; simpl; [|done].
      intros [= <- <-]. apply object_of_wf. by apply IHm in E. }
    apply parse_number_wf.
  - intros s l r. rewrite JsonFacts.parse_elements_eq.
    destruct (parse_value fuel s) as [[v r0]|] eqn:E; simpl; [|done].
    apply IHv in E.
    destruct (skip_ws r0) as [|c r1]; [done|].
    destruct (c =? ",")%char.
    { destruct (parse_elements fuel r1) as [[l' r']|] eqn:E'; simpl; [|done].
      intros [= <- <-]. constructor; [done|]. by apply IHe in E'. }
    destruct (c =? "]")%char; [|done].
    intros [= <- <-]. by repeat constructor.
  - intros s ms r. rewrite parse_members_skip_eq. destruct (skip_ws s) as [|q r0]; [done|].
    destruct (code q =? DQUOTE)%nat eqn:Eq; [|done].
    assert (q = chr DQUOTE) as ->.
    { apply Nat.eqb_eq in Eq. unfold code in Eq. by rewrite <- (ascii_nat_embedding q), Eq. }
    rewrite JsonFacts.parse_members_eq.
    destruct (parse_string_body r0) as [[k r1]|]; simpl; [|done].
    destruct (skip_ws r1) as [|c r2]; [done|].
    destruct (c =? ":")%char; [|done].
    destruct (parse_value fuel r2) as [[v r3]|] eqn:E; simpl; [|done].
    apply IHv in E.
    destruct (skip_ws r3) as [|c' r4]; [done|].
    destruct (c' =? ",")%char.
    { destruct (parse_members fuel r4) as [[ms' r']|] eqn:E'; simpl; [|done].
      intros [= <- <-]. constructor; [done|]. by apply IHm in E'. }
    destruct (c' =? "}")%char; [|done].
    intros [= <- <-]. by repeat constructor.
Qed.

(** What [JSON.parse] returns names no member twice. *)
Lemma JSON_parse_wf (s : string) (v : JSON) : JSON_parse s = Some v → wf v.
Proof.
  unfold JSON_parse.
  destruct (parse_value _ s) as [[v' r]|] eqn:E; simpl; [|done].
  destruct (skip_ws r); [|done]. intros [= <-].
  by apply (proj1 (parse_wf _)) in E.
Qed.

End ParseFacts.

(** ** Showing a quote on the page *)

Module ShowFacts.
Import Page.

Lemma objects_lookup (Q : list Quote) (i : nat) :
  objects Q !! i = Picker.mkObj i <$> Q !! i.
Proof. unfold objects. apply list_lookup_imap. Qed.

Lemma objects_length (Q : list Quote) : length (objects Q) = length Q.
Proof. unfold objects. apply length_imap. Qed.

Lemma elem_of_objects (Q : list Quote) (x : Picker.Obj) :
  x ∈ objects Q ↔ Q !! Picker.ref x = Some (Picker.members x).
Proof.
  rewrite list_elem_of_lookup. split.
  - intros [i Hi]. rewrite objects_lookup in Hi.
    destruct (Q !! i) as [q|] eqn:E; [|done]. injection Hi as <-. done.
  - intros H. exists (Picker.ref x). rewrite objects_lookup, H. by destruct x.
Qed.

Lemma indexOf_imap (k : nat) (Q : list Quote) (i : nat) (q : Quote) :
  Q !! i = Some q →
  Picker.indexOf (imap (fun j => Picker.mkObj (k + j)) Q) (Picker.mkObj (k + i) q) = Z.of_nat i.
Proof.
  revert k i. induction Q as [|x Q IH]; intros k i Hi; [done|].
  simpl. destruct i as [|i].
  - by rewrite Nat.eqb_refl.
  - simpl in Hi. destruct (Nat.eqb_spec (k + 0) (k + S i)) as [?|_]; [lia|].
    rewrite (imap_ext _ (fun j => Picker.mkObj (S k + j))).
    2:{ intros j y _. simpl. f_equal. lia. }
    replace (k + S i)%nat with (S k + i)%nat by lia.
    rewrite IH by done.
    destruct (Z.ltb_spec (Z.of_nat i) 0); lia.
Qed.

(** The position of an element is what [indexOf] answers for it. *)
Lemma indexOf_objects (Q : list Quote) (i : nat) (q : Quote) :
  Q !! i = Some q → Picker.indexOf (objects Q) (Picker.mkObj i q) = Z.of_nat i.
Proof. intros H. by apply (indexOf_imap 0). Qed.

Lemma elem_of_filterBy (selectedCategory : string) (Q : list Quote) (x : Picker.Obj) :
  x ∈ Picker.filterBy selectedCategory (objects Q) ↔
  Q !! Picker.ref x = Some (Picker.members x)
  ∧ (selectedCategory = "all" ∨ category (Picker.members x) = selectedCategory).
Proof.
  unfold Picker.filterBy. destruct (String.eqb_spec selectedCategory "all") as [->|Hne].
  - rewrite elem_of_objects. tauto.
  - rewrite list_elem_of_In, filter_In, <- list_elem_of_In, elem_of_objects.
    rewrite String.eqb_eq. tauto.
Qed.

(** The pool is empty exactly when no quote has the selected category
    (when the collection is empty, for [all]). *)
Lemma pool_empty (selectedCategory : string) (Q : list Quote) :
  Picker.filterBy selectedCategory (objects Q) = [] ↔
  ∀ q, q ∈ Q → selectedCategory ≠ "all" ∧ category q ≠ selectedCategory.
Proof.
  split.
  - intros Hnil q Hq. apply list_elem_of_lookup in Hq as [i Hi].
    assert (Hx : Picker.mkObj i q ∉ Picker.filterBy selectedCategory (objects Q)).
    { rewrite Hnil. apply not_elem_of_nil. }
    rewrite elem_of_filterBy in Hx. simpl in Hx.
    split; intros E; apply Hx; auto.
  - intros H. destruct (Picker.filterBy selectedCategory (objects Q)) as [|x l] eqn:E; [done|].
    assert (Hx : x ∈ Picker.filterBy selectedCategory (objects Q)).
    { rewrite E. apply list_elem_of_here. }
    apply elem_of_filterBy in Hx as [Hm Hc].
    apply list_elem_of_lookup_2 in Hm. destruct (H _ Hm) as [H1 H2]. by destruct Hc.
Qed.

Lemma displayQuote_quote (q : Quote) (app : App) :
  displayQuote (Some (quote_json q)) app
  = (Ok tt, set_quoteDisplay (QuoteShown (quote_json q)) app).
Proof. reflexivity. Qed.

(** How a run of [showRandomQuote] that ends leaves the page. *)
Lemma showRandomQuote_done (draws : list Picker.Draw) (app app' : App) :
  showRandomQuote draws app = Done app' →
  (Picker.filterBy (value (categoryFilter app)) (objects (quotes (core app))) = []
   ∧ app' = set_quoteDisplay EmptyCategory app)
  ∨ (∃ (i : nat) (q : Quote),
       quotes (core app) !! i = Some q
       ∧ (value (categoryFilter app) = "all" ∨ category q = value (categoryFilter app))
       ∧ app' = saveLastQuote (Some (Picker.mkObj i q))
                  (set_quoteDisplay (QuoteShown (quote_json q))
                     (set_lastQuoteIndex (Z.of_nat i) app))).
Proof.
  unfold showRandomQuote, Picker.showRandomQuote. cbn [Picker.quotes Picker.lastQuoteIndex].
  set (pool := Picker.filterBy _ _).
  destruct (length pool =? 0)%nat eqn:E0.
  { intros [= <-]. left. split; [|done].
    apply Nat.eqb_eq in E0. by destruct pool. }
  apply Nat.eqb_neq in E0.
  destruct (if (length pool =? 1)%nat then Some O else _) as [randomIndex|] eqn:Ei; simpl; [|done].
  assert (Hlt : (randomIndex < length pool)%nat).
  { destruct (length pool =? 1)%nat eqn:E1.
    - injection Ei as <-. lia.
    - apply PickerFacts.draw_index_sound in Ei; [tauto|lia]. }
  destruct (pool !! randomIndex) as [x|] eqn:Hx; [|apply lookup_ge_None in Hx; lia].
  cbn [fmap option_fmap option_map compose]. rewrite displayQuote_quote.
  intros [= <-]. right.
  assert (Hin : x ∈ pool) by by apply list_elem_of_lookup_2 in Hx.
  apply elem_of_filterBy in Hin as [Hm Hc].
  exists (Picker.ref x), (Picker.members x). split; [done|]. split; [done|].
  destruct x as [i q]. simpl in *. by rewrite indexOf_objects.
Qed.

(** [showRandomQuote] raises nothing. *)
Lemma showRandomQuote_not_raised (draws : list Picker.Draw) (app : App) :
  (∃ app', showRandomQuote draws app = Done app') ∨ showRandomQuote draws app = Spinning.
Proof.
  unfold showRandomQuote, Picker.showRandomQuote. cbn [Picker.quotes Picker.lastQuoteIndex].
  set (pool := Picker.filterBy _ _).
  destruct (length pool =? 0)%nat eqn:E0; [left; by eexists|].
  apply Nat.eqb_neq in E0.
  destruct (if (length pool =? 1)%nat then Some O else _) as [randomIndex|] eqn:Ei; simpl; [|by right].
  assert (Hlt : (randomIndex < length pool)%nat).
  { destruct (length pool =? 1)%nat eqn:E1.
    - injection Ei as <-. lia.
    - apply PickerFacts.draw_index_sound in Ei; [tauto|lia]. }
  destruct (pool !! randomIndex) as [x|] eqn:Hx; [|apply lookup_ge_None in Hx; lia].
  cbn [fmap option_fmap option_map compose]. rewrite displayQuote_quote.
  left. by eexists.
Qed.

(** With nothing shown before, the first draw ends the loop. *)
Lemma showRandomQuote_first (draws : list Picker.Draw) (app : App) :
  lastQuoteIndex app = -1 →
  draws ≠ [] ∨ (length (Picker.filterBy (value (categoryFilter app))
                          (objects (quotes (core app)))) ≤ 1)%nat →
  ∃ app', showRandomQuote draws app = Done app'.
Proof.
  intros Hlast Hdraws.
  destruct (showRandomQuote_not_raised draws app) as [H|H]; [done|]. exfalso.
  revert H. unfold showRandomQuote, Picker.showRandomQuote.
  cbn [Picker.quotes Picker.lastQuoteIndex]. rewrite Hlast.
  set (pool := Picker.filterBy _ _) in *.
  destruct (length pool =? 0)%nat eqn:E0; [done|]. apply Nat.eqb_neq in E0.
  destruct (length pool =? 1)%nat eqn:E1.
  { simpl. destruct (pool !! 0%nat); [|done].
    cbn [fmap option_fmap option_map compose]. by rewrite displayQuote_quote. }
  apply Nat.eqb_neq in E1. destruct Hdraws as [Hd|Hd]; [|lia].
  destruct draws as [|d draws]; [done|].
  simpl Picker.draw_index.
  destruct (pool !! Picker.floor_times d (length pool)) as [x|] eqn:Hx.
  - simpl. rewrite Hx. cbn [fmap option_fmap option_map compose].
    by rewrite displayQuote_quote.
  - apply lookup_ge_None in Hx.
    pose proof (PickerFacts.floor_times_lt d (length pool)). lia.
Qed.

Lemma objects_NoDup (Q : list Quote) : NoDup (objects Q).
Proof.
  apply NoDup_alt. intros i j x Hi Hj. rewrite objects_lookup in Hi, Hj.
  destruct (Q !! i); [|done]. destruct (Q !! j); [|done].
  injection Hi as <-. by injection Hj as ->.
Qed.

Lemma pool_NoDup (selectedCategory : string) (Q : list Quote) :
  NoDup (Picker.filterBy selectedCategory (objects Q)).
Proof.
  unfold Picker.filterBy. destruct (String.eqb _ _); [apply objects_NoDup|].
  apply NoDup_ListNoDup, List.NoDup_filter, NoDup_ListNoDup, objects_NoDup.
Qed.

(** The run ends as soon as a draw falls on an element that is not the
    object shown last. *)
Lemma showRandomQuote_ends_on (draws : list Picker.Draw) (app : App) :
  (∃ d, d ∈ draws
        ∧ Picker.strict_eq
            (Picker.filterBy (value (categoryFilter app)) (objects (quotes (core app)))
               !! Picker.floor_times d
                    (length (Picker.filterBy (value (categoryFilter app))
                               (objects (quotes (core app))))))
            (Picker.at_index (objects (quotes (core app))) (lastQuoteIndex app)) = false) →
  ∃ app', showRandomQuote draws app = Done app'.
Proof.
  intros Hd.
  destruct (showRandomQuote_not_raised draws app) as [H|H]; [done|]. exfalso.
  revert H. unfold showRandomQuote, Picker.showRandomQuote.
  cbn [Picker.quotes Picker.lastQuoteIndex].
  set (pool := Picker.filterBy _ _) in *.
  destruct (length pool =? 0)%nat eqn:E0; [done|]. apply Nat.eqb_neq in E0.
  destruct (length pool =? 1)%nat eqn:E1.
  { simpl. destruct (pool !! 0%nat); [|done].
    cbn [fmap option_fmap option_map compose]. by rewrite displayQuote_quote. }
  apply PickerFacts.draw_index_total in Hd as [i Hi]. rewrite Hi.
  apply PickerFacts.draw_index_sound in Hi as [Hlt _]; [|lia].
  destruct (pool !! i) as [x|] eqn:Hx; [|apply lookup_ge_None in Hx; lia].
  simpl. rewrite Hx. cbn [fmap option_fmap option_map compose].
  by rewrite displayQuote_quote.
Qed.

(** Whatever was shown last, some value of [Math.random] ends the run at
    the first draw. *)
Lemma showRandomQuote_ends (app : App) :
  ∃ d, ∀ rest, ∃ app', showRandomQuote (d :: rest) app = Done app'.
Proof.
  set (pool := Picker.filterBy (value (categoryFilter app)) (objects (quotes (core app)))).
  set (last := Picker.at_index (objects (quotes (core app))) (lastQuoteIndex app)).
  assert (Hi : ∃ i, (2 ≤ length pool)%nat →
                    (i < length pool)%nat ∧ Picker.strict_eq (pool !! i) last = false).
  { destruct pool as [|x [|y pool']] eqn:Hp; [exists O; simpl; lia|exists O; simpl; lia|].
    destruct (Picker.strict_eq (Some x) last) eqn:Ex.
    - exists 1%nat. intros _. split; [simpl; lia|]. simpl.
      destruct (Picker.strict_eq (Some y) last) eqn:Ey; [|done]. exfalso.
      pose proof (pool_NoDup (value (categoryFilter app)) (quotes (core app))) as Hnd.
      fold pool in Hnd. rewrite Hp in Hnd.
      assert (Hx : x ∈ pool) by (rewrite Hp; apply list_elem_of_here).
      assert (Hy : y ∈ pool) by (rewrite Hp; apply list_elem_of_further, list_elem_of_here).
      apply elem_of_filterBy in Hx as [Hx _]. apply elem_of_filterBy in Hy as [Hy _].
      destruct last as [l|]; [|done]. simpl in Ex, Ey.
      apply Nat.eqb_eq in Ex, Ey. rewrite <- Ey in Ex.
      destruct x as [rx mx], y as [ry my]. simpl in *. subst ry.
      assert (mx = my) by congruence. subst my.
      apply NoDup_cons in Hnd as [Hnd _]. apply Hnd, list_elem_of_here.
    - exists O. intros _. split; [simpl; lia|done]. }
  destruct Hi as [i Hi].
  exists (Picker.mkDraw i (length pool - i - 1)). intros rest.
  destruct (le_lt_dec 2 (length pool)) as [Hlen|Hlen].
  - destruct (Hi Hlen) as [Hlt Hne].
    apply showRandomQuote_ends_on. eexists. split; [apply list_elem_of_here|].
    fold pool. fold last. by rewrite PickerFacts.floor_times_hits.
  - destruct (showRandomQuote_not_raised (Picker.mkDraw i (length pool - i - 1) :: rest) app)
      as [H|H]; [done|]. exfalso.
    revert H. unfold showRandomQuote, Picker.showRandomQuote.
    cbn [Picker.quotes Picker.lastQuoteIndex]. fold pool.
    destruct (length pool =? 0)%nat eqn:E0; [done|]. apply Nat.eqb_neq in E0.
    destruct (length pool =? 1)%nat eqn:E1; [|apply Nat.eqb_neq in E1; lia].
    simpl. destruct (pool !! 0%nat) eqn:Hx; [|apply lookup_ge_None in Hx; lia].
    cbn [fmap option_fmap option_map compose]. by rewrite displayQuote_quote.
Qed.

End ShowFacts.

(** ** Adding a quote *)

Module AddFacts.
Import Page.

(** [showRandomQuote] touches the display, [lastQuoteIndex] and the
    session store only. *)
Lemma showRandomQuote_keeps (draws : list Picker.Draw) (app app' : App) :
  showRandomQuote draws app = Done app' →
  core app' = core app ∧ categoryFilter app' = categoryFilter app
  ∧ stats app' = stats app ∧ dialogs app' = dialogs app ∧ downloads app' = downloads app
  ∧ autoSyncInterval app' = autoSyncInterval app ∧ liveTimers app' = liveTimers app
  ∧ syncsBegun app' = syncsBegun app ∧ toggleLabel app' = toggleLabel app
  ∧ lastSyncElement app' = lastSyncElement app
  ∧ serverCountElement app' = serverCountElement app.
Proof.
  intros H. apply ShowFacts.showRandomQuote_done in H as [[_ ->]|(i & q & _ & _ & ->)];
    by repeat split.
Qed.

Lemma populateCategories_option (app : App) (q : Quote) :
  q ∈ quotes (core app) → category q ∈ options (categoryFilter (populateCategories app)).
Proof.
  intros Hq. unfold populateCategories. simpl.
  assert (Hin : category q ∈ "all" :: sort (categoriesOf (quotes (core app)))).
  { apply list_elem_of_further, PageFacts.elem_of_sort, PageFacts.elem_of_categoriesOf. eauto. }
  by case_bool_decide.
Qed.

Lemma trimStart_blank (s : string) :
  Forall (fun a => ws1 a = true) (list_ascii_of_string s) → trimStart s = EmptyString.
Proof.
  induction s as [|a s IH]; [done|]. simpl. intros H.
  apply Forall_cons in H as [Ha H]. rewrite Ha. by apply IH.
Qed.

End AddFacts.

(** X4: [addQuote] refuses a text or a category that is blank after
    [trim], as any string made of spaces, tabs and line breaks is: it shows
    its alert and leaves everything else as it was. *)
Theorem addQuote_rejects_blank (quoteText quoteCategory : string)
    (draws : list Picker.Draw) (app : Page.App) :
  trim quoteText = EmptyString ∨ trim quoteCategory = EmptyString →
  (∃ app',
     Page.addQuote quoteText quoteCategory draws app = Page.Done app'
     ∧ Page.dialogs app' = Page.dialogs app ++ ["Please fill in both the quote text and category!"]
     ∧ Page.core app' = Page.core app
     ∧ Page.categoryFilter app' = Page.categoryFilter app
     ∧ Page.quoteDisplay app' = Page.quoteDisplay app
     ∧ Page.lastQuoteIndex app' = Page.lastQuoteIndex app)
  ∧ ∀ s, Forall (fun a => ws1 a = true) (list_ascii_of_string s) → trim s = EmptyString.
Proof.
  intros Hblank. split.
  - eexists. split.
    { unfold Page.addQuote. destruct Hblank as [-> | ->]; [done|].
      by rewrite orb_true_r. }
    by repeat split.
  - intros s Hs. unfold trim. by rewrite AddFacts.trimStart_blank.
Qed.

Lemma addQuote_rejects_blank_witness :
  (trim "   " = EmptyString ∨ trim "Wisdom" = EmptyString)
  ∧ ∃ app',
      Page.addQuote "   " "Wisdom" [] (pageOf threeState) = Page.Done app'
      ∧ Page.dialogs app' = ["Please fill in both the quote text and category!"]
      ∧ Page.core app' = threeState.
Proof.
  assert (H : trim "   " = EmptyString ∨ trim "Wisdom" = EmptyString) by (left; reflexivity).
  split; [exact H|].
  destruct (addQuote_rejects_blank "   " "Wisdom" [] (pageOf threeState) H)
    as [(app' & Hr & Hd & Hc & _) _].
  exists app'. split; [exact Hr|]. split; [exact Hd|exact Hc].
Defined.

(** X5: with a text and a category that are not blank, [addQuote] appends
    the quote made of the two trimmed strings, also when the collection
    already holds such a quote, and stores the collection; the dropdown
    then lists the category, selects it, and the category is stored as the
    last one selected.  The notification names the category when no quote
    had it before.  One value of [Math.random] is enough for the quote shown
    at the end. *)
Theorem addQuote_appends (quoteText quoteCategory : string)
    (draws : list Picker.Draw) (app : Page.App) :
  trim quoteText ≠ EmptyString →
  trim quoteCategory ≠ EmptyString →
  draws ≠ [] →
  ∃ app',
    Page.addQuote quoteText quoteCategory draws app = Page.Done app'
    ∧ quotes (Page.core app')
      = quotes (Page.core app) ++ [plain (trim quoteText) (trim quoteCategory)]
    ∧ stored (Page.core app')
    ∧ getItem Page.LAST_CATEGORY_KEY (Page.core app') = Some (trim quoteCategory)
    ∧ Page.value (Page.categoryFilter app') = trim quoteCategory
    ∧ trim quoteCategory ∈ Page.options (Page.categoryFilter app')
    ∧ notifications (Page.core app')
      = notifications (Page.core app)
        ++ [if bool_decide (trim quoteCategory ∈ map category (quotes (Page.core app)))
            then "Quote added successfully!"
            else "Quote added with new category " +:+ str1 DQUOTE +:+ trim quoteCategory
                 +:+ str1 DQUOTE +:+ "!"]
    ∧ Page.dialogs app' = Page.dialogs app.
Proof.
  intros Ht Hc Hdraws. unfold Page.addQuote.
  rewrite (proj2 (String.eqb_neq _ _) Ht), (proj2 (String.eqb_neq _ _) Hc).
  cbn [orb]. cbv zeta.
  set (added := Page.onCore _ app).
  set (ready := Page.saveLastSelectedCategory _ _).
  assert (Hq : quotes (Page.core added)
               = quotes (Page.core app) ++ [plain (trim quoteText) (trim quoteCategory)])
    by reflexivity.
  assert (Hopt : trim quoteCategory ∈ Page.options (Page.categoryFilter (Page.populateCategories added))).
  { apply (AddFacts.populateCategories_option added (plain (trim quoteText) (trim quoteCategory))).
    rewrite Hq. apply elem_of_app. right. apply list_elem_of_here. }
  assert (Hsel : Page.categoryFilter ready
                 = Page.mkSelect (trim quoteCategory)
                     (Page.options (Page.categoryFilter (Page.populateCategories added)))).
  { unfold ready. simpl. by apply PageFacts.setValue_elem. }
  destruct (ShowFacts.showRandomQuote_first draws ready) as [app8 H8]; [done|by left|].
  rewrite H8. eexists. split; [reflexivity|].
  apply AddFacts.showRandomQuote_keeps in H8 as (Hcore & Hfilter & _ & Hdialogs & _).
  assert (Hc8 : ∀ app0, Page.core (Page.updateFilteredStats (trim quoteCategory) app0)
                        = Page.core app0).
  { intros app0. unfold Page.updateFilteredStats. by destruct (String.eqb _ _). }
  assert (Hf8 : ∀ app0, Page.categoryFilter (Page.updateFilteredStats (trim quoteCategory) app0)
                        = Page.categoryFilter app0).
  { intros app0. unfold Page.updateFilteredStats. by destruct (String.eqb _ _). }
  assert (Hd8 : ∀ app0, Page.dialogs (Page.updateFilteredStats (trim quoteCategory) app0)
                        = Page.dialogs app0).
  { intros app0. unfold Page.updateFilteredStats. by destruct (String.eqb _ _). }
  rewrite Hc8, Hf8, Hd8, Hcore, Hfilter, Hdialogs, Hsel.
  split; [done|]. split.
  { unfold stored, ready. simpl. unfold save. by simplify_map_eq. }
  split; [unfold ready, getItem; simpl; by simplify_map_eq|].
  split; [done|]. split; [done|]. split; [|done].
  unfold ready. simpl. do 2 f_equal.
  assert (Hiff : trim quoteCategory ∈ Page.categoriesOf (quotes (Page.core app))
                 ↔ trim quoteCategory ∈ map category (quotes (Page.core app))).
  { unfold Page.categoriesOf. apply PageFacts.elem_of_set_of. }
  do 2 case_bool_decide; tauto.
Qed.

Lemma addQuote_appends_witness :
  (trim " Carpe diem. " ≠ EmptyString ∧ trim "Motto" ≠ EmptyString
   ∧ [Picker.mkDraw 1 0] ≠ [])
  ∧ ∃ app',
      Page.addQuote " Carpe diem. " "Motto" [Picker.mkDraw 1 0] (pageOf threeState)
      = Page.Done app'
      ∧ quotes (Page.core app') = threeQuotes ++ [plain "Carpe diem." "Motto"]
      ∧ Page.value (Page.categoryFilter app') = "Motto".
Proof.
  assert (H1 : trim " Carpe diem. " ≠ EmptyString) by (vm_compute; discriminate).
  assert (H2 : trim "Motto" ≠ EmptyString) by (vm_compute; discriminate).
  assert (H3 : [Picker.mkDraw 1 0] ≠ []) by discriminate.
  split; [by repeat split|].
  destruct (addQuote_appends " Carpe diem. " "Motto" [Picker.mkDraw 1 0] (pageOf threeState)
              H1 H2 H3) as (app' & Hr & Hq & _ & _ & Hv & _).
  exists app'. split; [exact Hr|]. split; [exact Hq|exact Hv].
Defined.

(** X6: the quote [addQuote] shows at the end is a quote of the category
    just entered (any quote, when the category is spelled [all]), not
    necessarily the one just added; it is the one just added when its
    category is new.  [lastQuoteIndex] is the position of the quote shown
    and the session store holds its text. *)
Theorem addQuote_shows (quoteText quoteCategory : string)
    (draws : list Picker.Draw) (app : Page.App) :
  trim quoteText ≠ EmptyString →
  trim quoteCategory ≠ EmptyString →
  draws ≠ [] →
  ∃ app' (i : nat) (q : Quote),
    Page.addQuote quoteText quoteCategory draws app = Page.Done app'
    ∧ Page.quoteDisplay app' = Page.QuoteShown (quote_json q)
    ∧ Page.lastQuoteIndex app' = Z.of_nat i
    ∧ quotes (Page.core app') !! i = Some q
    ∧ (trim quoteCategory = "all" ∨ category q = trim quoteCategory)
    ∧ Page.sessionStorage app' !! Page.LAST_QUOTE_KEY = Some (JSON_stringify (quote_json q))
    ∧ (trim quoteCategory ∉ map category (quotes (Page.core app)) →
       trim quoteCategory ≠ "all" →
       q = plain (trim quoteText) (trim quoteCategory) ∧ i = length (quotes (Page.core app))).
Proof.
  intros Ht Hc Hdraws. unfold Page.addQuote.
  rewrite (proj2 (String.eqb_neq _ _) Ht), (proj2 (String.eqb_neq _ _) Hc).
  cbn [orb]. cbv zeta.
  set (added := Page.onCore _ app).
  set (ready := Page.saveLastSelectedCategory _ _).
  set (new := plain (trim quoteText) (trim quoteCategory)).
  assert (Hq : quotes (Page.core ready) = quotes (Page.core app) ++ [new]) by reflexivity.
  assert (Hopt : trim quoteCategory
                 ∈ Page.options (Page.categoryFilter (Page.populateCategories added))).
  { apply (AddFacts.populateCategories_option added new).
    apply elem_of_app. right. apply list_elem_of_here. }
  assert (Hsel : Page.value (Page.categoryFilter ready) = trim quoteCategory).
  { assert (Hf : Page.categoryFilter ready
                  = Page.mkSelect (trim quoteCategory)
                      (Page.options (Page.categoryFilter (Page.populateCategories added)))).
    { unfold ready. simpl. by apply PageFacts.setValue_elem. }
    by rewrite Hf. }
  destruct (ShowFacts.showRandomQuote_first draws ready) as [app8 H8]; [done|by left|].
  rewrite H8.
  apply ShowFacts.showRandomQuote_done in H8 as [[Hnil _]|(i & q & Hi & Hcat & ->)].
  { exfalso. rewrite ShowFacts.pool_empty in Hnil. destruct (Hnil new) as [_ Hne].
    - rewrite Hq. apply elem_of_app. right. apply list_elem_of_here.
    - by rewrite Hsel in Hne. }
  rewrite Hsel in Hcat.
  exists (Page.updateFilteredStats (trim quoteCategory)
            (Page.saveLastQuote (Some (Picker.mkObj i q))
               (Page.set_quoteDisplay (Page.QuoteShown (quote_json q))
                  (Page.set_lastQuoteIndex (Z.of_nat i) ready)))), i, q.
  split; [reflexivity|].
  assert (Hkeep : ∀ app0,
            Page.quoteDisplay (Page.updateFilteredStats (trim quoteCategory) app0)
            = Page.quoteDisplay app0
            ∧ Page.lastQuoteIndex (Page.updateFilteredStats (trim quoteCategory) app0)
              = Page.lastQuoteIndex app0
            ∧ Page.core (Page.updateFilteredStats (trim quoteCategory) app0) = Page.core app0
            ∧ Page.sessionStorage (Page.updateFilteredStats (trim quoteCategory) app0)
              = Page.sessionStorage app0).
  { intros app0. unfold Page.updateFilteredStats. by destruct (String.eqb _ _). }
  destruct (Hkeep (Page.saveLastQuote (Some (Picker.mkObj i q))
               (Page.set_quoteDisplay (Page.QuoteShown (quote_json q))
                  (Page.set_lastQuoteIndex (Z.of_nat i) ready)))) as (-> & -> & -> & ->).
  split; [done|]. split; [done|]. split; [done|]. split; [done|].
  split; [simpl; by simplify_map_eq|].
  intros Hnew Hnall. destruct Hcat as [?|Hcat]; [done|].
  rewrite Hq in Hi. apply lookup_app_Some in Hi as [Hi|[Hlen Hi]].
  - exfalso. apply Hnew, list_elem_of_fmap. exists q. split; [done|].
    by apply list_elem_of_lookup_2 in Hi.
  - destruct (i - length (quotes (Page.core app)))%nat as [|n] eqn:E; [|by destruct n].
    injection Hi as <-. split; [done|lia].
Qed.

Lemma addQuote_shows_witness :
  (trim " Carpe diem. " ≠ EmptyString ∧ trim "Motto" ≠ EmptyString
   ∧ [Picker.mkDraw 1 0] ≠ [])
  ∧ ∃ app',
      Page.addQuote " Carpe diem. " "Motto" [Picker.mkDraw 1 0] (pageOf threeState)
      = Page.Done app'
      ∧ Page.quoteDisplay app' = Page.QuoteShown (quote_json (plain "Carpe diem." "Motto"))
      ∧ Page.lastQuoteIndex app' = 3.
Proof.
  assert (H1 : trim " Carpe diem. " ≠ EmptyString) by (vm_compute; discriminate).
  assert (H2 : trim "Motto" ≠ EmptyString) by (vm_compute; discriminate).
  assert (H3 : [Picker.mkDraw 1 0] ≠ []) by discriminate.
  split; [by repeat split|].
  destruct (addQuote_shows " Carpe diem. " "Motto" [Picker.mkDraw 1 0] (pageOf threeState)
              H1 H2 H3) as (app' & i & q & Hr & Hd & Hl & _ & _ & _ & Hnew).
  destruct Hnew as [-> ->].
  { vm_compute. intros H. repeat (apply elem_of_cons in H as [H|H]; [discriminate|]).
    by apply elem_of_nil in H. }
  { vm_compute. discriminate. }
  exists app'. split; [exact Hr|]. split; [exact Hd|exact Hl].
Defined.

(** ** The stats line *)

Module StatsFacts.

Lemma sum_indicator (x : string) (cs : list string) :
  NoDup cs → x ∈ cs →
  list_sum (map (fun c => if String.eqb x c then 1%nat else 0%nat) cs) = 1%nat.
Proof.
  induction cs as [|c cs IH]; intros Hnd Hin; [by apply elem_of_nil in Hin|].
  apply NoDup_cons in Hnd as [Hc Hnd]. simpl.
  destruct (String.eqb_spec x c) as [->|Hne].
  - assert (H0 : list_sum (map (fun c' => if String.eqb c c' then 1%nat else 0%nat) cs) = 0%nat).
    { clear -Hc. induction cs as [|c' cs IH]; simpl; [done|].
      apply not_elem_of_cons in Hc as [Hne Hc].
      destruct (String.eqb_spec c c'); [done|]. by apply IH. }
    by rewrite H0.
  - apply elem_of_cons in Hin as [?|Hin]; [done|]. by apply IH.
Qed.

(** The categories partition the collection. *)
Lemma count_partition (cs : list string) (Q : list Quote) :
  NoDup cs → (∀ q, q ∈ Q → category q ∈ cs) →
  list_sum (map (fun c => length (List.filter (fun q => String.eqb (category q) c) Q)) cs)
  = length Q.
Proof.
  intros Hnd. induction Q as [|q Q IH]; intros Hall.
  - simpl. clear. induction cs; simpl; [done|lia].
  - transitivity
      (list_sum (map (fun c => if String.eqb (category q) c then 1%nat else 0%nat) cs)
       + list_sum (map (fun c => length (List.filter (fun q => String.eqb (category q) c) Q)) cs))%nat.
    + clear. induction cs as [|c cs IHc]; [done|].
      simpl in *. destruct (String.eqb (category q) c); simpl; lia.
    + rewrite IH by (intros q' Hq'; by apply Hall, list_elem_of_further).
      rewrite (sum_indicator (category q) cs Hnd) by apply Hall, list_elem_of_here.
      reflexivity.
Qed.

End StatsFacts.

(** X7: the stats line and the dropdown agree.  With no quote in a
    category spelled [all]: the counts announced for the categories the
    dropdown lists add up to the number of quotes, which is what the line
    announces for [all]; each listed category has at least one quote; and
    the number of categories in the line is the number of options after
    [all]. *)
Theorem filtered_stats_add_up (app : Page.App) :
  "all" ∉ map category (quotes (Page.core app)) →
  ∃ categories,
    Page.options (Page.categoryFilter (Page.populateCategories app)) = "all" :: categories
    ∧ list_sum (map (fun c => announced (Page.stats (Page.updateFilteredStats c app))) categories)
      = length (quotes (Page.core app))
    ∧ Page.stats (Page.updateFilteredStats "all" app)
      = Page.Totals (length (quotes (Page.core app))) (length categories)
    ∧ Page.stats (Page.updateStats app)
      = Page.Totals (length (quotes (Page.core app))) (length categories)
    ∧ ∀ c, c ∈ categories →
        ∃ n, Page.stats (Page.updateFilteredStats c app)
             = Page.Showing n (length (quotes (Page.core app))) c (length categories)
             ∧ (0 < n ≤ length (quotes (Page.core app)))%nat.
Proof.
  intros Hall.
  exists (sort (Page.categoriesOf (quotes (Page.core app)))).
  assert (Hne : ∀ c, c ∈ sort (Page.categoriesOf (quotes (Page.core app))) → String.eqb c "all" = false).
  { intros c Hc. apply String.eqb_neq. intros ->. apply Hall.
    apply PageFacts.elem_of_sort, PageFacts.elem_of_categoriesOf in Hc as (q & Hq & Hc).
    apply list_elem_of_fmap. by exists q. }
  split.
  { unfold Page.populateCategories. simpl. by case_bool_decide. }
  split.
  { rewrite <- (StatsFacts.count_partition (sort (Page.categoriesOf (quotes (Page.core app)))) (quotes (Page.core app))).
    - apply (f_equal list_sum). apply map_ext_in. intros c Hc%list_elem_of_In.
      unfold Page.updateFilteredStats. by rewrite (Hne c Hc).
    - apply PageFacts.sort_NoDup, PageFacts.set_of_NoDup.
    - intros q Hq. apply PageFacts.elem_of_sort, PageFacts.elem_of_categoriesOf. eauto. }
  split; [unfold Page.updateFilteredStats; simpl; by rewrite PageFacts.sort_length|].
  split; [unfold Page.updateStats; simpl; by rewrite PageFacts.sort_length|].
  intros c Hc. eexists. split.
  { unfold Page.updateFilteredStats. rewrite (Hne c Hc). simpl.
    by rewrite PageFacts.sort_length. }
  split.
  - apply PageFacts.elem_of_sort, PageFacts.elem_of_categoriesOf in Hc as (q & Hq & Hc).
    assert (Hin : q ∈ List.filter (fun q => String.eqb (category q) c) (quotes (Page.core app))).
    { apply list_elem_of_In, filter_In. split; [by apply list_elem_of_In|].
      by apply String.eqb_eq. }
    destruct (List.filter _ (quotes (Page.core app))); [by apply elem_of_nil in Hin|simpl; lia].
  - apply filter_length_le.
Qed.

Lemma filtered_stats_add_up_witness :
("all" ∉ map category (quotes (Page.core (pageOf threeState))))
  ∧ Page.options (Page.categoryFilter (Page.populateCategories (pageOf threeState)))
    = ["all"; "Design"; "Wisdom"]
  ∧ (announced (Page.stats (Page.updateFilteredStats "Design" (pageOf threeState)))
     + announced (Page.stats (Page.updateFilteredStats "Wisdom" (pageOf threeState))))%nat
    = length (quotes (Page.core (pageOf threeState))).
Proof.
  assert (H : "all" ∉ map category (quotes (Page.core (pageOf threeState)))).
  { vm_compute. intros H. repeat (apply elem_of_cons in H as [H|H]; [discriminate|]).
    by apply elem_of_nil in H. }
  split; [exact H|].
  destruct (filtered_stats_add_up (pageOf threeState) H) as (categories & Ho & Hs & _).
  assert (Hc : categories = ["Design"; "Wisdom"]).
  { assert (Ho' : Page.options (Page.categoryFilter (Page.populateCategories (pageOf threeState)))
                  = ["all"; "Design"; "Wisdom"]) by (vm_compute; reflexivity).
    rewrite Ho' in Ho. by injection Ho as <-. }
  subst categories. split; [exact Ho|].
  rewrite <- Hs. unfold list_sum. cbn [map fold_right]. by rewrite Nat.add_0_r.
Defined.

(** ** The category filter *)

Module FilterFacts.
Import Page.

Lemma populateCategories_options (app : App) :
  options (categoryFilter (populateCategories app))
  = "all" :: sort (categoriesOf (quotes (core app))).
Proof. unfold populateCategories. simpl. by case_bool_decide. Qed.

Lemma elem_of_options (app : App) (c : string) :
  c ∈ options (categoryFilter (populateCategories app))
  ↔ c = "all" ∨ c ∈ map category (quotes (core app)).
Proof.
  rewrite populateCategories_options, elem_of_cons, PageFacts.elem_of_sort.
  unfold categoriesOf. by rewrite PageFacts.elem_of_set_of.
Qed.

(** After [populateCategories] the dropdown reads as one of its options. *)
Lemma populateCategories_value (app : App) :
  value (categoryFilter (populateCategories app))
  ∈ options (categoryFilter (populateCategories app)).
Proof.
  rewrite populateCategories_options. unfold populateCategories. simpl.
  case_bool_decide as H; unfold setValue; simpl.
  - by case_bool_decide.
  - apply list_elem_of_here.
Qed.

Lemma updateStats_categoryFilter (app : App) :
  categoryFilter (updateStats app) = categoryFilter app.
Proof. reflexivity. Qed.

Lemma refresh_stats (app : App) :
  stats (updateStats (populateCategories app))
  = Totals (length (quotes (core app))) (length (categoriesOf (quotes (core app)))).
Proof. reflexivity. Qed.

Lemma updateFilteredStats_keeps (c : string) (app : App) :
  core (updateFilteredStats c app) = core app
  ∧ categoryFilter (updateFilteredStats c app) = categoryFilter app
  ∧ quoteDisplay (updateFilteredStats c app) = quoteDisplay app
  ∧ lastQuoteIndex (updateFilteredStats c app) = lastQuoteIndex app.
Proof. unfold updateFilteredStats. by destruct (String.eqb _ _). Qed.

Lemma refresh_shows (draws : list Picker.Draw) (app app' : Page.App) :
  Page.showRandomQuote draws (Page.updateStats (Page.populateCategories app)) = Page.Done app' →
  (Page.quoteDisplay app' = Page.EmptyCategory ↔ quotes (Page.core app) = [])
  ∧ (quotes (Page.core app) ≠ [] →
     ∃ (i : nat) (q : Quote),
       Page.quoteDisplay app' = Page.QuoteShown (quote_json q)
       ∧ quotes (Page.core app) !! i = Some q
       ∧ Page.lastQuoteIndex app' = Z.of_nat i).
Proof.
  intros Hshow.
  pose proof (populateCategories_value app) as Hv.
  apply elem_of_options in Hv.
  apply ShowFacts.showRandomQuote_done in Hshow as [[Hnil ->]|(i & q & Hi & _ & ->)].
  - change (Page.core (Page.updateStats (Page.populateCategories app))) with (Page.core app) in Hnil.
    change (Page.categoryFilter (Page.updateStats (Page.populateCategories app)))
      with (Page.categoryFilter (Page.populateCategories app)) in Hnil.
    rewrite ShowFacts.pool_empty in Hnil.
    assert (He : quotes (Page.core app) = []).
    { destruct Hv as [Hall|Hin].
      - destruct (quotes (Page.core app)) as [|q Q]; [done|].
        destruct (Hnil q) as [Hne _]; [apply list_elem_of_here|done].
      - apply list_elem_of_fmap in Hin as (q & Hc & Hq).
        destruct (Hnil q Hq) as [_ Hne]. by rewrite Hc in Hne. }
    split; [done|]. by intros Hne.
  - change (Page.core (Page.updateStats (Page.populateCategories app))) with (Page.core app) in Hi.
    split.
    + split; [done|]. intros He. by rewrite He in Hi.
    + intros _. by exists i, q.
Qed.

End FilterFacts.



(** X9: the refresh that ends an import, a sync and a conflict resolution
    ([populateCategories], [updateStats], [showRandomQuote]), whatever was
    selected and shown before.  On an empty collection it shows the
    empty-category message, at once.  On any other collection some value of
    [Math.random] ends it at the first draw, and whenever it ends it has put
    a quote of the collection on display, with [lastQuoteIndex] at its
    position: the empty-category message appears only for an empty
    collection. *)
Theorem refresh_shows_a_quote (draws : list Picker.Draw) (app : Page.App) :
  (quotes (Page.core app) = [] →
   Page.showRandomQuote draws (Page.updateStats (Page.populateCategories app))
   = Page.Done (Page.set_quoteDisplay Page.EmptyCategory
                  (Page.updateStats (Page.populateCategories app))))
  ∧ (quotes (Page.core app) ≠ [] →
     (∃ d, ∀ rest, ∃ app',
        Page.showRandomQuote (d :: rest) (Page.updateStats (Page.populateCategories app))
        = Page.Done app')
     ∧ ∀ app',
         Page.showRandomQuote draws (Page.updateStats (Page.populateCategories app))
         = Page.Done app' →
         ∃ (i : nat) (q : Quote),
           Page.quoteDisplay app' = Page.QuoteShown (quote_json q)
           ∧ quotes (Page.core app) !! i = Some q
           ∧ Page.lastQuoteIndex app' = Z.of_nat i).
Proof.
  split.
  - intros Hnil. unfold Page.showRandomQuote, Picker.showRandomQuote.
    cbn [Picker.quotes Picker.lastQuoteIndex].
    change (Page.core (Page.updateStats (Page.populateCategories app))) with (Page.core app).
    rewrite Hnil. unfold Picker.filterBy. by destruct (String.eqb _ _).
  - intros Hne. split; [apply ShowFacts.showRandomQuote_ends|].
    intros app' Hrun. by apply (FilterFacts.refresh_shows draws app app').
Qed.

(** ** The collection and its stored copy *)

Module SoundFacts.

(** A step that leaves the collection and its stored copy alone, and the
    pending conflict alone or cleared, keeps the state sound. *)
Lemma sound_frame (st st' : State) :
  quotes st' = quotes st →
  localStorage st' !! QUOTES_STORAGE_KEY = localStorage st !! QUOTES_STORAGE_KEY →
  pendingConflicts st' = pendingConflicts st ∨ pendingConflicts st' = None →
  sound st → sound st'.
Proof.
  intros Hq Hl Hp (Hwf & Hs & Hpend). unfold sound, stored. rewrite Hq, Hl.
  split; [done|]. split; [done|].
  intros pending Hsome. destruct Hp as [Hp|Hp]; rewrite Hp in Hsome; [eauto|done].
Qed.

(** Saving a collection of well-formed quotes gives a sound state. *)
Lemma sound_saved (Q : list Quote) (st : State) :
  Forall wf_quote Q →
  (∀ pending, pendingConflicts st = Some pending → Forall wf_quote (serverQuotes pending)) →
  sound (saveQuotes (set_quotes Q st)).
Proof.
  intros Hwf Hp. split; [done|]. split; [|done].
  unfold stored. simpl. unfold save. by rewrite lookup_insert_eq.
Qed.

Lemma wf_filter (p : Quote → bool) (Q : list Quote) :
  Forall wf_quote Q → Forall wf_quote (List.filter p Q).
Proof.
  induction 1 as [|q Q Hq _ IH]; simpl; [done|]. destruct (p q); [by constructor|done].
Qed.

Lemma sound_mergeQuotes (S : list Quote) (replaceAll : bool) (st : State) :
  Forall wf_quote S → sound st → sound (mergeQuotes S replaceAll st).
Proof.
  intros HS (Hwf & _ & Hp). destruct replaceAll.
  - by apply sound_saved.
  - rewrite mergeQuotes_unfold. apply sound_saved; [|done].
    apply Forall_app. split; [done|]. by apply wf_filter.
Qed.

Lemma quote_of_json_wf (v : JSON) (q : Quote) :
  wf v → quote_of_json v = Some q → wf_quote q.
Proof.
  destruct v as [| | | | |ms]; try done. simpl. intros [Hnd Hms].
  destruct (assoc "text" ms) as [[| | |t| |]|]; try done.
  destruct (assoc "category" ms) as [[| | |c| |]|]; try done.
  intros [= <-]. unfold wf_quote, quote_json. simpl.
  set (others := List.filter _ ms).
  assert (Hk : ∀ k, k ∈ map fst others → k ≠ "text" ∧ k ≠ "category").
  { intros k (kv & -> & Hin)%list_elem_of_fmap.
    apply list_elem_of_In, filter_In in Hin as [_ Hin].
    apply negb_true_iff, orb_false_iff in Hin as [H1 H2].
    by split; apply String.eqb_neq. }
  split.
  - apply NoDup_cons. split.
    { intros [?|Hin]%elem_of_cons; [done|]. by destruct (Hk _ Hin). }
    apply NoDup_cons. split.
    { intros Hin. by destruct (Hk _ Hin). }
    by apply NoDup_map_filter.
  - split; [done|]. split; [done|].
    apply ParseFacts.wf_members. apply ParseFacts.wf_members in Hms.
    unfold others. clear -Hms. induction Hms as [|kv ms Hkv _ IH]; simpl; [done|].
    destruct (negb _); [by constructor|done].
Qed.

(** The quotes the import works with are well formed. *)
Lemma valid_quotes_wf (items : list JSON) :
  Forall wf items → Forall wf_quote (omap quote_of_json (List.filter isValidQuote items)).
Proof.
  induction 1 as [|v items Hv _ IH]; simpl; [done|].
  destruct (isValidQuote v); [|done].
  change (omap quote_of_json (v :: List.filter isValidQuote items))
    with (match quote_of_json v with
          | Some q => q :: omap quote_of_json (List.filter isValidQuote items)
          | None => omap quote_of_json (List.filter isValidQuote items)
          end).
  destruct (quote_of_json v) as [q|] eqn:E; [|done].
  constructor; [by apply (quote_of_json_wf v)|done].
Qed.

Lemma sound_import_try (contents : string) (shouldReplace : bool) (st st' : State) :
  sound st → import_try contents shouldReplace st = Ok st' → sound st'.
Proof.
  intros Hs. unfold import_try, parse_or_throw.
  destruct (JSON_parse contents) as [importedQuotes|] eqn:Hparse; [|done].
  apply ParseFacts.JSON_parse_wf in Hparse.
  destruct importedQuotes as [| | | |items|]; try done.
  apply ParseFacts.wf_elements in Hparse. apply valid_quotes_wf in Hparse.
  set (validQuotes := omap quote_of_json (List.filter isValidQuote items)) in *.
  destruct (length validQuotes =? 0)%nat; [done|].
  destruct Hs as (Hwf & _ & Hp).
  intros [= <-]. destruct shouldReplace.
  - by apply (sound_saved validQuotes (showNotification _ st)).
  - rewrite import_merge_quotes.
    apply (sound_saved _ (showNotification _ st)); [|done].
    apply Forall_app. split; [done|]. by apply wf_filter.
Qed.

Lemma fetched_wf (fetched : FetchResult) (now : nat → Z) (st st' : State) (Q : list Quote) :
  fetchQuotesFromServer fetched now st = (Some Q, st') →
  Forall wf_quote Q ∧ st' = updateSyncStatus "Fetching from server..." "info" st.
Proof.
  unfold fetchQuotesFromServer. destruct fetched as [message|response]; [done|].
  destruct (negb (ok response)); [done|].
  destruct (json response) as [message|serverData]; [done|].
  intros [= <- <-]. split; [|done].
  apply Forall_lookup_2. intros i q Hq.
  rewrite list_lookup_imap in Hq. destruct (take 10 serverData !! i); [|done].
  injection Hq as <-. apply wf_quote_of_post.
Qed.

Lemma fetch_failed_frame (fetched : FetchResult) (now : nat → Z) (st st' : State) :
  fetchQuotesFromServer fetched now st = (None, st') →
  quotes st' = quotes st ∧ localStorage st' = localStorage st
  ∧ pendingConflicts st' = pendingConflicts st.
Proof.
  unfold fetchQuotesFromServer. destruct fetched as [message|response].
  - by intros [= <-].
  - destruct (negb (ok response)); [by intros [= <-]|].
    destruct (json response) as [message|serverData]; [by intros [= <-]|done].
Qed.

Lemma detectConflicts_serverQuotes (L S : list Quote) (st : State) (info : ConflictInfo) :
  detectConflicts L S st = Ok (FoundConflicts info) → serverQuotes info = S.
Proof.
  unfold detectConflicts. destruct (_ || _); [done|].
  destruct (parse_or_throw _) as [prev|]; [|done].
  destruct (get_length prev) as [len|]; [|done].
  destruct (_ && _); [|done]. by intros [= <-].
Qed.

(** A sync cycle keeps the state sound, however it ends. *)
Lemma sound_syncWithServer (io : SyncIO) (st : State) :
  sound st → sound (snd (syncWithServer io st)).
Proof.
  intros Hs. unfold syncWithServer.
  destruct (fetchQuotesFromServer _ _ _) as [[serverQuotes|] st1] eqn:Hf.
  - apply fetched_wf in Hf as [Hwf ->].
    set (st2 := setItem SERVER_QUOTES_KEY _ _).
    assert (Hs2 : sound st2).
    { apply (sound_frame st); [done| |by left|done].
      unfold st2. simpl. by rewrite lookup_insert_ne. }
    destruct (detectConflicts _ _ st2) as [[|info]|e] eqn:Hd; simpl.
    + apply (sound_frame (mergeQuotes serverQuotes false st2)).
      * done.
      * simpl. unfold save. by rewrite lookup_insert_ne.
      * by left.
      * by apply sound_mergeQuotes.
    + apply detectConflicts_serverQuotes in Hd.
      destruct Hs2 as (Hq & Hst & _). split; [done|]. split; [done|].
      simpl. intros pending [= <-]. by rewrite Hd.
    + done.
  - apply fetch_failed_frame in Hf as (Hq & Hl & Hp). simpl in *.
    apply (sound_frame st); [done|by rewrite Hl|by left|done].
Qed.

Lemma sound_resolveConflict (useServerVersion : bool) (now : string) (st : State) :
  sound st → sound (resolveConflict useServerVersion now st).
Proof.
  intros Hs. unfold resolveConflict.
  destruct (pendingConflicts st) as [pending|] eqn:Hp; [|done].
  set (st1 := if useServerVersion then _ else _).
  assert (Hs1 : sound st1).
  { unfold st1. destruct useServerVersion.
    - apply (sound_frame (mergeQuotes (serverQuotes pending) true st)); [done|done|by left|].
      apply sound_mergeQuotes; [|done]. destruct Hs as (_ & _ & Hpend). by apply Hpend.
    - by apply (sound_frame st); [| |left|]. }
  apply (sound_frame st1); [done| |by right|done].
  simpl. rewrite lookup_insert_ne by done. by rewrite lookup_insert_ne.
Qed.

(** A sound state is read back by [loadQuotes] as it is. *)
Lemma sound_loadQuotes (st : State) :
  sound st → loadQuotes (localStorage st) = Ok (quotes_json (quotes st), localStorage st).
Proof.
  intros (Hwf & Hst & _). unfold loadQuotes. rewrite Hst.
  unfold quotes_json at 1. rewrite stringify_array_nonempty.
  unfold loadQuotes_try, parse_or_throw. simpl default.
  fold (quotes_json (quotes st)).
  rewrite JsonFacts.JSON_parse_stringify by by apply wf_quotes_json. done.
Qed.

End SoundFacts.

(** The numbers of the collection stay exact when what the listeners are
    handed holds exact numbers only. *)
Module ExactFacts.

Lemma exact_frame (st st' : State) :
  quotes st' = quotes st →
  pendingConflicts st' = pendingConflicts st ∨ pendingConflicts st' = None →
  exact_state st → exact_state st'.
Proof.
  intros Hq Hp (Hex & Hpend). unfold exact_state. rewrite Hq. split; [done|].
  intros pending Hsome. destruct Hp as [Hp|Hp]; rewrite Hp in Hsome; [eauto|done].
Qed.

Lemma exact_filter (p : Quote → bool) (Q : list Quote) :
  Forall exact_quote Q → Forall exact_quote (List.filter p Q).
Proof.
  induction 1 as [|q Q Hq _ IH]; simpl; [done|]. destruct (p q); [by constructor|done].
Qed.

Lemma exact_mergeQuotes (S : list Quote) (replaceAll : bool) (st : State) :
  Forall exact_quote S → exact_state st → exact_state (mergeQuotes S replaceAll st).
Proof.
  intros HS (Hex & Hp). destruct replaceAll; [by split|].
  rewrite mergeQuotes_unfold. split; [|done]. simpl.
  apply Forall_app. split; [done|]. by apply exact_filter.
Qed.

Lemma exact_plain (t c : string) : exact_quote (plain t c).
Proof. reflexivity. Qed.

Lemma exact_quote_of_json (v : JSON) (q : Quote) :
  exact v = true → quote_of_json v = Some q → exact_quote q.
Proof.
  destruct v as [| | | | |ms]; try done. simpl. intros Hms.
  destruct (assoc "text" ms) as [[| | |t| |]|]; try done.
  destruct (assoc "category" ms) as [[| | |c| |]|]; try done.
  intros [= <-]. unfold exact_quote, quote_json. simpl.
  induction ms as [|kv ms IH]; simpl; [done|].
  simpl in Hms. apply andb_true_iff in Hms as [Hkv Hms].
  destruct (negb _); simpl; [rewrite Hkv; simpl|]; by apply IH.
Qed.

Lemma exact_valid_quotes (items : list JSON) :
  forallb exact items = true →
  Forall exact_quote (omap quote_of_json (List.filter isValidQuote items)).
Proof.
  induction items as [|v items IH]; simpl; [done|].
  intros [Hv Hitems]%andb_true_iff.
  destruct (isValidQuote v); [|by apply IH].
  change (omap quote_of_json (v :: List.filter isValidQuote items))
    with (match quote_of_json v with
          | Some q => q :: omap quote_of_json (List.filter isValidQuote items)
          | None => omap quote_of_json (List.filter isValidQuote items)
          end).
  destruct (quote_of_json v) as [q|] eqn:E; [|by apply IH].
  constructor; [by apply (exact_quote_of_json v)|by apply IH].
Qed.

Lemma exact_import_try (contents : string) (shouldReplace : bool) (st st' : State) :
  (∀ parsed, JSON_parse contents = Some parsed → exact parsed = true) →
  exact_state st → import_try contents shouldReplace st = Ok st' → exact_state st'.
Proof.
  intros Hparsed (Hex & Hp). unfold import_try, parse_or_throw.
  destruct (JSON_parse contents) as [importedQuotes|] eqn:Hparse; [|done].
  specialize (Hparsed _ eq_refl).
  destruct importedQuotes as [| | | |items|]; try done.
  simpl in Hparsed. apply exact_valid_quotes in Hparsed.
  set (validQuotes := omap quote_of_json (List.filter isValidQuote items)) in *.
  destruct (length validQuotes =? 0)%nat; [done|].
  intros [= <-]. destruct shouldReplace; [by split|].
  rewrite import_merge_quotes. split; [|done]. simpl.
  apply Forall_app. split; [done|]. by apply exact_filter.
Qed.

Lemma exact_quote_of_post (now : nat → Z) (i : nat) (post : Post) :
  Z.abs (now i) ≤ 2 ^ 53 → Z.abs (id post) ≤ 2 ^ 53 →
  exact_quote (quote_of_post now i post).
Proof.
  intros Hn Hi. unfold exact_quote, quote_of_post, quote_json, JInt. simpl.
  apply Z.leb_le in Hn, Hi. by rewrite Hn, Hi.
Qed.

Lemma exact_fetched (fetched : FetchResult) (now : nat → Z) (st st' : State) (Q : list Quote) :
  (∀ i, Z.abs (now i) ≤ 2 ^ 53) →
  (∀ response serverData,
     fetched = Resolved response → json response = inr serverData →
     Forall (fun post => Z.abs (id post) ≤ 2 ^ 53) serverData) →
  fetchQuotesFromServer fetched now st = (Some Q, st') →
  Forall exact_quote Q.
Proof.
  intros Hnow Hposts. unfold fetchQuotesFromServer.
  destruct fetched as [message|response]; [done|].
  destruct (negb (ok response)); [done|].
  destruct (json response) as [message|serverData] eqn:Hj; [done|].
  specialize (Hposts response serverData eq_refl Hj).
  intros [= <- _].
  apply Forall_lookup_2. intros i q Hq.
  rewrite list_lookup_imap in Hq.
  destruct (take 10 serverData !! i) as [post|] eqn:Hp; [|done].
  injection Hq as <-. apply exact_quote_of_post; [done|].
  apply lookup_take_Some in Hp as [Hp _].
  by apply (proj1 (Forall_lookup _ _) Hposts i).
Qed.

Lemma exact_syncWithServer (io : SyncIO) (st : State) :
  (∀ i, Z.abs (fetchClock io i) ≤ 2 ^ 53) →
  (∀ response serverData,
     fetched io = Resolved response → json response = inr serverData →
     Forall (fun post => Z.abs (id post) ≤ 2 ^ 53) serverData) →
  exact_state st → exact_state (snd (syncWithServer io st)).
Proof.
  intros Hnow Hposts Hs. unfold syncWithServer.
  destruct (fetchQuotesFromServer _ _ _) as [[serverQuotes|] st1] eqn:Hf.
  - pose proof (exact_fetched _ _ _ _ _ Hnow Hposts Hf) as Hex.
    apply SoundFacts.fetched_wf in Hf as [_ ->].
    set (st2 := setItem SERVER_QUOTES_KEY _ _).
    assert (Hs2 : exact_state st2) by by apply (exact_frame st); [|left|].
    destruct (detectConflicts _ _ st2) as [[|info]|e] eqn:Hd; simpl.
    + apply (exact_frame (mergeQuotes serverQuotes false st2)); [done|by left|].
      by apply exact_mergeQuotes.
    + apply SoundFacts.detectConflicts_serverQuotes in Hd.
      destruct Hs2 as (Hq & _). split; [done|].
      simpl. intros pending [= <-]. by rewrite Hd.
    + done.
  - apply SoundFacts.fetch_failed_frame in Hf as (Hq & _ & Hp). simpl in *.
    by apply (exact_frame st); [|left|].
Qed.

Lemma exact_resolveConflict (useServerVersion : bool) (now : string) (st : State) :
  exact_state st → exact_state (resolveConflict useServerVersion now st).
Proof.
  intros Hs. unfold resolveConflict.
  destruct (pendingConflicts st) as [pending|] eqn:Hp; [|done].
  set (st1 := if useServerVersion then _ else _).
  assert (Hs1 : exact_state st1).
  { unfold st1. destruct useServerVersion.
    - apply (exact_frame (mergeQuotes (serverQuotes pending) true st)); [done|by left|].
      apply exact_mergeQuotes; [|done]. destruct Hs as (_ & Hpend). by apply Hpend.
    - by apply (exact_frame st); [|left|]. }
  by apply (exact_frame st1); [|right|].
Qed.

End ExactFacts.

Module HandleFacts.

Lemma updateSyncStatusDisplay_core (app app' : Page.App) :
  Page.updateSyncStatusDisplay app = Page.Done app' → Page.core app' = Page.core app.
Proof.
  unfold Page.updateSyncStatusDisplay.
  destruct (truthy_item (getItem SERVER_QUOTES_KEY (Page.core app))); [|by intros [= <-]].
  destruct (parse_or_throw _) as [parsed|]; [|done].
  destruct (get_length parsed); [|done]. by intros [= <-].
Qed.

(** The refresh changes nothing in the state of the store and sync
    functions. *)
Lemma refresh_core (draws : list Picker.Draw) (app app' : Page.App) :
  Page.showRandomQuote draws (Page.updateStats (Page.populateCategories app)) = Page.Done app' →
  Page.core app' = Page.core app.
Proof. intros H. by apply AddFacts.showRandomQuote_keeps in H as (-> & _). Qed.

Lemma syncWithServer_core (io : SyncIO) (draws : list Picker.Draw) (app app' : Page.App) :
  Page.syncWithServer io draws app = Page.Done app' →
  syncWithServer io (Page.core app) = (Ok tt, Page.core app').
Proof.
  unfold Page.syncWithServer, syncWithServer.
  destruct (fetchQuotesFromServer _ _ _) as [[serverQuotes|] st1]; [|by intros [= <-]].
  destruct (detectConflicts _ _ _) as [[|info]|e]; [|by intros [= <-]|done].
  destruct (Page.updateSyncStatusDisplay _) as [shown| |] eqn:Hd; simpl; try done.
  apply updateSyncStatusDisplay_core in Hd.
  intros Hr. apply refresh_core in Hr. rewrite Hr. simpl. by rewrite Hd.
Qed.

Lemma resolveConflict_core (useServerVersion : bool) (now : string)
    (draws : list Picker.Draw) (app app' : Page.App) :
  Page.resolveConflict useServerVersion now draws app = Page.Done app' →
  Page.core app' = resolveConflict useServerVersion now (Page.core app).
Proof.
  unfold Page.resolveConflict.
  destruct (pendingConflicts (Page.core app)) as [pending|] eqn:Hp.
  - destruct (Page.updateSyncStatusDisplay _) as [shown| |] eqn:Hd; simpl; try done.
    apply updateSyncStatusDisplay_core in Hd.
    intros Hr. apply refresh_core in Hr. by rewrite Hr, Hd.
  - intros [= <-]. unfold resolveConflict. by rewrite Hp.
Qed.

Lemma sound_importFromJsonFile (file : option File) (shouldReplace : bool)
    (draws : list Picker.Draw) (app app' : Page.App) :
  sound (Page.core app) →
  Page.importFromJsonFile file shouldReplace draws app = Page.Done app' →
  sound (Page.core app').
Proof.
  intros Hs. unfold Page.importFromJsonFile.
  destruct file as [file|]; [|by intros [= <-]].
  destruct (negb _).
  { intros [= <-]. by apply (SoundFacts.sound_frame (Page.core app)); [| |left|]. }
  destruct (contents file) as [result|].
  2:{ intros [= <-]. by apply (SoundFacts.sound_frame (Page.core app)); [| |left|]. }
  destruct (import_try result shouldReplace (Page.core app)) as [st|e] eqn:Hi.
  2:{ intros [= <-]. by apply (SoundFacts.sound_frame (Page.core app)); [| |left|]. }
  apply SoundFacts.sound_import_try in Hi; [|done].
  destruct (Page.showRandomQuote _ _) as [shown|e shown|] eqn:Hr; [| |done].
  - intros [= <-]. apply refresh_core in Hr. by rewrite Hr.
  - destruct (ShowFacts.showRandomQuote_not_raised draws
                (Page.updateStats (Page.populateCategories (Page.set_core st app)))) as [[? H]|H];
      rewrite H in Hr; done.
Qed.

Lemma addQuote_core (quoteText quoteCategory : string) (draws : list Picker.Draw)
    (app app' : Page.App) :
  Page.addQuote quoteText quoteCategory draws app = Page.Done app' →
  Page.core app' = Page.core app
  ∨ ∃ message,
      Page.core app'
      = setItem Page.LAST_CATEGORY_KEY (trim quoteCategory)
          (showNotification message
             (saveQuotes
                (set_quotes (quotes (Page.core app) ++ [plain (trim quoteText) (trim quoteCategory)])
                   (Page.core app)))).
Proof.
  unfold Page.addQuote. destruct (_ || _); [intros [= <-]; by left|].
  cbv zeta. destruct (Page.showRandomQuote _ _) as [shown| |] eqn:Hr; simpl; try done.
  intros [= <-]. right. eexists.
  destruct (FilterFacts.updateFilteredStats_keeps (trim quoteCategory) shown) as (-> & _).
  apply AddFacts.showRandomQuote_keeps in Hr as (-> & _). reflexivity.
Qed.

Lemma sound_handle (event : Page.Event) (app app' : Page.App) :
  sound (Page.core app) → Page.handle event app = Page.Done app' → sound (Page.core app').
Proof.
  intros Hs. destruct event; simpl.
  - intros H. by apply AddFacts.showRandomQuote_keeps in H as (-> & _).
  - case_bool_decide; [|by intros [= <-]].
    unfold Page.filterQuotes. destruct (Page.showRandomQuote _ _) as [shown| |] eqn:Hr;
      [|done|done].
    intros [= <-].
    match goal with
    | |- sound (Page.core (Page.updateFilteredStats ?c ?a)) =>
        destruct (FilterFacts.updateFilteredStats_keeps c a) as (-> & _)
    end.
    apply AddFacts.showRandomQuote_keeps in Hr as (-> & _).
    apply (SoundFacts.sound_frame (Page.core app)); [done| |by left|done].
    simpl. by rewrite lookup_insert_ne.
  - intros H. apply addQuote_core in H as [->|[message ->]]; [done|].
    destruct Hs as (Hwf & _ & Hp).
    eapply SoundFacts.sound_frame;
      [| | |apply (SoundFacts.sound_saved
                     (quotes (Page.core app) ++ [plain (trim quoteText) (trim quoteCategory)])
                     (Page.core app))].
    + done.
    + simpl. by rewrite lookup_insert_ne.
    + by left.
    + apply Forall_app. split; [done|].
      apply Forall_cons_2; [apply ExportFacts.wf_plain|apply Forall_nil_2].
    + done.
  - intros [= <-]. unfold Page.exportToJsonFile.
    destruct (length _ =? 0)%nat; by apply (SoundFacts.sound_frame (Page.core app)); [| |left|].
  - by apply sound_importFromJsonFile.
  - intros H. apply syncWithServer_core in H.
    pose proof (SoundFacts.sound_syncWithServer io (Page.core app) Hs) as Hs'.
    by rewrite H in Hs'.
  - intros [= <-]. unfold Page.toggleAutoSync, Page.stopAutoSync, Page.startAutoSync.
    case_bool_decide; destruct (Page.autoSyncInterval app);
      (apply (SoundFacts.sound_frame (Page.core app)); [done| |by left|done]);
      simpl; rewrite ?lookup_insert_ne; done.
  - intros H. apply resolveConflict_core in H. rewrite H.
    by apply SoundFacts.sound_resolveConflict.
Qed.

Lemma exact_importFromJsonFile (file : option File) (shouldReplace : bool)
    (draws : list Picker.Draw) (app app' : Page.App) :
  exact_event (Page.ChooseFile file shouldReplace draws) →
  exact_state (Page.core app) →
  Page.importFromJsonFile file shouldReplace draws app = Page.Done app' →
  exact_state (Page.core app').
Proof.
  intros Hev Hs. unfold Page.importFromJsonFile.
  destruct file as [file|]; [|by intros [= <-]].
  destruct (negb _).
  { intros [= <-]. by apply (ExactFacts.exact_frame (Page.core app)); [|left|]. }
  destruct (contents file) as [result|] eqn:Hc.
  2:{ intros [= <-]. by apply (ExactFacts.exact_frame (Page.core app)); [|left|]. }
  destruct (import_try result shouldReplace (Page.core app)) as [st|e] eqn:Hi.
  2:{ intros [= <-]. by apply (ExactFacts.exact_frame (Page.core app)); [|left|]. }
  apply ExactFacts.exact_import_try in Hi;
    [|intros parsed Hparsed; exact (Hev result parsed Hc Hparsed)|done].
  destruct (Page.showRandomQuote _ _) as [shown|e shown|] eqn:Hr; [| |done].
  - intros [= <-]. apply refresh_core in Hr. by rewrite Hr.
  - destruct (ShowFacts.showRandomQuote_not_raised draws
                (Page.updateStats (Page.populateCategories (Page.set_core st app)))) as [[? H]|H];
      rewrite H in Hr; done.
Qed.

Lemma exact_handle (event : Page.Event) (app app' : Page.App) :
  exact_event event →
  exact_state (Page.core app) → Page.handle event app = Page.Done app' →
  exact_state (Page.core app').
Proof.
  intros Hev Hs. destruct event; simpl.
  - intros H. by apply AddFacts.showRandomQuote_keeps in H as (-> & _).
  - case_bool_decide; [|by intros [= <-]].
    unfold Page.filterQuotes. destruct (Page.showRandomQuote _ _) as [shown| |] eqn:Hr;
      [|done|done].
    intros [= <-].
    match goal with
    | |- exact_state (Page.core (Page.updateFilteredStats ?c ?a)) =>
        destruct (FilterFacts.updateFilteredStats_keeps c a) as (-> & _)
    end.
    apply AddFacts.showRandomQuote_keeps in Hr as (-> & _).
    by apply (ExactFacts.exact_frame (Page.core app)); [|left|].
  - intros H. apply addQuote_core in H as [->|[message ->]]; [done|].
    destruct Hs as (Hex & Hp). split; [|done]. simpl.
    apply Forall_app. split; [done|].
    apply Forall_cons_2; [apply ExactFacts.exact_plain|apply Forall_nil_2].
  - intros [= <-]. unfold Page.exportToJsonFile.
    destruct (length _ =? 0)%nat; by apply (ExactFacts.exact_frame (Page.core app)); [|left|].
  - by apply exact_importFromJsonFile.
  - intros H. apply syncWithServer_core in H. destruct Hev as [Hnow Hposts].
    pose proof (ExactFacts.exact_syncWithServer io (Page.core app) Hnow Hposts Hs) as Hs'.
    by rewrite H in Hs'.
  - intros [= <-]. unfold Page.toggleAutoSync, Page.stopAutoSync, Page.startAutoSync.
    case_bool_decide; destruct (Page.autoSyncInterval app);
      by apply (ExactFacts.exact_frame (Page.core app)); [|left|].
  - intros H. apply resolveConflict_core in H. rewrite H.
    by apply ExactFacts.exact_resolveConflict.
Qed.

End HandleFacts.

(** X10: whatever the visitor does, the collection is in the store.  From a
    state whose stored copy is the collection, after any run of the
    listeners of the page (showing, filtering, adding, exporting, importing,
    sync cycles, toggling the timer, resolving a conflict), each having
    ended, the stored copy is again the collection, and [loadQuotes] on that
    store, as on the next start, reads the collection back.  This is for
    numbers that are exact (integers of magnitude at most [2^53]) in the
    collection at the start, in the files imported and in the ids and clock
    readings of the sync cycles; the numbers of the collection are then
    exact at the end as well. *)
Theorem collection_survives_reload (events : list Page.Event) (app app' : Page.App) :
  sound (Page.core app) →
  exact_state (Page.core app) →
  Forall exact_event events →
  Page.handleAll events app = Page.Done app' →
  sound (Page.core app')
  ∧ exact_state (Page.core app')
  ∧ localStorage (Page.core app') !! QUOTES_STORAGE_KEY
    = Some (JSON_stringify (quotes_json (quotes (Page.core app'))))
  ∧ loadQuotes (localStorage (Page.core app'))
    = Ok (quotes_json (quotes (Page.core app')), localStorage (Page.core app')).
Proof.
  intros Hs Hx Hev Hrun.
  assert (Hs' : sound (Page.core app') ∧ exact_state (Page.core app')).
  { revert app Hs Hx Hrun. induction Hev as [|event events Hevent _ IH]; intros app Hs Hx; simpl.
    - by intros [= <-].
    - destruct (Page.handle event app) as [next| |] eqn:Hh; simpl; try done.
      apply IH.
      + by apply (HandleFacts.sound_handle event app).
      + by apply (HandleFacts.exact_handle event app). }
  destruct Hs' as [Hs' Hx'].
  split; [done|]. split; [done|]. split; [apply Hs'|]. by apply SoundFacts.sound_loadQuotes.
Qed.

Lemma collection_survives_reload_witness :
  (sound (Page.core (pageOf threeState))
   ∧ exact_state (Page.core (pageOf threeState))
   ∧ Forall exact_event sampleVisit
   ∧ Page.handleAll sampleVisit (pageOf threeState) = Page.Done visitedPage)
  ∧ length (quotes (Page.core visitedPage)) = 11%nat
  ∧ loadQuotes (localStorage (Page.core visitedPage))
    = Ok (quotes_json (quotes (Page.core visitedPage)), localStorage (Page.core visitedPage)).
Proof.
  assert (H1 : sound (Page.core (pageOf threeState))).
  { split; [|split; [|done]].
    - repeat (apply Forall_cons_2; [apply ExportFacts.wf_plain|]). apply Forall_nil_2.
    - unfold stored. simpl. unfold save. by rewrite lookup_insert_eq. }
  assert (H2 : exact_state (Page.core (pageOf threeState))).
  { split; [|done]. repeat (apply Forall_cons_2; [reflexivity|]). apply Forall_nil_2. }
  assert (H3 : Forall exact_event sampleVisit).
  { apply Forall_cons_2; [exact I|]. apply Forall_cons_2.
    { split.
      - intros i. simpl. lia.
      - intros response serverData [= <-] [= <-].
        repeat (apply Forall_cons_2; [simpl; lia|]). apply Forall_nil_2. }
    apply Forall_cons_2.
    { intros result parsed [= <-] Hparsed. vm_compute in Hparsed.
      injection Hparsed as <-. reflexivity. }
    apply Forall_cons_2; [exact I|]. apply Forall_cons_2; [exact I|]. apply Forall_nil_2. }
  assert (H4 : Page.handleAll sampleVisit (pageOf threeState) = Page.Done visitedPage)
    by (vm_compute; reflexivity).
  split; [split; [exact H1|split; [exact H2|split; [exact H3|exact H4]]]|].
  split; [vm_compute; reflexivity|].
  destruct (collection_survives_reload _ _ _ H1 H2 H3 H4) as (_ & _ & _ & Hload).
  exact Hload.
Defined.

(** ** Automatic sync *)

Module TimerFacts.

Lemma scheduled_start (timer : positive) (app : Page.App) :
  scheduled app → scheduled (Page.startAutoSync timer app).
Proof.
  unfold scheduled, Page.startAutoSync.
  destruct (Page.autoSyncInterval app) as [t|] eqn:E; [by rewrite E|].
  intros [Hl _]. simpl. rewrite Hl. split; [done|].
  unfold getItem. simpl. by rewrite lookup_insert_eq.
Qed.

Lemma scheduled_stop (app : Page.App) : scheduled app → scheduled (Page.stopAutoSync app).
Proof.
  unfold scheduled, Page.stopAutoSync.
  destruct (Page.autoSyncInterval app) as [t|] eqn:E; [|by rewrite E].
  intros [Hl _]. simpl. rewrite Hl. simpl. rewrite Pos.eqb_refl. split; [done|].
  unfold getItem. simpl. by rewrite lookup_insert_eq.
Qed.

End TimerFacts.

(** X11: automatic sync keeps one timer at most.  From a page where the
    timer, [autoSyncInterval] and the stored preference agree,
    [startAutoSync], [stopAutoSync] and [toggleAutoSync] lead to such a page
    again; a toggle turns the timer on when it was off (one sync cycle is
    begun at once) and off when it was on, and the button names the
    opposite action; starting twice is starting once; once stopped, a timer
    that still fires begins nothing. *)
Theorem auto_sync_keeps_one_timer (timer other : positive) (app : Page.App) :
  scheduled app →
  scheduled (Page.startAutoSync timer app)
  ∧ scheduled (Page.stopAutoSync app)
  ∧ scheduled (Page.toggleAutoSync timer app)
  ∧ (Page.autoSyncInterval app = None →
     Page.autoSyncInterval (Page.toggleAutoSync timer app) = Some timer
     ∧ Page.toggleLabel (Page.toggleAutoSync timer app) = "Disable Auto-Sync"
     ∧ Page.syncsBegun (Page.toggleAutoSync timer app) = S (Page.syncsBegun app))
  ∧ (Page.autoSyncInterval app ≠ None →
     Page.autoSyncInterval (Page.toggleAutoSync timer app) = None
     ∧ Page.toggleLabel (Page.toggleAutoSync timer app) = "Enable Auto-Sync"
     ∧ Page.syncsBegun (Page.toggleAutoSync timer app) = Page.syncsBegun app)
  ∧ Page.startAutoSync other (Page.startAutoSync timer app) = Page.startAutoSync timer app
  ∧ Page.intervalFires other (Page.stopAutoSync app) = Page.stopAutoSync app.
Proof.
  intros Hs.
  split; [by apply TimerFacts.scheduled_start|].
  split; [by apply TimerFacts.scheduled_stop|].
  split.
  { unfold Page.toggleAutoSync. case_bool_decide.
    - by apply (TimerFacts.scheduled_stop app) in Hs.
    - by apply (TimerFacts.scheduled_start timer app) in Hs. }
  split.
  { intros Hnone. unfold Page.toggleAutoSync, Page.startAutoSync. rewrite Hnone.
    by rewrite bool_decide_eq_false_2 by (by intros H; apply H). }
  split.
  { intros Hsome. unfold Page.toggleAutoSync, Page.stopAutoSync.
    rewrite bool_decide_eq_true_2 by done.
    by destruct (Page.autoSyncInterval app). }
  split.
  { unfold Page.startAutoSync at 1.
    assert (Hrun : ∃ t, Page.autoSyncInterval (Page.startAutoSync timer app) = Some t).
    { unfold Page.startAutoSync. destruct (Page.autoSyncInterval app) eqn:E; [|by eexists].
      rewrite E. by eexists. }
    destruct Hrun as [t ->]. done. }
  apply (TimerFacts.scheduled_stop app) in Hs. unfold Page.intervalFires.
  assert (Hl : Page.liveTimers (Page.stopAutoSync app) = []).
  { unfold scheduled in Hs.
    assert (Hn : Page.autoSyncInterval (Page.stopAutoSync app) = None).
    { unfold Page.stopAutoSync. by destruct (Page.autoSyncInterval app) eqn:E. }
    rewrite Hn in Hs. apply Hs. }
  rewrite Hl. done.
Qed.

Lemma auto_sync_keeps_one_timer_witness :
  scheduled (pageOf threeState)
  ∧ scheduled (Page.toggleAutoSync 7 (pageOf threeState))
  ∧ Page.liveTimers (Page.toggleAutoSync 7 (pageOf threeState)) = [7%positive]
  ∧ Page.liveTimers (Page.toggleAutoSync 8 (Page.toggleAutoSync 7 (pageOf threeState))) = [].
Proof.
  assert (H : scheduled (pageOf threeState)).
  { split; [done|]. vm_compute. discriminate. }
  split; [exact H|].
  destruct (auto_sync_keeps_one_timer 7 8 (pageOf threeState) H) as (_ & _ & Ht & _).
  split; [exact Ht|]. split; vm_compute; reflexivity.
Defined.

Module DisplayFacts.

(** [updateSyncStatusDisplay] changes the two elements it writes to, and
    nothing else, however it ends. *)
Lemma updateSyncStatusDisplay_ends (app : Page.App) :
  ∃ app',
    (Page.updateSyncStatusDisplay app = Page.Done app'
     ∨ ∃ e, Page.updateSyncStatusDisplay app = Page.Raised e app')
    ∧ Page.core app' = Page.core app
    ∧ Page.autoSyncInterval app' = Page.autoSyncInterval app
    ∧ Page.liveTimers app' = Page.liveTimers app
    ∧ Page.syncsBegun app' = Page.syncsBegun app
    ∧ Page.toggleLabel app' = Page.toggleLabel app.
Proof.
  unfold Page.updateSyncStatusDisplay.
  destruct (truthy_item (getItem SERVER_QUOTES_KEY (Page.core app))).
  - destruct (parse_or_throw _) as [parsed|e].
    + destruct (get_length parsed) as [count|e]; eexists; (split; [eauto|done]).
    + eexists; (split; [eauto|done]).
  - eexists; (split; [eauto|done]).
Qed.

(** The snapshot a sync or a conflict resolution has just stored is read
    back with its length. *)
Lemma updateSyncStatusDisplay_snapshot (app : Page.App) (Q : list Quote) :
  getItem SERVER_QUOTES_KEY (Page.core app) = Some (JSON_stringify (quotes_json Q)) →
  Forall wf_quote Q →
  Page.updateSyncStatusDisplay app
  = Page.Done
      (Page.set_serverCountElement (Page.LengthRead (Some (JInt (Z.of_nat (length Q)))))
         (Page.set_lastSyncElement
            (if truthy_item (getItem LAST_SYNC_TIME_KEY (Page.core app))
             then Page.LocaleOf (default EmptyString (getItem LAST_SYNC_TIME_KEY (Page.core app)))
             else Page.Never)
            app)).
Proof.
  intros Hget Hwf. unfold Page.updateSyncStatusDisplay. rewrite Hget.
  unfold quotes_json at 1. rewrite stringify_array_nonempty. fold (quotes_json Q).
  unfold parse_or_throw. simpl default.
  rewrite JsonFacts.JSON_parse_stringify by by apply wf_quotes_json.
  simpl. by rewrite length_map.
Qed.

End DisplayFacts.

(** X12: the auto-sync preference survives a reload.  A toggle stores
    [true] when it starts the timer and [false] when it stops it.  On a page
    that starts (no timer yet), [initializeSyncSystem] starts the timer and
    begins a sync cycle exactly when the store holds [true], and leaves
    timer, variable and preference in agreement, also when
    [updateSyncStatusDisplay], which it calls last, throws on a stored
    snapshot it cannot read. *)
Theorem auto_sync_preference_survives_reload (timer : positive) (app : Page.App) :
  Page.autoSyncInterval app = None →
  Page.liveTimers app = [] →
  (∃ app',
     (Page.initializeSyncSystem timer app = Page.Done app'
      ∨ ∃ e, Page.initializeSyncSystem timer app = Page.Raised e app')
     ∧ scheduled app'
     ∧ (getItem Page.AUTO_SYNC_ENABLED_KEY (Page.core app) = Some "true" →
        Page.autoSyncInterval app' = Some timer
        ∧ Page.syncsBegun app' = S (Page.syncsBegun app)
        ∧ Page.toggleLabel app' = "Disable Auto-Sync")
     ∧ (getItem Page.AUTO_SYNC_ENABLED_KEY (Page.core app) ≠ Some "true" →
        Page.autoSyncInterval app' = None
        ∧ Page.syncsBegun app' = Page.syncsBegun app
        ∧ Page.toggleLabel app' = Page.toggleLabel app
        ∧ Page.core app' = Page.core app))
  ∧ (∀ page,
       getItem Page.AUTO_SYNC_ENABLED_KEY (Page.core (Page.toggleAutoSync timer page))
       = Some (if bool_decide (Page.autoSyncInterval page = None) then "true" else "false")).
Proof.
  intros Hnone Hlive. split.
  - unfold Page.initializeSyncSystem.
    set (started := if bool_decide _ then _ else _).
    destruct (DisplayFacts.updateSyncStatusDisplay_ends started)
      as (app' & Hend & Hcore & Hint & Hl & Hb & Hlab).
    exists app'. split; [exact Hend|].
    unfold scheduled. rewrite Hcore, Hint, Hl, Hb, Hlab. clear Hend Hcore Hint Hl Hb Hlab.
    unfold started, Page.startAutoSync. rewrite Hnone.
    case_bool_decide as Hflag; simpl.
    + rewrite Hlive. split; [split; [done|]|split; [done|done]].
      unfold getItem. simpl. by rewrite lookup_insert_eq.
    + rewrite Hnone, Hlive. split; [by split|]. split; [done|]. by intros _.
  - intros page. unfold Page.toggleAutoSync, Page.stopAutoSync, Page.startAutoSync.
    destruct (Page.autoSyncInterval page) as [t|]; simpl; unfold getItem; simpl;
      by rewrite lookup_insert_eq.
Qed.

Lemma auto_sync_preference_survives_reload_witness :
  (Page.autoSyncInterval (pageOf (Page.core (Page.toggleAutoSync 7 (pageOf threeState)))) = None
   ∧ Page.liveTimers (pageOf (Page.core (Page.toggleAutoSync 7 (pageOf threeState)))) = [])
  ∧ ∃ app',
      Page.initializeSyncSystem 9 (pageOf (Page.core (Page.toggleAutoSync 7 (pageOf threeState))))
      = Page.Done app'
      ∧ Page.autoSyncInterval app' = Some 9%positive
      ∧ Page.syncsBegun app' = 1%nat.
Proof.
  split; [by split|].
  destruct (auto_sync_preference_survives_reload 9
              (pageOf (Page.core (Page.toggleAutoSync 7 (pageOf threeState))))
              eq_refl eq_refl) as [(app' & Hend & _ & Hon & _) _].
  destruct (Hon ltac:(vm_compute; reflexivity)) as (Hi & Hb & _).
  exists app'. split; [|by split].
  destruct Hend as [Hd|[e He]]; [exact Hd|].
  exfalso. vm_compute in He. discriminate He.
Defined.

(** ** The sync status display and the sync cycle on the page *)


Module CycleFacts.

Lemma lookup_after_sync_writes (st : State) (k v1 v2 v3 : string) :
  k = SERVER_QUOTES_KEY →
  (<[LAST_SYNC_TIME_KEY := v3]> (<[QUOTES_STORAGE_KEY := v2]> (<[k := v1]> (localStorage st))))
    !! SERVER_QUOTES_KEY = Some v1.
Proof. intros ->. by simplify_map_eq. Qed.

Lemma wf_fetched (now : nat → Z) (serverData : list Post) :
  Forall wf_quote (imap (quote_of_post now) (take 10 serverData)).
Proof.
  apply Forall_lookup_2. intros i q Hq.
  rewrite list_lookup_imap in Hq. destruct (take 10 serverData !! i); [|done].
  injection Hq as <-. apply wf_quote_of_post.
Qed.

End CycleFacts.

Module RepeatFacts.

(** The state a cycle with a successful fetch leaves. *)
Lemma sync_success (st : State) (status : Z) (serverData : list Post)
    (clock : nat → Z) (postTime : Z) (syncTime : string) :
  syncWithServer
    (mkSyncIO (Resolved (mkResponse true status (inr serverData))) clock postTime syncTime) st
  = (Ok tt,
     showNotification "Successfully synced with server!"
       (updateSyncStatus "Synced successfully" "success"
          (setItem LAST_SYNC_TIME_KEY syncTime
             (postQuotesToServer
                (quotes st
                 ++ List.filter (absent (keysOf (quotes st)))
                      (imap (quote_of_post clock) (take 10 serverData)))
                postTime
                (mergeQuotes (imap (quote_of_post clock) (take 10 serverData)) false
                   (setItem SERVER_QUOTES_KEY
                      (JSON_stringify
                         (quotes_json (imap (quote_of_post clock) (take 10 serverData))))
                      (updateSyncStatus "Fetching from server..." "info"
                         (updateSyncStatus "Syncing..." "info" st)))))))).
Proof.
  unfold syncWithServer, fetchQuotesFromServer.
  cbn [fetched fetchClock ok negb json postClock syncClock]. cbv iota zeta.
  rewrite detectConflicts_same; [|apply lookup_insert_eq|apply CycleFacts.wf_fetched].
  rewrite (mergeQuotes_quotes _ (setItem _ _ _)). reflexivity.
Qed.

(** What a cycle with a successful fetch leaves: the merged collection,
    stored and posted. *)
Lemma sync_success_facts (st : State) (status : Z) (serverData : list Post)
    (clock : nat → Z) (postTime : Z) (syncTime : string) :
  ∃ st',
    syncWithServer
      (mkSyncIO (Resolved (mkResponse true status (inr serverData))) clock postTime syncTime) st
    = (Ok tt, st')
    ∧ quotes st'
      = quotes st
        ++ List.filter (absent (keysOf (quotes st)))
             (imap (quote_of_post clock) (take 10 serverData))
    ∧ stored st'
    ∧ posted st' = posted st ++ [(quotes st', postTime)].
Proof.
  eexists. split; [apply sync_success|].
  cbn [quotes posted showNotification updateSyncStatus setItem set_localStorage
       postQuotesToServer record_post].
  rewrite (mergeQuotes_quotes _ (setItem _ _ _)).
  split; [done|]. split; [|done].
  unfold stored. rewrite mergeQuotes_unfold. simpl. unfold save. by simplify_map_eq.
Qed.

(** The keys of the quotes made from the records do not depend on the
    clock. *)
Lemma fetched_keys (now now' : nat → Z) (serverData : list Post) :
  map quoteKey (imap (quote_of_post now) serverData)
  = map quoteKey (imap (quote_of_post now') serverData).
Proof. rewrite !fmap_imap. by apply imap_ext. Qed.

(** Once merged, an input with the same keys has nothing to add. *)
Lemma merged_absent_keys (S S' Q : list Quote) :
  map quoteKey S' = map quoteKey S →
  List.filter (absent (keysOf (Q ++ List.filter (absent (keysOf Q)) S))) S' = [].
Proof.
  intros Hkeys. set (Q' := Q ++ _).
  assert (H : ∀ q, q ∈ S → absent (keysOf Q') q = false).
  { intros q Hq. destruct (absent (keysOf Q) q) eqn:E.
    - apply absent_false_of_elem. unfold Q'. apply elem_of_app. right.
      apply list_elem_of_In, filter_In. split; [by apply list_elem_of_In|done].
    - unfold absent in *. apply negb_false_iff, bool_decide_eq_true in E.
      apply negb_false_iff, bool_decide_eq_true.
      apply elem_of_keysOf in E as (q0 & Hq0 & Hk). apply elem_of_keysOf.
      exists q0. split; [|done]. unfold Q'. apply elem_of_app. by left. }
  assert (H' : ∀ q', q' ∈ S' → absent (keysOf Q') q' = false).
  { intros q' Hq'.
    assert (Hk : quoteKey q' ∈ map quoteKey S).
    { rewrite <- Hkeys. apply list_elem_of_fmap. by exists q'. }
    apply list_elem_of_fmap in Hk as (q & Hk & Hq). specialize (H q Hq).
    unfold absent in *. by rewrite Hk. }
  clearbody Q'. clear -H'. induction S' as [|q S' IH]; simpl; [done|].
  rewrite (H' q) by apply list_elem_of_here.
  apply IH. intros q' Hq'. apply H'. by apply list_elem_of_further.
Qed.

End RepeatFacts.

(** X14: polling adds nothing twice.  When two sync cycles in a row fetch
    the same records, whatever the clock says in each, the second one leaves
    the collection and its stored copy as the first one left them; each
    cycle posts the collection it ends with. *)
Theorem second_sync_adds_nothing (st : State) (serverData : list Post)
    (status status' : Z) (clock clock' : nat → Z) (postTime postTime' : Z)
    (syncTime syncTime' : string) :
  ∃ st1 st2,
    syncWithServer
      (mkSyncIO (Resolved (mkResponse true status (inr serverData))) clock postTime syncTime) st
    = (Ok tt, st1)
    ∧ syncWithServer
        (mkSyncIO (Resolved (mkResponse true status' (inr serverData))) clock' postTime' syncTime')
        st1
      = (Ok tt, st2)
    ∧ quotes st2 = quotes st1
    ∧ localStorage st2 !! QUOTES_STORAGE_KEY = localStorage st1 !! QUOTES_STORAGE_KEY
    ∧ stored st2
    ∧ posted st2 = posted st ++ [(quotes st1, postTime); (quotes st1, postTime')].
Proof.
  destruct (RepeatFacts.sync_success_facts st status serverData clock postTime syncTime)
    as (st1 & Hrun1 & Hq1 & Hs1 & Hp1).
  destruct (RepeatFacts.sync_success_facts st1 status' serverData clock' postTime' syncTime')
    as (st2 & Hrun2 & Hq2 & Hs2 & Hp2).
  exists st1, st2. split; [done|]. split; [done|].
  assert (Hq : quotes st2 = quotes st1).
  { rewrite Hq2, Hq1.
    rewrite (RepeatFacts.merged_absent_keys
               (imap (quote_of_post clock) (take 10 serverData))
               (imap (quote_of_post clock') (take 10 serverData)))
      by apply RepeatFacts.fetched_keys.
    by rewrite app_nil_r. }
  split; [done|]. split; [by rewrite Hs1, Hs2, Hq|]. split; [done|].
  by rewrite Hp2, Hp1, Hq, <- app_assoc.
Qed.

(** X15: a sync cycle with its refresh of the page.  A cycle that fetched
    records and ended has treated the state as [syncWithServer] without the
    refresh does, shows the number of quotes fetched and the time of this
    sync, lists in the dropdown exactly the categories of the merged
    collection, writes the totals in the stats line (also when a category is
    selected) and shows a quote of the collection when there is one.  Some
    value of [Math.random] lets such a cycle end at the first draw. *)
Theorem sync_cycle_refreshes_page (status : Z) (serverData : list Post) (clock : nat → Z)
    (postTime : Z) (syncTime : string) (draws : list Picker.Draw) (app app' : Page.App) :
  syncTime ≠ EmptyString →
  Page.syncWithServer
    (mkSyncIO (Resolved (mkResponse true status (inr serverData))) clock postTime syncTime)
    draws app = Page.Done app' →
  syncWithServer
    (mkSyncIO (Resolved (mkResponse true status (inr serverData))) clock postTime syncTime)
    (Page.core app) = (Ok tt, Page.core app')
  ∧ (∃ d, ∀ rest, ∃ ended,
       Page.syncWithServer
         (mkSyncIO (Resolved (mkResponse true status (inr serverData))) clock postTime syncTime)
         (d :: rest) app = Page.Done ended)
  ∧ Page.serverCountElement app'
    = Page.LengthRead (Some (JInt (Z.of_nat (Nat.min 10 (length serverData)))))
  ∧ Page.lastSyncElement app' = Page.LocaleOf syncTime
  ∧ (∀ c, c ∈ Page.options (Page.categoryFilter app')
          ↔ c = "all" ∨ c ∈ map category (quotes (Page.core app')))
  ∧ Page.stats app'
    = Page.Totals (length (quotes (Page.core app')))
        (length (Page.categoriesOf (quotes (Page.core app'))))
  ∧ (quotes (Page.core app') ≠ [] →
     ∃ (i : nat) (q : Quote),
       Page.quoteDisplay app' = Page.QuoteShown (quote_json q)
       ∧ quotes (Page.core app') !! i = Some q
       ∧ Page.lastQuoteIndex app' = Z.of_nat i).
Proof.
  intros Hclock Hrun.
  split; [exact (HandleFacts.syncWithServer_core _ draws _ _ Hrun)|].
  assert (Hends : ∃ d, ∀ rest, ∃ ended,
            Page.syncWithServer
              (mkSyncIO (Resolved (mkResponse true status (inr serverData)))
                 clock postTime syncTime) (d :: rest) app = Page.Done ended).
  { clear Hrun. unfold Page.syncWithServer, fetchQuotesFromServer.
    cbn [fetched fetchClock ok negb json postClock syncClock]. cbv iota zeta.
    set (F := imap (quote_of_post clock) (take 10 serverData)).
    rewrite detectConflicts_same; [|apply lookup_insert_eq|apply CycleFacts.wf_fetched].
    rewrite (DisplayFacts.updateSyncStatusDisplay_snapshot _ F);
      [|by apply CycleFacts.lookup_after_sync_writes|apply CycleFacts.wf_fetched].
    set (shown := Page.set_serverCountElement _ _).
    destruct (ShowFacts.showRandomQuote_ends
                (Page.updateStats
                   (Page.populateCategories
                      (Page.onCore (showNotification "Successfully synced with server!") shown))))
      as [d Hd].
    exists d. intros rest. exact (Hd rest). }
  split; [exact Hends|]. clear Hends.
  revert Hrun. unfold Page.syncWithServer, fetchQuotesFromServer.
  cbn [fetched fetchClock ok negb json postClock syncClock]. cbv iota zeta.
  set (F := imap (quote_of_post clock) (take 10 serverData)).
  rewrite detectConflicts_same; [|apply lookup_insert_eq|apply CycleFacts.wf_fetched].
  rewrite (DisplayFacts.updateSyncStatusDisplay_snapshot _ F);
    [|by apply CycleFacts.lookup_after_sync_writes|apply CycleFacts.wf_fetched].
  set (shown := Page.set_serverCountElement _ _).
  change (Page.Done shown ≫= _)
    with (Page.showRandomQuote draws
            (Page.updateStats
               (Page.populateCategories
                  (Page.onCore (showNotification "Successfully synced with server!") shown)))).
  set (page := Page.onCore _ shown).
  intros Hrun.
  pose proof (FilterFacts.refresh_shows draws page app' Hrun) as [_ Hshow].
  pose proof (HandleFacts.refresh_core draws page app' Hrun) as Hcore.
  apply AddFacts.showRandomQuote_keeps in Hrun
    as (_ & Hfilter & Hstats & _ & _ & _ & _ & _ & _ & Hlast & Hcount).
  rewrite Hcount, Hlast, Hfilter, Hstats, Hcore, FilterFacts.refresh_stats.
  split.
  { unfold page, shown. simpl. unfold F. by rewrite length_imap, length_take. }
  split.
  { unfold page, shown. simpl. unfold getItem. simpl.
    rewrite lookup_insert_eq. by destruct syncTime. }
  split; [intros c; rewrite FilterFacts.updateStats_categoryFilter;
          apply FilterFacts.elem_of_options|].
  split; [reflexivity|].
  exact Hshow.
Qed.

Lemma sync_cycle_refreshes_page_witness :
  ("2023-11-14T22:13:50.000Z" ≠ EmptyString
   ∧ Page.syncWithServer
       (mkSyncIO (Resolved (mkResponse true 200 (inr samplePosts)))
                 (fun _ => 1700000030000) 1700000030500 "2023-11-14T22:13:50.000Z")
       [Picker.mkDraw 1 0] (pageOf threeState) = Page.Done syncedPage)
  ∧ Page.serverCountElement syncedPage = Page.LengthRead (Some (JInt 6))
  ∧ Page.lastSyncElement syncedPage = Page.LocaleOf "2023-11-14T22:13:50.000Z".
Proof.
  assert (H1 : "2023-11-14T22:13:50.000Z" ≠ EmptyString) by discriminate.
  assert (H2 : Page.syncWithServer
                 (mkSyncIO (Resolved (mkResponse true 200 (inr samplePosts)))
                    (fun _ => 1700000030000) 1700000030500 "2023-11-14T22:13:50.000Z")
                 [Picker.mkDraw 1 0] (pageOf threeState) = Page.Done syncedPage)
    by (vm_compute; reflexivity).
  split; [split; [exact H1|exact H2]|].
  destruct (sync_cycle_refreshes_page _ _ _ _ _ _ _ _ H1 H2) as (_ & _ & Hc & Hl & _).
  split; [exact Hc|exact Hl].
Defined.

(** ** Showing the next quote *)

Module NextFacts.

Lemma at_index_objects (Q : list Quote) (i : nat) (q : Quote) :
  Q !! i = Some q →
  Picker.at_index (Page.objects Q) (Z.of_nat i) = Some (Picker.mkObj i q).
Proof.
  intros H. unfold Picker.at_index.
  destruct (Z.ltb_spec (Z.of_nat i) 0) as [?|_]; [lia|].
  by rewrite Nat2Z.id, ShowFacts.objects_lookup, H.
Qed.

End NextFacts.

(** X16: the button never shows the same quote twice in a row when it has a
    choice.  After [showRandomQuote] has shown the quote at some position,
    with two quotes or more to choose from, the next run with the same
    selection ends at the first draw for some value of [Math.random], and
    whenever it ends it shows the quote at another position of the
    collection. *)
Theorem next_quote_is_another (draws : list Picker.Draw) (app app1 : Page.App) :
  Page.showRandomQuote draws app = Page.Done app1 →
  (2 ≤ length (Picker.filterBy (Page.value (Page.categoryFilter app))
                 (Page.objects (quotes (Page.core app)))))%nat →
  ∃ (i : nat) (q : Quote),
    Page.quoteDisplay app1 = Page.QuoteShown (quote_json q)
    ∧ Page.lastQuoteIndex app1 = Z.of_nat i
    ∧ quotes (Page.core app) !! i = Some q
    ∧ (∃ d, ∀ rest, ∃ app2, Page.showRandomQuote (d :: rest) app1 = Page.Done app2)
    ∧ ∀ draws' app2,
        Page.showRandomQuote draws' app1 = Page.Done app2 →
        ∃ (j : nat) (q' : Quote),
          Page.quoteDisplay app2 = Page.QuoteShown (quote_json q')
          ∧ Page.lastQuoteIndex app2 = Z.of_nat j
          ∧ quotes (Page.core app) !! j = Some q'
          ∧ i ≠ j.
Proof.
  intros H1 Hpool.
  pose proof (AddFacts.showRandomQuote_keeps _ _ _ H1) as (Hcore & Hfilter & _).
  apply ShowFacts.showRandomQuote_done in H1 as [[Hnil _]|(i & q & Hi & _ & ->)].
  { rewrite Hnil in Hpool. simpl in Hpool. lia. }
  exists i, q. split; [done|]. split; [done|]. split; [done|].
  split; [apply ShowFacts.showRandomQuote_ends|].
  intros draws' app2.
  unfold Page.showRandomQuote, Picker.showRandomQuote.
  cbn [Picker.quotes Picker.lastQuoteIndex].
  rewrite Hcore, Hfilter.
  change (Page.lastQuoteIndex (Page.saveLastQuote _ _)) with (Z.of_nat i).
  set (pool := Picker.filterBy _ _) in *.
  destruct (length pool =? 0)%nat eqn:E0; [apply Nat.eqb_eq in E0; lia|].
  destruct (length pool =? 1)%nat eqn:E1; [apply Nat.eqb_eq in E1; lia|].
  rewrite (NextFacts.at_index_objects _ i q Hi).
  destruct (Picker.draw_index draws' pool _) as [k|] eqn:Hk; [|done].
  apply PickerFacts.draw_index_sound in Hk as [Hlt Hne]; [|lia].
  specialize (Hne Hpool).
  destruct (pool !! k) as [x|] eqn:Hx; [|apply lookup_ge_None in Hx; lia].
  apply PickerFacts.strict_eq_false_ref in Hne.
  assert (Hin : x ∈ pool) by by apply list_elem_of_lookup_2 in Hx.
  apply ShowFacts.elem_of_filterBy in Hin as [Hm _].
  destruct x as [j q']. cbn [Picker.ref Picker.members] in Hne, Hm.
  cbn [mbind option_bind]. rewrite Hx. cbn [Picker.indexOf_read Picker.lastQuoteIndex].
  rewrite (ShowFacts.indexOf_objects _ j q' Hm).
  intros [= <-]. exists j, q'. repeat split; done.
Qed.

Lemma next_quote_is_another_witness :
  (Page.showRandomQuote [Picker.mkDraw 0 0] (pageOf threeState) = Page.Done firstShown
   ∧ (2 ≤ length (Picker.filterBy (Page.value (Page.categoryFilter (pageOf threeState)))
                    (Page.objects (quotes (Page.core (pageOf threeState))))))%nat)
  ∧ Page.showRandomQuote [Picker.mkDraw 0 0; Picker.mkDraw 1 1] firstShown
    = Page.Done secondShown
  ∧ Page.lastQuoteIndex firstShown ≠ Page.lastQuoteIndex secondShown.
Proof.
  assert (H1 : Page.showRandomQuote [Picker.mkDraw 0 0] (pageOf threeState)
               = Page.Done firstShown) by (vm_compute; reflexivity).
  assert (H2 : Page.showRandomQuote [Picker.mkDraw 0 0; Picker.mkDraw 1 1] firstShown
               = Page.Done secondShown) by (vm_compute; reflexivity).
  assert (H3 : (2 ≤ length (Picker.filterBy (Page.value (Page.categoryFilter (pageOf threeState)))
                              (Page.objects (quotes (Page.core (pageOf threeState))))))%nat)
    by (vm_compute; lia).
  split; [split; [exact H1|exact H3]|]. split; [exact H2|].
  destruct (next_quote_is_another _ _ _ H1 H3) as (i & q & _ & Hi & _ & _ & Hnext).
  destruct (Hnext _ _ H2) as (j & q' & _ & Hj & _ & Hne).
  rewrite Hi, Hj. lia.
Defined.

(** ** Import, merge and conflict resolution on the page *)

Module ImportFacts.

Lemma import_try_alerts (contents : string) (shouldReplace : bool) (st st' : State) :
  import_try contents shouldReplace st = Ok st' → alerts st' = alerts st.
Proof.
  unfold import_try. destruct (parse_or_throw contents) as [v|]; [|done].
  destruct v as [| | | |items|]; try done.
  destruct (length _ =? 0)%nat; [done|].
  intros [= <-]. destruct shouldReplace; [done|].
  by destruct (import_merge _ _).
Qed.


End ImportFacts.

(** X17: an import that ends with an alert has changed nothing else.  A
    file whose name does not end in [.json], a file that cannot be read and
    a text that [JSON.parse] rejects are each answered with their alert, and
    whenever [importFromJsonFile] has raised an alert, the collection, the
    store, the dropdown, the quote shown and the stats line are as
    before. *)
Theorem import_alert_means_unchanged (file : File) (shouldReplace : bool)
    (draws : list Picker.Draw) (app : Page.App) :
  (endsWith (name file) ".json" = false →
   Page.importFromJsonFile (Some file) shouldReplace draws app
   = Page.Done (Page.onCore (alert PleaseSelectJson) app))
  ∧ (endsWith (name file) ".json" = true → contents file = None →
     Page.importFromJsonFile (Some file) shouldReplace draws app
     = Page.Done (Page.onCore (alert ErrorReadingFile) app))
  ∧ (∀ result, endsWith (name file) ".json" = true → contents file = Some result →
       JSON_parse result = None →
       Page.importFromJsonFile (Some file) shouldReplace draws app
       = Page.Done (Page.onCore (alert (ErrorImporting SyntaxError)) app))
  ∧ (∀ app',
       Page.importFromJsonFile (Some file) shouldReplace draws app = Page.Done app' →
       alerts (Page.core app') ≠ alerts (Page.core app) →
       quotes (Page.core app') = quotes (Page.core app)
       ∧ localStorage (Page.core app') = localStorage (Page.core app)
       ∧ notifications (Page.core app') = notifications (Page.core app)
       ∧ Page.categoryFilter app' = Page.categoryFilter app
       ∧ Page.quoteDisplay app' = Page.quoteDisplay app
       ∧ Page.stats app' = Page.stats app
       ∧ Page.lastQuoteIndex app' = Page.lastQuoteIndex app)
  ∧ Page.importFromJsonFile None shouldReplace draws app = Page.Done app.
Proof.
  split; [|split; [|split; [|split]]].
  - intros H. unfold Page.importFromJsonFile. by rewrite H.
  - intros H Hc. unfold Page.importFromJsonFile. by rewrite H, Hc.
  - intros result H Hc Hp. unfold Page.importFromJsonFile, import_try, parse_or_throw.
    by rewrite H, Hc, Hp.
  - intros app'. unfold Page.importFromJsonFile.
    destruct (negb _); [by intros [= <-]|].
    destruct (contents file) as [result|]; [|by intros [= <-]].
    destruct (import_try result shouldReplace (Page.core app)) as [st|e] eqn:Hi;
      [|by intros [= <-]].
    apply ImportFacts.import_try_alerts in Hi.
    destruct (Page.showRandomQuote _ _) as [shown|e shown|] eqn:Hr; [| |done].
    + intros [= <-] Hne. apply HandleFacts.refresh_core in Hr.
      rewrite Hr in Hne. simpl in Hne. by rewrite Hi in Hne.
    + destruct (ShowFacts.showRandomQuote_not_raised draws
                  (Page.updateStats (Page.populateCategories (Page.set_core st app))))
        as [[? H]|H]; rewrite H in Hr; done.
  - reflexivity.
Qed.


(** X19: resolving a conflict, with the refresh of the page.  With a
    conflict pending, a run that ends has treated the state as
    [resolveConflict] without the refresh does, shows the number of quotes
    of the pending snapshot and the time of the resolution, lists in the
    dropdown exactly the categories of the collection it leaves, with one
    of them (or [all]) selected; a second click finds nothing pending and
    does nothing. *)
Theorem resolveConflict_refreshes_page (useServerVersion : bool) (now : string)
    (draws : list Picker.Draw) (app app' : Page.App) (pending : ConflictInfo) :
  pendingConflicts (Page.core app) = Some pending →
  Forall wf_quote (serverQuotes pending) →
  now ≠ EmptyString →
  Page.resolveConflict useServerVersion now draws app = Page.Done app' →
  Page.core app' = resolveConflict useServerVersion now (Page.core app)
  ∧ Page.serverCountElement app'
    = Page.LengthRead (Some (JInt (Z.of_nat (length (serverQuotes pending)))))
  ∧ Page.lastSyncElement app' = Page.LocaleOf now
  ∧ (∀ c, c ∈ Page.options (Page.categoryFilter app')
          ↔ c = "all" ∨ c ∈ map category (quotes (Page.core app')))
  ∧ Page.value (Page.categoryFilter app') ∈ Page.options (Page.categoryFilter app')
  ∧ (∀ choice now' draws',
       Page.resolveConflict choice now' draws' app' = Page.Done app').
Proof.
  intros Hp Hwf Hnow Hrun.
  pose proof (HandleFacts.resolveConflict_core _ _ _ _ _ Hrun) as Hcore.
  split; [done|].
  revert Hrun. unfold Page.resolveConflict. rewrite Hp.
  rewrite (DisplayFacts.updateSyncStatusDisplay_snapshot _ (serverQuotes pending)); [|
    unfold Page.onCore, resolveConflict; rewrite Hp; unfold getItem; simpl;
    by rewrite lookup_insert_eq | done].
  set (page := Page.set_serverCountElement _ _).
  change (Page.Done page ≫= _)
    with (Page.showRandomQuote draws (Page.updateStats (Page.populateCategories page))).
  intros Hrun.
  pose proof (HandleFacts.refresh_core draws page app' Hrun) as Hc.
  apply AddFacts.showRandomQuote_keeps in Hrun
    as (_ & Hfilter & _ & _ & _ & _ & _ & _ & _ & Hlast & Hcount).
  rewrite Hcount, Hlast, Hfilter, Hc.
  split; [done|].
  split.
  { unfold page, Page.onCore, resolveConflict. rewrite Hp. unfold getItem. simpl.
    rewrite lookup_insert_ne by done. rewrite lookup_insert_eq. by destruct now. }
  split; [intros c; apply FilterFacts.elem_of_options|].
  split; [apply FilterFacts.populateCategories_value|].
  intros choice now' draws'.
  assert (Hnone : pendingConflicts (Page.core app') = None).
  { rewrite Hcore. unfold resolveConflict. by rewrite Hp. }
  unfold Page.resolveConflict. by rewrite <- Hc, Hnone.
Qed.

Lemma resolveConflict_refreshes_page_witness :
  (pendingConflicts (Page.core (pageOf conflictState)) = Some sampleConflict
   ∧ Forall wf_quote (serverQuotes sampleConflict)
   ∧ "2023-11-14T22:14:00.000Z" ≠ EmptyString
   ∧ Page.resolveConflict true "2023-11-14T22:14:00.000Z" [Picker.mkDraw 1 0]
       (pageOf conflictState) = Page.Done resolvedPage)
  ∧ Page.core resolvedPage = resolveConflict true "2023-11-14T22:14:00.000Z" conflictState
  ∧ Page.serverCountElement resolvedPage = Page.LengthRead (Some (JInt 6)).
Proof.
  assert (H1 : pendingConflicts (Page.core (pageOf conflictState)) = Some sampleConflict)
    by reflexivity.
  assert (H2 : Forall wf_quote (serverQuotes sampleConflict)).
  { apply (CycleFacts.wf_fetched (fun _ => 1700000030000) samplePosts). }
  assert (H3 : "2023-11-14T22:14:00.000Z" ≠ EmptyString) by discriminate.
  assert (H4 : Page.resolveConflict true "2023-11-14T22:14:00.000Z" [Picker.mkDraw 1 0]
                 (pageOf conflictState) = Page.Done resolvedPage) by (vm_compute; reflexivity).
  split; [split; [exact H1|split; [exact H2|split; [exact H3|exact H4]]]|].
  destruct (resolveConflict_refreshes_page _ _ _ _ _ _ H1 H2 H3 H4) as (Hc & Hn & _).
  split; [exact Hc|exact Hn].
Defined.

(** ** The quote shown last *)

(** X20: the quote shown last comes back after a reload in the same tab.
    What [showRandomQuote] has put on display, [restoreLastQuote] puts on
    display again from the session store, and returns [true].  It returns
    [false] with nothing stored and with text that [JSON.parse] rejects,
    leaving the display as it is, and with the text [null], leaving the
    display cleared. *)
Theorem last_quote_survives_reload (draws : list Picker.Draw) (app shown next : Page.App)
    (v : JSON) :
  Forall wf_quote (quotes (Page.core app)) →
  Page.showRandomQuote draws app = Page.Done shown →
  Page.quoteDisplay shown = Page.QuoteShown v →
  Page.sessionStorage next = Page.sessionStorage shown →
  Page.restoreLastQuote next = (true, Page.set_quoteDisplay (Page.QuoteShown v) next)
  ∧ (∀ page, Page.sessionStorage page !! Page.LAST_QUOTE_KEY = None →
       Page.restoreLastQuote page = (false, page))
  ∧ (∀ page data,
       Page.sessionStorage page !! Page.LAST_QUOTE_KEY = Some data →
       JSON_parse data = None →
       Page.restoreLastQuote page = (false, page))
  ∧ (∀ page, Page.sessionStorage page !! Page.LAST_QUOTE_KEY = Some "null" →
       Page.restoreLastQuote page = (false, Page.set_quoteDisplay Page.Cleared page)).
Proof.
  intros Hwf Hshow Hdisplay Hsession.
  split; [|split; [|split]].
  - apply ShowFacts.showRandomQuote_done in Hshow as [[_ ->]|(i & q & Hi & _ & ->)];
      [done|].
    injection Hdisplay as <-.
    assert (Hq : wf_quote q).
    { apply (proj1 (Forall_forall _ _) Hwf). by apply list_elem_of_lookup_2 in Hi. }
    unfold Page.restoreLastQuote. rewrite Hsession.
    cbn [Page.saveLastQuote Page.sessionStorage Page.set_sessionStorage Picker.members].
    rewrite lookup_insert_eq.
    change (truthy_item (Some (JSON_stringify (quote_json q)))) with true. cbv iota.
    unfold parse_or_throw. simpl default.
    rewrite JsonFacts.JSON_parse_stringify by done.
    by rewrite ShowFacts.displayQuote_quote.
  - intros page Hnone. unfold Page.restoreLastQuote. by rewrite Hnone.
  - intros page data Hsome Hparse. unfold Page.restoreLastQuote, parse_or_throw.
    rewrite Hsome. simpl default. rewrite Hparse. by destruct (truthy_item _).
  - intros page Hsome. unfold Page.restoreLastQuote. rewrite Hsome. reflexivity.
Qed.

Lemma last_quote_survives_reload_witness :
  (Forall wf_quote (quotes (Page.core (pageOf threeState)))
   ∧ Page.showRandomQuote [Picker.mkDraw 1 0] (pageOf threeState) = Page.Done middleShown
   ∧ Page.quoteDisplay middleShown
     = Page.QuoteShown (quote_json (plain "Less is more." "Design"))
   ∧ Page.sessionStorage (Page.set_sessionStorage (Page.sessionStorage middleShown)
                            (pageOf threeState))
     = Page.sessionStorage middleShown)
  ∧ fst (Page.restoreLastQuote
           (Page.set_sessionStorage (Page.sessionStorage middleShown) (pageOf threeState)))
    = true.
Proof.
  assert (H1 : Forall wf_quote (quotes (Page.core (pageOf threeState)))).
  { repeat (apply Forall_cons_2; [apply ExportFacts.wf_plain|]). apply Forall_nil_2. }
  assert (H2 : Page.showRandomQuote [Picker.mkDraw 1 0] (pageOf threeState)
               = Page.Done middleShown) by (vm_compute; reflexivity).
  assert (H3 : Page.quoteDisplay middleShown
               = Page.QuoteShown (quote_json (plain "Less is more." "Design")))
    by (vm_compute; reflexivity).
  assert (H4 : Page.sessionStorage (Page.set_sessionStorage (Page.sessionStorage middleShown)
                                      (pageOf threeState))
               = Page.sessionStorage middleShown) by reflexivity.
  split; [split; [exact H1|split; [exact H2|split; [exact H3|exact H4]]]|].
  destruct (last_quote_survives_reload _ _ _ _ _ H1 H2 H3 H4) as (Hr & _).
  by rewrite Hr.
Defined.
